(** * hard_discs2 / NVT: the configuration class and the NVT driver

    A shallow embedding of [src/NVT/config.cpp] (class [config]) and of
    [main] in [src/NVT/NVT.cpp]: its arguments, the overlap-relief loop and
    the Monte Carlo loop.

    - C++ [double] is kept abstract behind the interface [Double]; its
      instance [binary64] is IEEE 754 binary64 (Rocq's primitive floats),
      which is what the program runs on, and [rational] is exact arithmetic.
      Statements proved for every [Double] hold for both.
    - The classes [object], [o_list], [topology], [force_field] and
      [integrator] are not in the two source files.  What the configuration
      code needs of them is gathered in [Energetics], [ObjectOps] and
      [Integrator]; the few members whose behaviour the specification fixes
      are modelled from it and marked so.
    - C++ [int] is [Z]; a statement that needs a value to stay within the
      range of [int] says so, with [fits_int] or with the bound written
      out.
    - The list of object pointers is a list of object values indexed by
      position; every [new object] is a fresh cell, so no two positions
      alias. *)

From Stdlib Require Import ZArith QArith Qabs Lia Lqa String Ascii.
From Stdlib Require Import PrimFloat SpecFloat FloatOps FloatAxioms.
From stdpp Require Import list.

Set Warnings "-inexact-float".

(** ** C++ [double] *)

Class Double (D : Type) := {
  d_zero : D;                       (* 0.0 *)
  d_one  : D;                       (* 1.0 *)
  d_two  : D;                       (* 2.0 *)
  d_add  : D -> D -> D;
  d_sub  : D -> D -> D;
  d_mul  : D -> D -> D;
  d_div  : D -> D -> D;
  d_opp  : D -> D;
  d_abs  : D -> D;                  (* abs on double: the overload of cmath *)
  d_ltb  : D -> D -> bool           (* operator< *)
}.

Declare Scope double_scope.
Delimit Scope double_scope with dbl.
Infix "+" := d_add : double_scope.
Infix "-" := d_sub : double_scope.
Infix "*" := d_mul : double_scope.
Infix "/" := d_div : double_scope.
Infix "<?" := d_ltb : double_scope.
Notation "- x" := (d_opp x) : double_scope.

(** IEEE 754 binary64, the arithmetic of the compiled program. *)
#[export] Instance binary64 : Double float := {|
  d_zero := PrimFloat.zero;
  d_one  := PrimFloat.one;
  d_two  := PrimFloat.two;
  d_add  := PrimFloat.add;
  d_sub  := PrimFloat.sub;
  d_mul  := PrimFloat.mul;
  d_div  := PrimFloat.div;
  d_opp  := PrimFloat.opp;
  d_abs  := PrimFloat.abs;
  d_ltb  := PrimFloat.ltb
|}.

Definition Qltb (x y : Q) : bool := (Qnum x * QDen y <? Qnum y * QDen x)%Z.

(** Exact rational arithmetic, the arithmetic the geometry is meant in. *)
#[export] Instance rational : Double Q := {|
  d_zero := 0%Q;
  d_one  := 1%Q;
  d_two  := 2%Q;
  d_add  := Qplus;
  d_sub  := Qminus;
  d_mul  := Qmult;
  d_div  := Qdiv;
  d_opp  := Qopp;
  d_abs  := Qabs;
  d_ltb  := Qltb
|}.

(** The doubles that stand for numbers and their exact values: [number x]
    tells that [x] is one (in binary64: neither infinite nor a NaN) and
    [val x] is the rational it stands for.  On such doubles negation, [abs]
    and [operator<] are exact; nothing is asked of sums and differences,
    which round. *)
Record Valuation {D : Type} {AD : Double D} (number : D -> bool) (val : D -> Q)
    : Prop := {
  val_zero : number d_zero = true /\ (val d_zero == 0)%Q;
  val_opp  : forall x, number x = true ->
               number (- x)%dbl = true /\ (val (- x)%dbl == - val x)%Q;
  val_abs  : forall x, number x = true ->
               number (d_abs x) = true /\ (val (d_abs x) == Qabs (val x))%Q;
  val_ltb  : forall x y, number x = true -> number y = true ->
               ((x <? y)%dbl = true <-> (val x < val y)%Q)
}.

(** The double [z], the result of a sum or a difference, is a number and
    stands for [q]: the operation has not rounded. *)
Definition exactly {D : Type} (number : D -> bool) (val : D -> Q) (z : D) (q : Q)
    : Prop :=
  number z = true /\ (val z == q)%Q.

(** ** class object (object.cpp is not among the sources) *)

Record object (D : Type) := mk_object {
  o_type        : Z;
  pos_x         : D;
  pos_y         : D;
  orientation   : D;
  cached_energy : D;
  recalculate   : bool
}.
Arguments mk_object {D}.
Arguments o_type {D}.
Arguments pos_x {D}.
Arguments pos_y {D}.
Arguments orientation {D}.
Arguments cached_energy {D}.
Arguments recalculate {D}.

(** What config.cpp and NVT.cpp use of the classes that are not among the
    sources, in two parts: the energy side, which is all [config::energy]
    calls, and the rest of class [object].  [interaction], [box_energy],
    [distance], [object_move], [object_rotate] and [object_write] are the
    members of [object] of these names, the receiver being the first
    [object] argument; [the_topology] is a pointer that may be null, hence
    the [option]; [rand_state] is the state of the process-wide generator
    behind [rand()]. *)
Class Energetics (D : Type) := {
  force_field : Type;
  topology : Type;
  default_topology : topology;                      (* new topology() *)
  big_energy : force_field -> D;                    (* the_forces->big_energy *)
  interaction : force_field -> option topology -> object D -> object D -> D;
  box_energy : force_field -> option topology -> D -> D -> object D -> D
}.

Class ObjectOps (D : Type) := {
  rand_state : Type;
  ctor_energy : D;                                  (* set by object::object *)
  ctor_recalculate : bool;                          (* set by object::object *)
  M_2PI : D;                                        (* common.h *)
  distance : object D -> object D -> D -> D -> bool -> D;
  object_move : D -> D -> D -> bool -> object D -> rand_state -> object D * rand_state;
  object_rotate : D -> object D -> rand_state -> object D * rand_state;
  object_write : object D -> string
}.

Section Object.
Context {D : Type} {AD : Double D} {OB : ObjectOps D}.

(** Modelled from the spec: the constructor [object(o_type, x, y, angle)]
    of object.cpp, which is not among the sources.  It stores the placement;
    the cache fields get the constructor's own initial values. *)
Definition new_object (t : Z) (x y angle : D) : object D :=
  mk_object t x y angle ctor_energy ctor_recalculate.

(** Modelled from the spec: [object::set_energy] of object.cpp stores the
    value and clears [recalculate]. *)
Definition set_energy (o : object D) (v : D) : object D :=
  mk_object (o_type o) (pos_x o) (pos_y o) (orientation o) v false.

(** Modelled from the spec: [object::get_energy] of object.cpp. *)
Definition get_energy (o : object D) : D := cached_energy o.

(** Modelled from the spec: [object::expand] of object.cpp multiplies the
    centre by the factor. *)
Definition object_expand (o : object D) (dl : D) : object D :=
  mk_object (o_type o) (pos_x o * dl)%dbl (pos_y o * dl)%dbl (orientation o)
            (cached_energy o) (recalculate o).

(** Assignments through an object pointer. *)
Definition set_pos_x (o : object D) (x : D) : object D :=
  mk_object (o_type o) x (pos_y o) (orientation o) (cached_energy o) (recalculate o).

Definition set_pos_y (o : object D) (y : D) : object D :=
  mk_object (o_type o) (pos_x o) y (orientation o) (cached_energy o) (recalculate o).

Definition set_recalculate (o : object D) (b : bool) : object D :=
  mk_object (o_type o) (pos_x o) (pos_y o) (orientation o) (cached_energy o) b.

End Object.

(** ** class config

    Modelled from the spec: [o_list] (not among the sources) is an ordered
    sequence addressable by index; it is a [list] here, [size()] its
    [length], [get(i)] the lookup [l !! i] and [add] appends at the end.
    An index is a [nat]; a lookup out of range has no defined result in the
    source and none in the model. *)

Record config {D : Type} {EN : Energetics D} := mk_config {
  x_size       : D;
  y_size       : D;
  unchanged    : bool;
  saved_energy : D;
  obj_list     : list (object D);
  the_topology : option topology;
  is_periodic  : bool
}.
Arguments mk_config {D EN}.

(** [for (i = 0; i < n; i++) body] over a state. *)
Definition for_upto {St : Type} (n : nat) (body : St -> nat -> St) (init : St) : St :=
  fold_left body (seq 0 n) init.

Section Config.
Context {D : Type} {AD : Double D} {EN : Energetics D} {OB : ObjectOps D}.

Definition with_objects (c : config) (l : list (object D)) : config :=
  mk_config (x_size c) (y_size c) (unchanged c) (saved_energy c) l
            (the_topology c) (is_periodic c).

(** The assignment [unchanged = false]; the field is public. *)
Definition mark_changed (c : config) : config :=
  mk_config (x_size c) (y_size c) false (saved_energy c) (obj_list c)
            (the_topology c) (is_periodic c).

(** [config::config()] *)
Definition config_default : config :=
  mk_config d_one d_one true d_zero [] None false.

(** [config::config(config& orig)]; the list that [obj_list.empty()] is
    called on is the one the constructor starts with, without entries. *)
Definition config_copy (orig : config) : config :=
  mk_config (x_size orig) (y_size orig) (unchanged orig) (saved_energy orig)
    (for_upto (length (obj_list orig))
       (fun l i =>
          match obj_list orig !! i with
          | Some my_obj1 =>
              l ++ [new_object (o_type my_obj1) (pos_x my_obj1)
                               (pos_y my_obj1) (orientation my_obj1)]
          | None => l
          end) [])
    (Some default_topology) (is_periodic orig).

(** [config::area] *)
Definition area (c : config) : D := (x_size c * y_size c)%dbl.

(** [config::n_objects] *)
Definition n_objects (c : config) : nat := length (obj_list c).

(** Lines 150-153 and 156-159 of [config::energy]: the shift of the partner
    along one axis; [r] is the partner's coordinate minus the object's.  The
    candidate is [size] towards the object, and it is taken when the
    separation computed with it is smaller than the one computed without. *)
Definition image_shift (size r : D) : D :=
  let dx := if (r <? d_zero)%dbl then size else (- size)%dbl in
  let r2 := (r + dx)%dbl in
  if (d_abs r2 <? d_abs r)%dbl then dx else d_zero.

Definition shift_pos (o : object D) (dx dy : D) : object D :=
  set_pos_y (set_pos_x o (pos_x o + dx)%dbl) (pos_y o + dy)%dbl.

Definition unshift_pos (o : object D) (dx dy : D) : object D :=
  set_pos_y (set_pos_x o (pos_x o - dx)%dbl) (pos_y o - dy)%dbl.

(** The body of the inner loop of [config::energy] (lines 142-168): the
    store [l] is the object list, [my_obj1] and [my_obj2] are read and
    written through their positions [i1] and [i2]. *)
Definition energy_pair (the_force : force_field) (c : config) (i1 : nat)
    (st : list (object D) * D) (i2 : nat) : list (object D) * D :=
  let '(l, value) := st in
  if bool_decide (i1 <> i2) then
    match l !! i1, l !! i2 with
    | Some my_obj1, Some my_obj2 =>
        let dx := if is_periodic c
                  then image_shift (x_size c) (pos_x my_obj2 - pos_x my_obj1)%dbl
                  else d_zero in
        let dy := if is_periodic c
                  then image_shift (y_size c) (pos_y my_obj2 - pos_y my_obj1)%dbl
                  else d_zero in
        let l1 := if is_periodic c then <[i2 := shift_pos my_obj2 dx dy]> l else l in
        match l1 !! i1, l1 !! i2 with
        | Some my_obj1', Some my_obj2' =>
            let value' :=
              (value + interaction the_force (the_topology c) my_obj1' my_obj2')%dbl in
            let l2 := if is_periodic c
                      then <[i2 := unshift_pos my_obj2' dx dy]> l1 else l1 in
            (l2, value')
        | _, _ => st
        end
    | _, _ => st
    end
  else st.

(** The body of the outer loop of [config::energy] (lines 138-177); the
    state is the object list and [saved_energy]. *)
Definition energy_object (the_force : force_field) (c : config)
    (st : list (object D) * D) (i1 : nat) : list (object D) * D :=
  let '(l, saved) := st in
  match l !! i1 with
  | Some my_obj1 =>
      let l' :=
        if recalculate my_obj1 then
          let '(l1, value) :=
            for_upto (length l) (energy_pair the_force c i1) (l, d_zero) in
          match l1 !! i1 with
          | Some my_obj1' =>
              let value' :=
                if negb (is_periodic c)
                then (value + box_energy the_force (the_topology c)
                                (x_size c) (y_size c) my_obj1')%dbl
                else value in
              <[i1 := set_energy my_obj1' value']> l1
          | None => l1
          end
        else l in
      match l' !! i1 with
      | Some my_obj1' => (l', (saved + get_energy my_obj1')%dbl)
      | None => (l', saved)
      end
  | None => st
  end.

(** [config::energy]: the configuration after the call and the value
    returned. *)
Definition energy (the_force : force_field) (c : config) : config * D :=
  if negb (unchanged c) then
    let '(l, saved) :=
      for_upto (length (obj_list c)) (energy_object the_force c)
               (obj_list c, d_zero) in
    (mk_config (x_size c) (y_size c) true saved l (the_topology c) (is_periodic c),
     (saved / d_two)%dbl)
  else (c, (saved_energy c / d_two)%dbl).

(** [config::expand] *)
Definition expand (dl : D) (c : config) : config :=
  mk_config (x_size c * dl)%dbl (y_size c * dl)%dbl false (saved_energy c)
    (for_upto (length (obj_list c))
       (fun l i =>
          let l1 := alter (fun o => set_recalculate o true) i l in
          alter (fun o => object_expand o dl) i l1)
       (obj_list c))
    (the_topology c) (is_periodic c).

(** [config::move]; [None] when [obj_number] is out of range. *)
Definition move (obj_number : nat) (dl_max : D) (c : config) (g : rand_state)
    : option (config * rand_state) :=
  match obj_list c !! obj_number with
  | Some o =>
      let '(o1, g1) :=
        object_move dl_max (x_size c) (y_size c) (is_periodic c) o g in
      let l1 := <[obj_number := o1]> (obj_list c) in
      match l1 !! obj_number with
      | Some o1' =>
          let '(o2, g2) := object_rotate M_2PI o1' g1 in
          Some (with_objects c (<[obj_number := o2]> l1), g2)
      | None => None
      end
  | None => None
  end.

(** [config::rotate]; [None] when [obj_number] is out of range. *)
Definition rotate (obj_number : nat) (theta_max : D) (c : config) (g : rand_state)
    : option (config * rand_state) :=
  match obj_list c !! obj_number with
  | Some o =>
      let '(o1, g1) := object_rotate theta_max o g in
      Some (with_objects c (<[obj_number := o1]> (obj_list c)), g1)
  | None => None
  end.

(** [config::invalidate_within]; [None] when [index] is out of range. *)
Definition invalidate_within (dist : D) (index : nat) (c : config) : option config :=
  match obj_list c !! index with
  | Some _ =>
      Some (with_objects c
        (for_upto (n_objects c)
           (fun l i =>
              if bool_decide (i <> index) then
                match l !! index, l !! i with
                | Some obj1, Some obj2 =>
                    if (distance obj1 obj2 (x_size c) (y_size c) (is_periodic c)
                          <? dist)%dbl
                    then <[i := set_recalculate obj2 true]> l
                    else l
                | _, _ => l
                end
              else l)
           (obj_list c)))
  | None => None
  end.

(** [config::add_topology] *)
Definition add_topology (a_topology : topology) (c : config) : config :=
  mk_config (x_size c) (y_size c) (unchanged c) (saved_energy c) (obj_list c)
            (Some a_topology) (is_periodic c).

(** [config::add_object] *)
Definition add_object (orig : object D) (c : config) : config :=
  with_objects c (obj_list c ++ [orig]).

End Config.

(** ** class config: the members that report

    [config::~config] only releases memory and has no counterpart here. *)

Section ConfigQueries.
Context {D : Type} {AD : Double D} {EN : Energetics D} {OB : ObjectOps D}.

(** [config::check]: not implemented yet, it answers true. *)
Definition check (c : config) : bool := true.

(** [config::rms]: a stub that answers 1.0. *)
Definition rms (c ref : config) : D := d_one.

(** The loop of [config::object_types], lines 226-232. *)
Definition max_type (c : config) : Z :=
  for_upto (length (obj_list c))
    (fun max_type i =>
       match obj_list c !! i with
       | Some o => Z.max max_type (o_type o)
       | None => max_type
       end)
    (-1)%Z.

(** [config::object_types]; [None] where one of its two [assert]s fails. *)
Definition object_types (c : config) : option Z :=
  if check c then
    if (0 <=? max_type c)%Z then Some (max_type c) else None
  else None.

End ConfigQueries.

(** ** [config::ps_atoms] *)

(** What [config::ps_atoms] uses of [topology] and [force_field], which are
    not among the sources, and of the C library: [n_atom top o_type] is
    [the_topology->n_atom(o_type)]; [atom_type], [atom_x] and [atom_y] are
    the members [type], [x_pos] and [y_pos] of
    [the_topology->atoms(o_type, j)]; [ff_size] and [get_color] are
    [the_forces->size(t)] and [the_forces->get_color(t)]. *)
Class Drawing (D : Type) {EN : Energetics D} := {
  d_cos : D -> D;
  d_sin : D -> D;
  n_atom : topology -> Z -> Z;
  atom_type : topology -> Z -> nat -> Z;
  atom_x : topology -> Z -> nat -> D;
  atom_y : topology -> Z -> nat -> D;
  ff_size : force_field -> Z -> D;
  get_color : force_field -> Z -> string
}.

(** One call of [fprintf] with the format
    ["newpath %g %g %g %s moveto fcircle \n"], by its four values, in the
    order of the call. *)
Record circle (D : Type) := mk_circle {
  circle_r : D;
  circle_x : D;
  circle_y : D;
  circle_color : string
}.
Arguments mk_circle {D}.
Arguments circle_r {D}.
Arguments circle_x {D}.
Arguments circle_y {D}.
Arguments circle_color {D}.

Section PsAtoms.
Context {D : Type} {AD : Double D} {EN : Energetics D} {DR : Drawing D}.

(** The conversion to [double] of an [int] that is -1, 0 or 1. *)
Definition sign_to_double (n : Z) : D :=
  match n with
  | Z0 => d_zero
  | Zpos _ => d_one
  | Zneg _ => (- d_one)%dbl
  end.

(** Lines 394-397: which border a circle at [x] of radius [r] crosses,
    along an axis of length [size]. *)
Definition border_side (size r x : D) : Z :=
  let lr := 0%Z in
  let lr := if (x <? r)%dbl then (-1)%Z else lr in
  let lr := if (size - r <? x)%dbl then 1%Z else lr in
  lr.

(** Lines 386-387: the centre of atom [j] of [my_obj]. *)
Definition atom_centre (top : topology) (my_obj : object D) (j : nat) : D * D :=
  let theta := orientation my_obj in
  let dx := atom_x top (o_type my_obj) j in
  let dy := atom_y top (o_type my_obj) j in
  ((pos_x my_obj + dx * d_cos theta - dy * d_sin theta)%dbl,
   (pos_y my_obj + dx * d_sin theta + dy * d_cos theta)%dbl).

(** The body of the loop over the atoms, lines 381-411: the calls of
    [fprintf] for atom [j] of [my_obj]. *)
Definition ps_atom (the_forces : force_field) (c : config) (top : topology)
    (my_obj : object D) (j : nat) : list (circle D) :=
  let t := atom_type top (o_type my_obj) j in
  let r := ff_size the_forces t in
  let '(x, y) := atom_centre top my_obj j in
  let color := get_color the_forces t in
  let lr := border_side (x_size c) r x in
  let tb := border_side (y_size c) r y in
  let x' := (sign_to_double lr * x - sign_to_double lr * x_size c)%dbl in
  let y' := (sign_to_double tb * y - sign_to_double tb * y_size c)%dbl in
  [mk_circle r x y color]
    ++ (if bool_decide (lr <> 0%Z) then [mk_circle r x' y color] else [])
    ++ (if bool_decide (tb <> 0%Z) then [mk_circle r x y' color] else [])
    ++ (if bool_decide (lr <> 0%Z) && bool_decide (tb <> 0%Z)
        then [mk_circle r x' y' color] else []).

(** [config::ps_atoms]: the calls of [fprintf], in order; [None] where
    [the_topology], a null pointer, is dereferenced. *)
Definition ps_atoms (the_forces : force_field) (c : config)
    : option (list (circle D)) :=
  for_upto (length (obj_list c))
    (fun out i =>
       match out, obj_list c !! i with
       | Some out, Some my_obj =>
           match the_topology c with
           | Some top =>
               Some (for_upto (Z.to_nat (n_atom top (o_type my_obj)))
                       (fun out j => out ++ ps_atom the_forces c top my_obj j)
                       out)
           | None => None
           end
       | _, _ => out
       end)
    (Some []).

(** The number of atoms of a configuration. *)
Definition atom_count (top : topology) (c : config) : nat :=
  list_sum ((fun o => Z.to_nat (n_atom top (o_type o))) <$> obj_list c).

End PsAtoms.

(** ** The driver: the overlap-relief loop of [main] (NVT.cpp, lines 192-222) *)

(** Class [integrator] is not among the sources.  [integrator_run the_forces
    dl_max state beta P n_steps g] stands for [new integrator(the_forces)],
    the assignment of [dl_max], and [run(state_h, beta, P, n_steps)]: it
    gives the configuration [*state_h] points to on return, the integrator's
    [dl_max] and the state of the generator. *)
Class Integrator (D : Type) {EN : Energetics D} {OB : ObjectOps D} := {
  integrator_run :
    force_field -> D -> config -> D -> D -> Z -> rand_state ->
    config * D * rand_state
}.

Definition EXIT_FAILURE : Z := 1.

(** How the loop ends: the [fatal_error] of line 210, which calls
    [exit(EXIT_FAILURE)], or the loop condition failing.  [batches] lists
    the [n_steps] of the calls of [run], in order. *)
Inductive relief_result {D : Type} {EN : Energetics D} : Type :=
| Relief_fatal (i : Z) (batches : list Z)
| Relief_done (current_state : config) (dl_max U1 : D) (i : Z) (batches : list Z)
| Relief_out_of_fuel.

Section Driver.
Context {D : Type} {AD : Double D} {EN : Energetics D} {OB : ObjectOps D}
        {IN : Integrator D}.

(** [min(a, b)] of the standard library. *)
Definition d_min (a b : D) : D := if (b <? a)%dbl then b else a.

(** One pass through the body of the [while] loop after the test of [i]:
    lines 213-221. *)
Definition relief_batch (the_forces : force_field) (beta P1 : D) (N1 : Z)
    (st : config * D * rand_state) : config * D * rand_state * D :=
  let '(current_state, dl_max, g) := st in
  let '(state', dl_max', g') :=
    integrator_run the_forces dl_max current_state beta P1 (2 * N1) g in
  let '(state'', U1) := energy the_forces state' in
  (state'', dl_max', g', U1).

(** The [while] loop of lines 208-222; [fuel] bounds the number of tests of
    its condition.  [i], [2000 * N1] and [2 * N1] are [int] in the source
    and [Z] here: the loop is the program's as long as [2002 * N1], the
    highest value that [i] reaches, is within the range of [int]. *)
Fixpoint relief (fuel : nat) (the_forces : force_field) (beta P1 : D) (N1 : Z)
    (i : Z) (U1 : D) (st : config * D * rand_state) (batches : list Z)
    : relief_result :=
  match fuel with
  | O => Relief_out_of_fuel
  | S fuel' =>
      if (big_energy the_forces <? U1)%dbl then
        if (2000 * N1 <? i)%Z then Relief_fatal i batches
        else
          let '(st', U1') := relief_batch the_forces beta P1 N1 st in
          relief fuel' the_forces beta P1 N1 (i + 2 * N1) U1' st'
                 (batches ++ [(2 * N1)%Z])
      else Relief_done (st.1.1) (st.1.2) U1 i batches
  end.

(** Lines 188-222 of [main], from the loaded configuration on. *)
Definition main_relief (fuel : nat) (the_forces : force_field) (beta P1 : D)
    (loaded : config) (a_topology : topology) (g : rand_state) : relief_result :=
  let current_state := add_topology a_topology loaded in
  let '(current_state, U1) := energy the_forces current_state in
  let N1 := Z.of_nat (n_objects current_state) in
  let dl_max := (d_min (x_size current_state) (y_size current_state) / d_two)%dbl in
  relief fuel the_forces beta P1 N1 0 U1 (current_state, dl_max, g) [].

(** The exit status the loop forces, if any. *)
Definition relief_exit (r : relief_result) : option Z :=
  match r with
  | Relief_fatal _ _ => Some EXIT_FAILURE
  | _ => None
  end.

(** The state after [k] batches, and the energy then; [U1] is the energy
    before the first. *)
Fixpoint after_batches (k : nat) (the_forces : force_field) (beta P1 : D) (N1 : Z)
    (U1 : D) (st : config * D * rand_state) : config * D * rand_state * D :=
  match k with
  | O => (st, U1)
  | S k' =>
      relief_batch the_forces beta P1 N1
        (after_batches k' the_forces beta P1 N1 U1 st).1
  end.

End Driver.

(** ** The driver: the Monte Carlo loop of [main] (NVT.cpp, lines 236-259) *)

(** Class [integrator] as the Monte Carlo loop uses it, one object kept
    across the calls of [run]: [new_integrator] is its constructor,
    [dl_max_of] and [with_dl_max] read and assign its public member
    [dl_max], [n_good] and [n_bad] are its counters. *)
Class Sampler (D : Type) {EN : Energetics D} {OB : ObjectOps D} := {
  integrator : Type;
  new_integrator : force_field -> integrator;
  dl_max_of : integrator -> D;
  with_dl_max : integrator -> D -> integrator;
  n_good : integrator -> Z;
  n_bad : integrator -> Z;
  run : integrator -> config -> D -> D -> Z -> rand_state ->
        integrator * config * rand_state
}.

(** What [main] uses of the C library on [double]: the conversion of an
    [int] and [atof]. *)
Class Conversions (D : Type) := {
  of_int : Z -> D;
  atof : string -> D
}.

(** The integrator of the relief loop, made anew for every batch
    (lines 213-218). *)
Definition one_shot {D : Type} {EN : Energetics D} {OB : ObjectOps D}
    {SA : Sampler D} : Integrator D := {|
  integrator_run := fun the_forces dl_max state beta P1 n_steps g =>
    let '(the_integrator, state', g') :=
      run (with_dl_max (new_integrator the_forces) dl_max) state beta P1 n_steps g in
    (state', dl_max_of the_integrator, g')
|}.

(** A report on the log, by the values handed to [fprintf]: after loading
    (lines 197-201), after the relief loop (228-232), after a batch of the
    Monte Carlo loop (249-256) and at the end (268). *)
Inductive log_line (D : Type) : Type :=
| Log_loaded (N1 : Z) (P1 beta V1 density U1 : D)
| Log_adjusted (N1 : Z) (P1 beta V1 density U1 : D)
| Log_steps (steps N1 : Z) (P1 beta V1 density U1 : D) (good total : Z) (dl_max : D)
| Log_done.
Arguments Log_loaded {D}.
Arguments Log_adjusted {D}.
Arguments Log_steps {D}.
Arguments Log_done {D}.

(** The step count a report of the Monte Carlo loop gives. *)
Definition reported_steps {D : Type} (line : log_line D) : option Z :=
  match line with
  | Log_steps steps _ _ _ _ _ _ _ _ _ => Some steps
  | _ => None
  end.

Section MonteCarlo.
Context {D : Type} {AD : Double D} {EN : Energetics D} {OB : ObjectOps D}
        {SA : Sampler D} {CV : Conversions D}.

(** The calls of lines 241-247 in the body of the [for] loop: the state
    after them and the energy. *)
Definition mc_batch (the_forces : force_field) (beta P1 : D) (step : Z)
    (st : integrator * config * rand_state)
    : integrator * config * rand_state * D :=
  let '(the_integrator, current_state, g) := st in
  let '(the_integrator', state', g') :=
    run the_integrator current_state beta P1 step g in
  let '(state'', U1) := energy the_forces state' in
  (the_integrator', state'', g', U1).

(** The report of lines 249-256. *)
Definition mc_report (beta P1 : D) (i step : Z)
    (b : integrator * config * rand_state * D) : log_line D :=
  let '(the_integrator, current_state, _, U1) := b in
  let V1 := area current_state in
  let N1 := Z.of_nat (n_objects current_state) in
  Log_steps (i + step) N1 P1 beta V1 (of_int N1 / V1)%dbl U1
            (n_good the_integrator) (n_good the_integrator + n_bad the_integrator)
            (dl_max_of the_integrator).

(** The [for] loop of lines 240-259; [fuel] bounds the number of tests of
    its condition, [None] is for a loop that has not ended by then.  The
    arithmetic on [int] is that of [Z]: a statement is about the program
    as long as the values stay in the range of [int].  [batches] lists the
    [n_steps] of the calls of [run], in order. *)
Fixpoint mc_loop (fuel : nat) (the_forces : force_field) (beta P1 : D)
    (it_max i step : Z) (st : integrator * config * rand_state)
    (out : list (log_line D)) (batches : list Z)
    : option (integrator * config * rand_state * list (log_line D) * list Z) :=
  match fuel with
  | O => None
  | S fuel' =>
      if (i <? it_max)%Z then
        let b := mc_batch the_forces beta P1 step st in
        let line := mc_report beta P1 i step b in
        let step' := Z.min step (it_max - i) in
        mc_loop fuel' the_forces beta P1 it_max (i + step') step' b.1
                (out ++ [line]) (batches ++ [step])
      else Some (st, out, batches)
  end.

End MonteCarlo.

(** ** The text of a configuration file

    The conversions of [fprintf] and [fscanf] that [config::write] and
    [the file constructor of config] use, for binary64: ["%d"], ["%f"] with a field
    width, and ["%lf"] on the decimal forms that ["%f"] prints. *)

Module Stdio.
Local Open Scope string_scope.

Definition digit_char (d : Z) : ascii := ascii_of_nat (48 + Z.to_nat d).

(** The decimal digits of [n >= 0] in front of [acc]. *)
Fixpoint digits_from (fuel : nat) (n : Z) (acc : string) : string :=
  match fuel with
  | O => acc
  | S fuel' =>
      let acc' := String (digit_char (n mod 10)) acc in
      if (n / 10 =? 0)%Z then acc' else digits_from fuel' (n / 10) acc'
  end.

Definition digits (n : Z) : string :=
  digits_from (S (Z.to_nat (Z.log2 n))) n EmptyString.

(** [k] times the character [a]. *)
Fixpoint replicate (k : nat) (a : ascii) : string :=
  match k with
  | O => EmptyString
  | S k' => String a (replicate k' a)
  end.

Definition spaces (k : nat) : string := replicate k " ".

Definition zeros (k : nat) : string := replicate k "0".

(** A field width: blanks on the left up to [width] characters. *)
Definition pad_left (width : nat) (s : string) : string :=
  spaces (width - String.length s) ++ s.

Definition round_half_even (num den : Z) : Z :=
  let q := (num / den)%Z in
  match (2 * (num mod den) ?= den)%Z with
  | Lt => q
  | Gt => (q + 1)%Z
  | Eq => if Z.even q then q else (q + 1)%Z
  end.

(** ["%d"] *)
Definition print_d (n : Z) : string :=
  if (n <? 0)%Z then String "-" (digits (- n)) else digits n.

(** ["%f"]: the exact value rounded to six digits after the point. *)
Definition print_f (x : float) : string :=
  match Prim2SF x with
  | S754_nan => "nan"
  | S754_infinity s => if s then "-inf" else "inf"
  | S754_zero s => if s then "-0.000000" else "0.000000"
  | S754_finite s m e =>
      let n := if (0 <=? e)%Z then (Z.pos m * 2 ^ e * 1000000)%Z
               else round_half_even (Z.pos m * 1000000) (2 ^ (- e)) in
      (if s then "-" else "") ++ digits (n / 1000000) ++ "."
        ++ zeros (6 - String.length (digits (n mod 1000000)))
        ++ digits (n mod 1000000)
  end.

Definition is_space (a : ascii) : bool :=
  let n := nat_of_ascii a in (n =? 32)%nat || ((9 <=? n)%nat && (n <=? 13)%nat).

Definition is_digit (a : ascii) : bool :=
  let n := nat_of_ascii a in (48 <=? n)%nat && (n <=? 57)%nat.

(** White space in a format, and before a conversion. *)
Fixpoint skip_space (s : string) : string :=
  match s with
  | String a s' => if is_space a then skip_space s' else s
  | EmptyString => s
  end.

(** The run of digits at the head of [s]: its value on top of [acc], its
    length on top of [count], and what follows. *)
Fixpoint scan_digits (s : string) (acc : Z) (count : nat) : Z * nat * string :=
  match s with
  | String a s' =>
      if is_digit a
      then scan_digits s' (10 * acc + Z.of_nat (nat_of_ascii a - 48))%Z (S count)
      else (acc, count, s)
  | EmptyString => (acc, count, s)
  end.

Definition scan_sign (s : string) : bool * string :=
  match s with
  | String "-" s' => (true, s')
  | String "+" s' => (false, s')
  | _ => (false, s)
  end.

(** ["%d"]; [None] when no number is there. *)
Definition scan_d (s : string) : option (Z * string) :=
  let '(neg, s1) := scan_sign (skip_space s) in
  let '(n, count, s2) := scan_digits s1 0%Z 0 in
  if (count =? 0)%nat then None else Some (if neg then (- n)%Z else n, s2).

(** The binary64 nearest to [num / 10^k], ties to even: the quotient is
    taken with 66 bits to spare and a sticky bit, then rounded once. *)
Definition nearest_float (neg : bool) (num : Z) (k : nat) : float :=
  let den := (10 ^ Z.of_nat k)%Z in
  let s := (Z.log2 den + 66)%Z in
  let q := ((num * 2 ^ s) / den)%Z in
  let sticky := if ((num * 2 ^ s) mod den =? 0)%Z then 0%Z else 1%Z in
  let m := (2 * q + sticky)%Z in
  SF2Prim (binary_normalize prec emax (if neg then - m else m)%Z (- (s + 1)) neg).

(** ["%lf"] on a decimal numeral: sign, digits, point, digits; [None] when
    no such number is there.  The conversion of the C library also reads
    an exponent, hexadecimal digits, [inf] and [nan]: this is ["%lf"] on
    the texts in which none of these follows, as in those that ["%f"]
    prints and in those of [plain_text]. *)
Definition scan_lf (s : string) : option (float * string) :=
  let '(neg, s1) := scan_sign (skip_space s) in
  let '(ip, ni, s2) := scan_digits s1 0%Z 0 in
  match s2 with
  | String "." s3 =>
      let '(fp, nf, s4) := scan_digits s3 ip 0 in
      if ((ni + nf)%nat =? 0)%nat then None else Some (nearest_float neg fp nf, s4)
  | _ => if (ni =? 0)%nat then None else Some (nearest_float neg ip 0, s2)
  end.

Definition newline : string := String (ascii_of_nat 10) EmptyString.

(** Neither infinite nor a NaN. *)
Definition is_finite (x : float) : bool :=
  match Prim2SF x with
  | S754_zero _ | S754_finite _ _ _ => true
  | _ => false
  end.

Fixpoint all_digits (s : string) : bool :=
  match s with
  | EmptyString => true
  | String a s' => is_digit a && all_digits s'
  end.

(** A decimal numeral: sign, integer part, point, fraction. *)
Definition numeral (neg : bool) (ip fp : string) : string :=
  (if neg then "-" else "") ++ ip ++ "." ++ fp.

End Stdio.

Section File.
Context {EN : Energetics float} {OB : ObjectOps float}.
Import Stdio.
Local Open Scope string_scope.

(** [config::write]: the text sent to [dest]. *)
Definition write (c : config) : string :=
  let header :=
    pad_left 9 (print_f (x_size c)) ++ "2 "
      ++ pad_left 9 (print_f (y_size c)) ++ "2 " ++ newline in
  let count := print_d (Z.of_nat (length (obj_list c))) ++ newline in
  for_upto (length (obj_list c))
    (fun out i =>
       match obj_list c !! i with
       | Some this_obj => out ++ object_write this_obj
       | None => out
       end)
    (header ++ count).

(** The loop of [the file constructor of config], lines 62-68. *)
Fixpoint read_objects (n : nat) (src : string) (l : list (object float))
    : option (list (object float)) :=
  match n with
  | O => Some l
  | S n' =>
      match scan_d src with
      | Some (o_type, s1) =>
          match scan_lf s1 with
          | Some (x_pos, s2) =>
              match scan_lf s2 with
              | Some (y_pos, s3) =>
                  match scan_lf s3 with
                  | Some (angle, s4) =>
                      read_objects n' (skip_space s4)
                        (l ++ [new_object o_type x_pos y_pos angle])
                  | None => None
                  end
              | None => None
              end
          | None => None
          end
      | None => None
      end
  end.

(** [config::config(FILE *src)] on a file in which every [fscanf] finds
    its numbers.  [None] is for the other files, where the source does not
    check and goes on with variables it has not assigned, and for the
    [assert] of line 76 failing, which is when [n_obj] is negative.  The
    numbers are read as [scan_d] and [scan_lf] read them, and [n_obj] and
    [o_type] are [int] in the source. *)
Definition config_read (src : string) : option config :=
  match scan_lf src with
  | Some (x_size, s1) =>
      match scan_lf s1 with
      | Some (y_size, s2) =>
          match scan_d (skip_space s2) with
          | Some (n_obj, s3) =>
              if (n_obj <? 0)%Z then None
              else
                match read_objects (Z.to_nat n_obj) (skip_space s3) [] with
                | Some l => Some (mk_config x_size y_size false PrimFloat.zero l None true)
                | None => None
                end
          | None => None
          end
      | None => None
      end
  | None => None
  end.

End File.

(** The number that a run of digits denotes, on top of [acc]. *)
Fixpoint digits_value (s : string) (acc : Z) : Z :=
  match s with
  | String a s' => digits_value s' (10 * acc + Z.of_nat (nat_of_ascii a - 48))%Z
  | EmptyString => acc
  end.

Section FileLines.
Context {EN : Energetics float} {OB : ObjectOps float}.
Import Stdio.
Local Open Scope string_scope.

(** One pass through the loop of the file constructor (lines 65-67): the
    object read and the text left. *)
Definition read_object (src : string) : option (object float * string) :=
  match scan_d src with
  | Some (o_type, s1) =>
      match scan_lf s1 with
      | Some (x_pos, s2) =>
          match scan_lf s2 with
          | Some (y_pos, s3) =>
              match scan_lf s3 with
              | Some (angle, s4) =>
                  Some (new_object o_type x_pos y_pos angle, skip_space s4)
              | None => None
              end
          | None => None
          end
      | None => None
      end
  | None => None
  end.

(** What [object::write] prints for the objects of a list, in order. *)
Definition object_lines (l : list (object float)) : string :=
  fold_right (fun o s => object_write o ++ s) "" l.

End FileLines.

(** ** [main]: the arguments and the run as a whole *)

(** The range of [int], 32 bits wide. *)
Definition INT_MIN : Z := -2147483648.

Definition INT_MAX : Z := 2147483647.

Definition fits_int (n : Z) : Prop := (INT_MIN <= n <= INT_MAX)%Z.

(** A character of a numeral without exponent, or white space. *)
Definition plain_char (a : ascii) : bool :=
  Stdio.is_digit a || Stdio.is_space a
  || (nat_of_ascii a =? 43)%nat || (nat_of_ascii a =? 45)%nat
  || (nat_of_ascii a =? 46)%nat.

(** A text of digits, signs, points and white space only: in it no
    exponent, no hexadecimal numeral, no [inf] and no [nan] can follow a
    numeral, and ["%lf"] reads what [Stdio.scan_lf] reads. *)
Fixpoint plain_text (s : string) : bool :=
  match s with
  | EmptyString => true
  | String a s' => plain_char a && plain_text s'
  end.

(** [atoi]: the number that the decimal numeral at the head of the string
    stands for, 0 where no number is there.  The result is an [int] in the
    source and a [Z] here: this is [atoi] on the arguments for which
    [fits_int (atoi s)] holds; outside them the result of the source is
    not this number. *)
Definition atoi (s : string) : Z :=
  match Stdio.scan_d s with
  | Some (n, _) => n
  | None => 0%Z
  end.

(** How [main] ends: [exit] or [return] with a status, having written
    [out] to the log on the standard output and [err] to the standard
    error stream, [dest] being the text of the file [final_config] if it
    has been opened; the configuration file not holding the numbers the
    constructor scans for, which the source does not provide for; or the
    fuel of a loop used up. *)
Inductive main_result : Type :=
| Main_exit (status : Z) (out : list (log_line float)) (err : string)
            (dest : option string)
| Main_no_configuration
| Main_out_of_fuel.

Section Main.
Context {EN : Energetics float} {OB : ObjectOps float} {SA : Sampler float}
        {CV : Conversions float}.
Import Stdio.
Local Open Scope string_scope.

(** [usage] *)
Definition usage : string :=
  "Usage: NVT "
    ++ "n_steps print_frequency beta pressure initial_config final_config"
    ++ newline.

(** The macro [fatal_error], the message being the format with its value
    filled in. *)
Definition fatal_error (message : string) (out : list (log_line float))
    (dest : option string) : main_result :=
  Main_exit EXIT_FAILURE out (message ++ usage) dest.

(** Lines 185-271 of [main]: from the configuration read to the end.
    [the_forces] is the value of [new force_field()]; the file
    [final_config] has been opened for writing and is empty. *)
Definition main_run (fuel : nat) (the_forces : force_field) (it_max n_print : Z)
    (beta P1 : float) (loaded : config) (g : rand_state) : main_result :=
  let a_topology := default_topology in
  let current_state := add_topology a_topology loaded in
  let '(current_state, U1) := energy the_forces current_state in
  let V1 := area current_state in
  let N1 := Z.of_nat (n_objects current_state) in
  let out := [Log_loaded N1 P1 beta V1 (of_int N1 / V1)%dbl U1] in
  let dl_max := (d_min (x_size current_state) (y_size current_state) / d_two)%dbl in
  match relief (IN := one_shot) fuel the_forces beta P1 N1 0 U1
          (current_state, dl_max, g) [] with
  | Relief_fatal i _ =>
      fatal_error
        ("Unable to adjust initial configuration in " ++ print_d i ++ " steps")
        out (Some "")
  | Relief_out_of_fuel => Main_out_of_fuel
  | Relief_done current_state' dl_max' U1' _ batches =>
      let g' :=
        (after_batches (IN := one_shot) (List.length batches) the_forces beta P1
           N1 U1 (current_state, dl_max, g)).1.2 in
      let out :=
        match batches with
        | [] => out
        | _ => (out ++ [Log_adjusted N1 P1 beta V1 (of_int N1 / V1)%dbl U1'])%list
        end in
      let step := Z.min n_print it_max in
      let the_integrator := with_dl_max (new_integrator the_forces) dl_max' in
      match mc_loop fuel the_forces beta P1 it_max 0 step
              (the_integrator, current_state', g') out [] with
      | Some (_, current_state'', _, out', _) =>
          Main_exit 0 (out' ++ [Log_done])%list "" (Some (write current_state''))
      | None => Main_out_of_fuel
      end
  end.

(** [main]: [args] are the arguments after the name of the program;
    [src1] is the text of the file [initial_config] if it can be opened
    for reading, [dest1] whether [final_config] can be opened for writing,
    [g] the state of the generator that [srand] leaves.  The two names are
    taken to be of two files: [final_config] is opened, and emptied, before
    [initial_config] is read. *)
Definition main (fuel : nat) (the_forces : force_field) (args : list string)
    (src1 : option string) (dest1 : bool) (g : rand_state) : main_result :=
  match args with
  | [a_steps; a_print; a_beta; a_pressure; a_initial; a_final] =>
      let it_max := atoi a_steps in
      if (it_max <? 1)%Z then
        fatal_error ("Too few iterations: " ++ print_d it_max ++ newline) [] None
      else
        let n_print := atoi a_print in
        let beta := atof a_beta in
        let P1 := atof a_pressure in
        match src1 with
        | None =>
            fatal_error ("Unable to open " ++ a_initial ++ " for reading" ++ newline)
                        [] None
        | Some text =>
            if dest1 then
              match config_read text with
              | Some loaded => main_run fuel the_forces it_max n_print beta P1 loaded g
              | None => Main_no_configuration
              end
            else
              fatal_error ("Unable to open " ++ a_final ++ " for writing" ++ newline)
                          [] None
        end
  | _ =>
      fatal_error
        ("Wrong number of arguments: " ++ print_d (Z.of_nat (List.length args))
           ++ " but expected 6" ++ newline) [] None
  end.

End Main.

(** ** Collaborators to run the model on

    The force field, the topology and class [object] are hard-coded in
    files that are not among the sources; these stand in for them where a
    statement is evaluated on a concrete configuration. *)

(** Modelled from the spec: the hard discs of its scenario 5, one atom of
    radius 1/2 at the centre of every object.  A pair at distance at most 1
    costs [BIG_ENERGY], any other pair nothing; an atom outside
    [[1/2, L - 1/2]] costs [BIG_ENERGY].  The force field is its
    [big_energy]. *)
Definition hard_discs {D : Type} {AD : Double D} : Energetics D := {|
  force_field := D;
  topology := unit;
  default_topology := tt;
  big_energy := fun the_force => the_force;
  interaction := fun the_force _ o1 o2 =>
    let dx := (pos_x o2 - pos_x o1)%dbl in
    let dy := (pos_y o2 - pos_y o1)%dbl in
    if (d_one <? dx * dx + dy * dy)%dbl then d_zero else the_force;
  box_energy := fun the_force _ Lx Ly o =>
    let r := (d_one / d_two)%dbl in
    if (pos_x o <? r)%dbl || (Lx - r <? pos_x o)%dbl
       || (pos_y o <? r)%dbl || (Ly - r <? pos_y o)%dbl
    then the_force else d_zero
|}.

(** A force field that makes visible which centre [config::energy] hands to
    [interaction]: the pair energy is the x coordinate of the partner as
    received. *)
Definition partner_x {D : Type} {AD : Double D} : Energetics D := {|
  force_field := unit;
  topology := unit;
  default_topology := tt;
  big_energy := fun _ => d_zero;
  interaction := fun _ _ _ o2 => pos_x o2;
  box_energy := fun _ _ _ _ _ => d_zero
|}.

Definition next_draw (g : list float) : float * list float :=
  match g with
  | u :: g' => (u, g')
  | [] => (PrimFloat.zero, [])
  end.

Definition wrap (L x : float) : float :=
  if PrimFloat.ltb x PrimFloat.zero then PrimFloat.add x L
  else if PrimFloat.ltb x L then x else PrimFloat.sub x L.

(** Modelled from the spec: class [object] of object.cpp.  The generator is
    the list of its coming draws, each in [[-1, 1]].  [move] displaces the
    centre by [dl_max] times a draw on each axis and wraps it into the box
    when periodic; [rotate] adds [theta_max / 2] times a draw and keeps the
    angle in [[0, 2 pi)]; both set [recalculate].  [distance] is the
    distance of the centres, to the closest image when periodic.  A line of
    the file is [o_type x y angle]. *)
Definition drawn_moves : ObjectOps float := {|
  rand_state := list float;
  ctor_energy := PrimFloat.zero;
  ctor_recalculate := true;
  M_2PI := 0x1.921fb54442d18p+2%float;
  distance := fun o1 o2 Lx Ly periodic =>
    let dx := PrimFloat.sub (pos_x o2) (pos_x o1) in
    let dy := PrimFloat.sub (pos_y o2) (pos_y o1) in
    let dx := if periodic then PrimFloat.add dx (image_shift Lx dx) else dx in
    let dy := if periodic then PrimFloat.add dy (image_shift Ly dy) else dy in
    PrimFloat.sqrt (PrimFloat.add (PrimFloat.mul dx dx) (PrimFloat.mul dy dy));
  object_move := fun dl_max Lx Ly periodic o g =>
    let '(u, g1) := next_draw g in
    let '(v, g2) := next_draw g1 in
    let x := PrimFloat.add (pos_x o) (PrimFloat.mul dl_max u) in
    let y := PrimFloat.add (pos_y o) (PrimFloat.mul dl_max v) in
    (mk_object (o_type o) (if periodic then wrap Lx x else x)
               (if periodic then wrap Ly y else y)
               (orientation o) (cached_energy o) true, g2);
  object_rotate := fun theta_max o g =>
    let '(u, g1) := next_draw g in
    let a := PrimFloat.add (orientation o)
               (PrimFloat.mul (PrimFloat.div theta_max PrimFloat.two) u) in
    (mk_object (o_type o) (pos_x o) (pos_y o) (wrap 0x1.921fb54442d18p+2%float a)
               (cached_energy o) true, g1);
  object_write := fun o =>
    (Stdio.print_d (o_type o) ++ " " ++ Stdio.print_f (pos_x o) ++ " "
       ++ Stdio.print_f (pos_y o) ++ " " ++ Stdio.print_f (orientation o)
       ++ Stdio.newline)%string
|}.

(** An integrator whose every trial is rejected: the configuration, the
    step and the generator come back as they went in. *)
Definition rejecting {D : Type} {EN : Energetics D} {OB : ObjectOps D}
    : Integrator D := {|
  integrator_run := fun _ dl_max state _ _ _ g => (state, dl_max, g)
|}.

(** An integrator that rejects every trial and counts it: its state is
    [dl_max] and the number of trials. *)
Definition rejecting_sampler {D : Type} {AD : Double D} {EN : Energetics D}
    {OB : ObjectOps D} : Sampler D := {|
  integrator := D * Z;
  new_integrator := fun _ => (d_one, 0%Z);
  dl_max_of := fun it => it.1;
  with_dl_max := fun it dl_max => (dl_max, it.2);
  n_good := fun _ => 0%Z;
  n_bad := fun it => it.2;
  run := fun it state _ _ n_steps g => ((it.1, (it.2 + n_steps)%Z), state, g)
|}.

(** The conversions in binary64, to run the model on: [atof] reads what
    [scan_lf] reads, so it is [atof] on decimal numerals without exponent
    only. *)
Definition binary64_conversions : Conversions float := {|
  of_int := fun n => SF2Prim (binary_normalize prec emax n 0 false);
  atof := fun s =>
    match Stdio.scan_lf s with
    | Some (x, _) => x
    | None => PrimFloat.zero
    end
|}.

(** The exact value of a binary64 number (0 for what is not finite). *)
Definition float_value (x : float) : Q :=
  match Prim2SF x with
  | S754_finite s m e =>
      let n := if s then Z.neg m else Z.pos m in
      if (0 <=? e)%Z then inject_Z (n * 2 ^ e)
      else Qmake n (Z.to_pos (2 ^ (- e)))
  | _ => 0%Q
  end.

(** The value of a binary64 number in units of 2^-1074, the smallest
    positive one (0 for what is not finite). *)
Definition scaled (x : float) : Z :=
  match Prim2SF x with
  | S754_finite s m e => ((if s then Z.neg m else Z.pos m) * 2 ^ (e + 1074))%Z
  | _ => 0%Z
  end.

(** ** What [config::energy] computes, in the words of the specification *)

Section EnergySpec.
Context {D : Type} {AD : Double D} {EN : Energetics D}.

(** The image of the partner [o2] that is handed to [interaction] when the
    energy of [o1] is evaluated. *)
Definition image_of (c : config) (o1 o2 : object D) : object D :=
  if is_periodic c
  then shift_pos o2 (image_shift (x_size c) (pos_x o2 - pos_x o1)%dbl)
                    (image_shift (y_size c) (pos_y o2 - pos_y o1)%dbl)
  else o2.

(** The partner once its coordinates have been moved back. *)
Definition put_back (c : config) (o1 o2 : object D) : object D :=
  if is_periodic c
  then unshift_pos (image_of c o1 o2)
                   (image_shift (x_size c) (pos_x o2 - pos_x o1)%dbl)
                   (image_shift (y_size c) (pos_y o2 - pos_y o1)%dbl)
  else o2.

(** The sum of the interactions of [oi], the object at position [i] of [l],
    with every other object of [l], in the order of the list. *)
Definition pair_sum (the_force : force_field) (c : config)
    (l : list (object D)) (i : nat) (oi : object D) : D :=
  fold_left
    (fun value oj =>
       (value + interaction the_force (the_topology c) oi (image_of c oi oj))%dbl)
    (delete i l) d_zero.

(** E_i: the pair sum, plus the wall term when the box is not periodic. *)
Definition object_energy (the_force : force_field) (c : config)
    (l : list (object D)) (i : nat) (oi : object D) : D :=
  if is_periodic c then pair_sum the_force c l i oi
  else (pair_sum the_force c l i oi
        + box_energy the_force (the_topology c) (x_size c) (y_size c) oi)%dbl.

(** The object list when the turn of object [i] comes in the outer loop. *)
Definition objects_at_turn (the_force : force_field) (c : config) (i : nat)
    : list (object D) :=
  (for_upto i (energy_object the_force c) (obj_list c, d_zero)).1.

(** The sum of the cached energies, in the order of the list. *)
Definition sum_cached (l : list (object D)) : D :=
  fold_left d_add (cached_energy <$> l) d_zero.

(** Two states of an object that differ at most in the centre. *)
Definition moved_only (o o' : object D) : Prop :=
  o_type o' = o_type o /\ orientation o' = orientation o /\
  cached_energy o' = cached_energy o /\ recalculate o' = recalculate o.

(** What the turn of an object at position [i] of [l] leaves at [i]. *)
Definition refreshed (the_force : force_field) (c : config)
    (l : list (object D)) (i : nat) (oi : object D) : object D :=
  if recalculate oi then set_energy oi (object_energy the_force c l i oi) else oi.

(** The list after the inner loop has passed the first [n] positions. *)
Definition settled (c : config) (o1 : object D) (i1 n : nat)
    (l : list (object D)) : list (object D) :=
  imap (fun j o => if bool_decide (j < n /\ j <> i1) then put_back c o1 o else o) l.

(** Two states of an object with the same type, centre and orientation. *)
Definition same_geometry (o o' : object D) : Prop :=
  o_type o' = o_type o /\ pos_x o' = pos_x o /\ pos_y o' = pos_y o /\
  orientation o' = orientation o.

(** A pair energy that depends on type, centre and orientation only. *)
Definition geometric (f : object D -> object D -> D) : Prop :=
  forall o1 o1' o2 o2',
    same_geometry o1 o1' -> same_geometry o2 o2' -> f o1 o2 = f o1' o2'.

End EnergySpec.

Section EnergyReads.
Context {D : Type} {AD : Double D} {EN : Energetics D}.

(** Two states of an object that agree on what [config::energy] reads of
    it: type, centre, orientation and flag, and the cached energy unless
    the object is flagged. *)
Definition same_for_energy (o o' : object D) : Prop :=
  same_geometry o o' /\ recalculate o' = recalculate o /\
  (recalculate o = false -> cached_energy o' = cached_energy o).

(** Every partner comes back to where it was: for each flagged object of
    the configuration and each other object of it, the subtractions of
    lines 165-166 undo the additions of lines 154 and 160 without
    rounding.  In a box that is not periodic nothing is added. *)
Definition restores_partners (c : config) : Prop :=
  forall i j oi oj, i <> j ->
    obj_list c !! i = Some oi -> obj_list c !! j = Some oj ->
    recalculate oi = true -> put_back c oi oj = oj.

(** The objects as the specification has them after [energy]: a flagged
    object holds its E_i, evaluated on the objects as they were on entry,
    and is not flagged any more; any other object is as it was. *)
Definition recomputed (the_force : force_field) (c : config) : list (object D) :=
  imap (fun i o => refreshed the_force c (obj_list c) i o) (obj_list c).

End EnergyReads.

Section OtherSpec.
Context {D : Type} {AD : Double D} {EN : Energetics D} {OB : ObjectOps D}.

(** Whether [invalidate_within dist index] flags the object [o] at
    position [i], [ok] being the object at [index]. *)
Definition within (c : config) (dist : D) (index : nat) (ok : object D)
    (i : nat) (o : object D) : bool :=
  bool_decide (i <> index)
  && (distance ok o (x_size c) (y_size c) (is_periodic c) <? dist)%dbl.

(** The object the copy constructor makes of [o]. *)
Definition copied (o : object D) : object D :=
  new_object (o_type o) (pos_x o) (pos_y o) (orientation o).

End OtherSpec.

(** ** Sample configurations *)

(** The hard discs in binary64. *)
Definition discs64 : Energetics float := hard_discs.

(** Two hard discs on the same spot, added with [add_object] to the
    configuration that [config::config()] makes, a 1 x 1 box with walls:
    [unchanged] is still true, both objects are flagged. *)
Definition two_on_a_spot : config (EN := discs64) :=
  (add_object (mk_object 0 0.5 0.5 0 0 true)
     (add_object (mk_object 0 0.5 0.5 0 0 true) config_default))%float.

(** Two hard discs on the same spot of a periodic 10 x 10 box, as the file
    constructor leaves them: [unchanged] is false. *)
Definition two_on_a_spot_loaded : config (EN := discs64) :=
  (mk_config 10 10 false 0
     [mk_object 0 5 5 0 0 true; mk_object 0 5 5 0 0 true] None true)%float.

(** [BIG_ENERGY] for the samples. *)
Definition big : float := 1000000%float.

(** Two objects across the seam of a periodic 10 x 10 box, as loaded. *)
Definition across_the_seam {EN : Energetics float} : config :=
  (mk_config 10 10 false 0
     [mk_object 0 9.9 5 0 0 true; mk_object 0 0.1 5 0 0 true] None true)%float.

(** Two objects in a periodic 1 x 1 box whose x coordinates are
    0.25 - 2^-55 and 0.75; the force field reports the partner's x. *)
Definition near_half_box : config (EN := partner_x (D := float)) :=
  (mk_config 1 1 false 0
     [mk_object 0 0x1.fffffffffffffp-3 0.5 0 0 true;
      mk_object 0 0.75 0.5 0 0 true] None true)%float.

(** The two discs on a spot once [energy] has run: [unchanged] is true. *)
Definition pair_after_energy : config (EN := discs64) :=
  (energy (EN := discs64) big two_on_a_spot_loaded).1.

(** One hard disc, not flagged, in a periodic 10 x 10 box. *)
Definition lone_disc : config (EN := discs64) :=
  (mk_config 10 10 true 0 [mk_object 0 5 5 0 0 false] None true)%float.

(** Two discs 1/2 apart and a third one far off, none flagged. *)
Definition three_discs : config (EN := discs64) :=
  (mk_config 10 10 true 0
     [mk_object 0 5 5 0 0 false; mk_object 0 5.5 5 0 0 false;
      mk_object 0 8 5 0 0 false] None true)%float.

(** Three hard discs on one spot, as loaded. *)
Definition three_on_a_spot : config (EN := discs64) :=
  (mk_config 10 10 false 0
     [mk_object 0 5 5 0 0 true; mk_object 0 5 5 0 0 true;
      mk_object 0 5 5 0 0 true] None true)%float.

(** The empty configuration with Lx = Ly = 10. *)
Definition empty_box {EN : Energetics float} : config :=
  (mk_config 10 10 true 0 [] None true)%float.



(** Two hard discs that overlap across the seam of a periodic 10 x 10 box,
    at x = 0.5 and x = 9.75, as loaded: each is moved by 10 and back
    without rounding when the other's turn comes. *)
Definition seam_pair : config (EN := discs64) :=
  (mk_config 10 10 false 0
     [mk_object 0 0.5 5 0 0 true; mk_object 0 9.75 5 0 0 true] None true)%float.

(** The same pair after a move of the first disc: the second is not flagged
    and holds its energy. *)
Definition seam_pair_moved : config (EN := discs64) :=
  (mk_config 10 10 false 0
     [mk_object 0 0.5 5 0 0 true; mk_object 0 9.75 5 0 1000000 false] None true)%float.

(** Two hard discs at x = 1 and x = 9 in a periodic 10 x 10 box. *)
Definition one_and_nine : config (EN := discs64) :=
  (mk_config 10 10 false 0
     [mk_object 0 1 5 0 0 true; mk_object 0 9 5 0 0 true] None true)%float.

(** The text of a configuration file: three discs on one spot. *)
Definition three_on_a_spot_text : string :=
  ("10.000000 10.000000" ++ Stdio.newline ++ "3" ++ Stdio.newline
   ++ "0 5.000000 5.000000 0.000000" ++ Stdio.newline
   ++ "0 5.000000 5.000000 0.000000" ++ Stdio.newline
   ++ "0 5.000000 5.000000 0.000000" ++ Stdio.newline)%string.

(** The text of a configuration file: a 10 x 10 box without objects. *)
Definition empty_box_text : string :=
  ("10.000000 10.000000" ++ Stdio.newline ++ "0" ++ Stdio.newline)%string.

(** ** Lemmas on the loops *)

Lemma for_upto_S {St : Type} (n : nat) (body : St -> nat -> St) (init : St) :
  for_upto (S n) body init = body (for_upto n body init) n.
Proof. unfold for_upto. rewrite seq_S, fold_left_app. reflexivity. Qed.

Lemma delete_out_of_range {A : Type} (l : list A) (i : nat) :
  length l <= i -> delete i l = l.
Proof.
  revert i. induction l as [|x l IH]; intros [|i] Hi; simpl in *; try lia; auto.
  f_equal. apply IH. lia.
Qed.

Lemma delete_snoc_lt {A : Type} (l : list A) (x : A) (i : nat) :
  i < length l -> delete i (l ++ [x]) = delete i l ++ [x].
Proof.
  revert i. induction l as [|y l IH]; intros [|i] Hi; simpl in *; try lia; auto.
  f_equal. apply IH. lia.
Qed.

Lemma delete_snoc_last {A : Type} (l : list A) (x : A) :
  delete (length l) (l ++ [x]) = l.
Proof. rewrite delete_middle. apply app_nil_r. Qed.

Section EnergyLoops.
Context {D : Type} {AD : Double D} {EN : Energetics D}.
Implicit Types (c : config) (l : list (object D)) (o : object D).
#[local] Arguments energy_object : simpl never.
#[local] Arguments energy_pair : simpl never.

Lemma energy_pair_self the_force c i l value :
  energy_pair the_force c i (l, value) i = (l, value).
Proof. unfold energy_pair. rewrite bool_decide_false; [reflexivity | tauto]. Qed.

Lemma energy_pair_other the_force c i1 i2 l value o1 o2 :
  i1 <> i2 -> l !! i1 = Some o1 -> l !! i2 = Some o2 ->
  energy_pair the_force c i1 (l, value) i2 =
  (<[i2 := put_back c o1 o2]> l,
   (value + interaction the_force (the_topology c) o1 (image_of c o1 o2))%dbl).
Proof.
  intros Hne H1 H2. unfold energy_pair, put_back, image_of.
  rewrite bool_decide_true by done. rewrite H1, H2.
  destruct (is_periodic c).
  - rewrite list_lookup_insert_ne by done. rewrite H1.
    rewrite list_lookup_insert_eq by (eapply lookup_lt_Some; eauto).
    rewrite list_insert_insert_eq. reflexivity.
  - rewrite H1, H2. rewrite list_insert_id by done. reflexivity.
Qed.

Lemma settled_lookup c o1 i1 n l j :
  settled c o1 i1 n l !! j =
  (fun o => if bool_decide (j < n /\ j <> i1) then put_back c o1 o else o) <$> l !! j.
Proof. unfold settled. apply list_lookup_imap. Qed.

Lemma settled_length c o1 i1 n l : length (settled c o1 i1 n l) = length l.
Proof. unfold settled. apply length_imap. Qed.

(** The inner loop in closed form: every partner below [n] has been
    shifted and put back, and its interaction added, in order. *)
Lemma energy_pairs_closed the_force c i1 o1 l value n :
  l !! i1 = Some o1 -> n <= length l ->
  for_upto n (energy_pair the_force c i1) (l, value) =
  (settled c o1 i1 n l,
   fold_left
     (fun v oj => (v + interaction the_force (the_topology c) o1 (image_of c o1 oj))%dbl)
     (delete i1 (take n l)) value).
Proof.
  intros H1. induction n as [|n IH]; intros Hn.
  - unfold for_upto; simpl. f_equal.
    apply list_eq; intros j. rewrite settled_lookup.
    destruct (l !! j); reflexivity.
  - rewrite for_upto_S, IH by lia.
    destruct (lookup_lt_is_Some_2 l n) as [o2 H2]; [lia|].
    rewrite (take_S_r _ _ _ H2).
    destruct (decide (i1 = n)) as [->|Hne].
    + rewrite energy_pair_self. f_equal.
      * apply list_eq; intros j. rewrite !settled_lookup.
        destruct (l !! j); simpl; [|reflexivity].
        repeat case_bool_decide; first [reflexivity | exfalso; lia].
      * replace (delete n (take n l ++ [o2])) with (take n l).
        2:{ rewrite <- (delete_snoc_last (take n l) o2) at 1.
            rewrite length_take. f_equal. lia. }
        rewrite delete_out_of_range by (rewrite length_take; lia). reflexivity.
    + rewrite (energy_pair_other _ _ _ _ _ _ o1 o2); try done.
      2:{ rewrite settled_lookup, H1. simpl.
          rewrite bool_decide_false by tauto. reflexivity. }
      2:{ rewrite settled_lookup, H2. simpl.
          rewrite bool_decide_false by lia. reflexivity. }
      f_equal.
      * apply list_eq; intros j. rewrite settled_lookup.
        destruct (decide (j = n)) as [->|Hj].
        -- rewrite list_lookup_insert_eq by (rewrite settled_length; lia).
           rewrite H2. simpl. rewrite bool_decide_true by lia. reflexivity.
        -- rewrite list_lookup_insert_ne by done. rewrite settled_lookup.
           destruct (l !! j); simpl; [|reflexivity].
           repeat case_bool_decide; first [reflexivity | exfalso; lia].
      * destruct (decide (i1 < n)).
        -- rewrite delete_snoc_lt by (rewrite length_take; lia).
           rewrite fold_left_app. reflexivity.
        -- rewrite !delete_out_of_range by (rewrite ?length_app, ?length_take; simpl; lia).
           rewrite fold_left_app. reflexivity.
Qed.

Lemma moved_only_refl o : moved_only o o.
Proof. unfold moved_only. tauto. Qed.

Lemma moved_only_trans o1 o2 o3 :
  moved_only o1 o2 -> moved_only o2 o3 -> moved_only o1 o3.
Proof. unfold moved_only. intuition congruence. Qed.

Lemma put_back_moved_only c o1 o2 : moved_only o2 (put_back c o1 o2).
Proof.
  unfold moved_only, put_back, image_of.
  destruct (is_periodic c); simpl; tauto.
Qed.

(** One turn of the outer loop in closed form. *)
Lemma energy_object_closed the_force c l saved i oi :
  l !! i = Some oi ->
  energy_object the_force c (l, saved) i =
  if recalculate oi then
    (<[i := set_energy oi (object_energy the_force c l i oi)]>
       (settled c oi i (length l) l),
     (saved + object_energy the_force c l i oi)%dbl)
  else (l, (saved + cached_energy oi)%dbl).
Proof.
  intros Hi. unfold energy_object. rewrite Hi.
  destruct (recalculate oi) eqn:Hr.
  - rewrite (energy_pairs_closed _ _ _ oi) by (auto; lia).
    rewrite take_ge by lia.
    rewrite settled_lookup, Hi. simpl.
    rewrite bool_decide_false by tauto.
    rewrite list_lookup_insert_eq
      by (rewrite settled_length; eapply lookup_lt_Some; eauto).
    unfold object_energy, pair_sum, get_energy.
    destruct (is_periodic c); reflexivity.
  - rewrite Hi. reflexivity.
Qed.

(** The effect of one turn on the list, position by position. *)
Lemma energy_object_turn the_force c l saved i oi :
  l !! i = Some oi ->
  let st := energy_object the_force c (l, saved) i in
  length st.1 = length l /\
  st.1 !! i = Some (refreshed the_force c l i oi) /\
  st.2 = (saved + cached_energy (refreshed the_force c l i oi))%dbl /\
  (forall j o, j <> i -> l !! j = Some o ->
     exists o', st.1 !! j = Some o' /\ moved_only o o').
Proof.
  intros Hi. cbv zeta. rewrite (energy_object_closed _ _ _ _ _ oi Hi).
  unfold refreshed. destruct (recalculate oi) eqn:Hr; simpl.
  - repeat split.
    + rewrite length_insert. apply settled_length.
    + apply list_lookup_insert_eq. rewrite settled_length.
      eapply lookup_lt_Some; eauto.
    + intros j o Hj Ho. rewrite list_lookup_insert_ne by done.
      rewrite settled_lookup, Ho. simpl. eexists; split; [reflexivity|].
      case_bool_decide; [apply put_back_moved_only | apply moved_only_refl].
  - repeat split; auto.
    intros j o Hj Ho. exists o. split; [done | apply moved_only_refl].
Qed.

Lemma refreshed_clean the_force c l i oi :
  recalculate (refreshed the_force c l i oi) = false.
Proof. unfold refreshed. destruct (recalculate oi) eqn:Hr; [reflexivity | exact Hr]. Qed.

Lemma fmap_take_agree {B : Type} (f : object D -> B) l l' n :
  length l' = length l ->
  (forall j o, j < n -> l !! j = Some o ->
     exists o', l' !! j = Some o' /\ f o' = f o) ->
  f <$> take n l' = f <$> take n l.
Proof.
  intros Hl H. apply list_eq; intros j. rewrite !list_lookup_fmap.
  destruct (decide (j < n)) as [Hj|Hj].
  - rewrite !lookup_take_lt by done.
    destruct (l !! j) as [o|] eqn:Ho.
    + destruct (H j o Hj Ho) as (o' & -> & Hf). simpl. congruence.
    + apply lookup_ge_None in Ho. rewrite (proj2 (lookup_ge_None l' j)) by lia.
      reflexivity.
  - rewrite !lookup_take_ge by lia. reflexivity.
Qed.

(** The invariant of the outer loop after [n] turns. *)
Lemma turns_invariant the_force c n :
  n <= length (obj_list c) ->
  let st := for_upto n (energy_object the_force c) (obj_list c, d_zero) in
  length st.1 = length (obj_list c) /\
  (forall j o0, n <= j -> obj_list c !! j = Some o0 ->
     exists o, st.1 !! j = Some o /\ moved_only o0 o) /\
  (forall j, j < n -> exists o, st.1 !! j = Some o /\ recalculate o = false) /\
  st.2 = sum_cached (take n st.1).
Proof.
  induction n as [|n IH]; intros Hn; simpl.
  - unfold for_upto; simpl. repeat split; auto.
    + intros j o0 _ Ho. exists o0. split; [done | apply moved_only_refl].
    + intros j Hj. lia.
  - destruct IH as (Hlen & Hrest & Hdone & Hsum); [lia|].
    rewrite for_upto_S.
    destruct (for_upto n (energy_object the_force c) (obj_list c, d_zero))
      as [l saved] eqn:Hst. simpl in *.
    destruct (lookup_lt_is_Some_2 (obj_list c) n) as [o0 Ho0]; [lia|].
    destruct (Hrest n o0 (le_n _) Ho0) as (oi & Hoi & Hmv).
    destruct (energy_object_turn the_force c l saved n oi Hoi)
      as (Hlen' & Hat & Hsaved & Hothers). simpl in *.
    destruct (energy_object the_force c (l, saved) n) as [l' saved'].
    simpl in *. repeat split.
    + congruence.
    + intros j oj Hj Hoj.
      destruct (Hrest j oj ltac:(lia) Hoj) as (o & Ho & Hmo).
      destruct (Hothers j o ltac:(lia) Ho) as (o' & Ho' & Hmo').
      exists o'. split; [done | eapply moved_only_trans; eauto].
    + intros j Hj. destruct (decide (j = n)) as [->|Hne].
      * eexists; split; [exact Hat | apply refreshed_clean].
      * destruct (Hdone j ltac:(lia)) as (o & Ho & Hc).
        destruct (Hothers j o Hne Ho) as (o' & Ho' & Hmo').
        exists o'. split; [done|]. destruct Hmo' as (_ & _ & _ & ->). done.
    + rewrite Hsaved, Hsum. unfold sum_cached.
      rewrite (take_S_r _ _ _ Hat), fmap_app, fold_left_app. simpl.
      f_equal. f_equal. symmetry. apply fmap_take_agree; [done|].
      intros j o Hj Ho. destruct (Hothers j o ltac:(lia) Ho) as (o' & Ho' & Hmo').
      exists o'. split; [done|]. destruct Hmo' as (_ & _ & -> & _). done.
Qed.

(** What a turn has written stays, the centre apart, through later turns. *)
Lemma turns_stable the_force c n m j o :
  n <= m -> m <= length (obj_list c) -> j < n ->
  objects_at_turn the_force c n !! j = Some o ->
  exists o', objects_at_turn the_force c m !! j = Some o' /\ moved_only o o'.
Proof.
  intros Hnm. induction Hnm as [|m Hnm IH]; intros Hm Hj Ho.
  - exists o. split; [done | apply moved_only_refl].
  - destruct IH as (o1 & Ho1 & Hmo1); [lia | done | done |].
    unfold objects_at_turn in *. rewrite for_upto_S.
    destruct (turns_invariant the_force c m ltac:(lia)) as (Hlen & _).
    destruct (for_upto m (energy_object the_force c) (obj_list c, d_zero))
      as [l saved]. simpl in *.
    destruct (lookup_lt_is_Some_2 l m) as [om Hom]; [lia|].
    destruct (energy_object_turn the_force c l saved m om Hom)
      as (_ & _ & _ & Hothers). simpl in Hothers.
    destruct (Hothers j o1 ltac:(lia) Ho1) as (o' & Ho' & Hmo').
    exists o'. split; [done | eapply moved_only_trans; eauto].
Qed.

End EnergyLoops.

(** ** What [config::energy] does *)

Section EnergyProperties.
Context {D : Type} {AD : Double D} {EN : Energetics D}.
Implicit Types (c : config) (l : list (object D)) (o : object D).

Lemma energy_changed the_force c :
  unchanged c = false ->
  energy the_force c =
  (mk_config (x_size c) (y_size c) true
     (for_upto (length (obj_list c)) (energy_object the_force c)
               (obj_list c, d_zero)).2
     (objects_at_turn the_force c (length (obj_list c)))
     (the_topology c) (is_periodic c),
   ((for_upto (length (obj_list c)) (energy_object the_force c)
              (obj_list c, d_zero)).2 / d_two)%dbl).
Proof.
  intros Hu. unfold energy, objects_at_turn. rewrite Hu. simpl.
  destruct (for_upto _ _ _) as [l saved]. reflexivity.
Qed.

Lemma energy_unchanged the_force c :
  unchanged c = true -> energy the_force c = (c, (saved_energy c / d_two)%dbl).
Proof. intros Hu. unfold energy. rewrite Hu. reflexivity. Qed.

(** What the turn of the object at position [i] has written is at [i] when
    the outer loop ends, the centre apart. *)
Lemma final_object the_force c i o :
  obj_list c !! i = Some o ->
  exists oi o',
    objects_at_turn the_force c i !! i = Some oi /\ moved_only o oi /\
    objects_at_turn the_force c (length (obj_list c)) !! i = Some o' /\
    moved_only (refreshed the_force c (objects_at_turn the_force c i) i oi) o'.
Proof.
  intros Ho.
  assert (Hi : i < length (obj_list c)) by (eapply lookup_lt_Some; eauto).
  destruct (turns_invariant the_force c i ltac:(lia)) as (Hleni & Hrest & _).
  destruct (Hrest i o (le_n _) Ho) as (oi & Hoi & Hmv).
  fold (objects_at_turn the_force c i) in *.
  assert (Hnext : objects_at_turn the_force c (S i) !! i
                  = Some (refreshed the_force c (objects_at_turn the_force c i) i oi)).
  { unfold objects_at_turn in *. rewrite for_upto_S.
    destruct (for_upto i (energy_object the_force c) (obj_list c, d_zero))
      as [l saved]. simpl in *.
    apply (energy_object_turn the_force c l saved i oi Hoi). }
  destruct (turns_stable the_force c (S i) (length (obj_list c)) i _
              ltac:(lia) (le_n _) ltac:(lia) Hnext) as (o' & Ho' & Hmo').
  exists oi, o'. auto.
Qed.

(** With [unchanged] false, turn by turn and whatever becomes of the
    centres: [energy] leaves [unchanged] true, returns half of the new
    [saved_energy], which is the sum of the cached energies of all objects
    in list order, and has cleared every [recalculate] flag.  An object that
    was not flagged keeps its cached energy.  An object that was flagged
    gets the E_i of the list as it stands when its turn comes.  Type and
    orientation of every object are as on entry. *)
Lemma energy_by_turns the_force c :
  unchanged c = false ->
  let c' := (energy the_force c).1 in
  (energy the_force c).2 = (saved_energy c' / d_two)%dbl /\
  saved_energy c' = sum_cached (obj_list c') /\
  unchanged c' = true /\
  length (obj_list c') = length (obj_list c) /\
  forall i o, obj_list c !! i = Some o ->
    exists oi o',
      objects_at_turn the_force c i !! i = Some oi /\ moved_only o oi /\
      obj_list c' !! i = Some o' /\
      recalculate o' = false /\
      o_type o' = o_type o /\ orientation o' = orientation o /\
      cached_energy o' =
        if recalculate o
        then object_energy the_force c (objects_at_turn the_force c i) i oi
        else cached_energy o.
Proof.
  intros Hu. cbv zeta. rewrite (energy_changed _ _ Hu). simpl.
  destruct (turns_invariant the_force c (length (obj_list c)) (le_n _))
    as (Hlen & _ & _ & Hsum). cbv zeta in Hlen, Hsum.
  repeat split.
  - rewrite Hsum. unfold objects_at_turn. f_equal. apply take_ge. lia.
  - exact Hlen.
  - intros i o Ho.
    destruct (final_object the_force c i o Ho) as (oi & o' & Hoi & Hmv & Ho' & Hmo').
    exists oi, o'. split; [done|]. split; [done|]. split; [done|].
    destruct Hmo' as (Ht & Ha & He & Hr). destruct Hmv as (Ht0 & Ha0 & He0 & Hr0).
    rewrite Hr, He, Ht, Ha, refreshed_clean.
    unfold refreshed. rewrite Hr0.
    destruct (recalculate o); simpl; repeat split; congruence.
Qed.

(** C7: with [unchanged] true, [energy] returns half of [saved_energy] and
    leaves the configuration as it is, caches and flags of every object
    included; a second call returns the same value from the same state, and
    [unchanged] is still true. *)
Theorem energy_idempotent the_force c :
  unchanged c = true ->
  let first := energy the_force c in
  let second := energy the_force first.1 in
  second.2 = first.2 /\
  unchanged second.1 = true /\
  second.1 = first.1 /\
  first = (c, (saved_energy c / d_two)%dbl).
Proof.
  intros Hu. cbv zeta. rewrite (energy_unchanged _ _ Hu). simpl.
  rewrite (energy_unchanged _ _ Hu). simpl. auto.
Qed.

(** After any call, a further call finds [unchanged] true: it returns the
    same value and changes nothing. *)
Lemma energy_twice the_force c :
  energy the_force (energy the_force c).1 = energy the_force c.
Proof.
  destruct (unchanged c) eqn:Hu.
  - rewrite (energy_unchanged _ _ Hu). simpl. apply energy_unchanged, Hu.
  - rewrite (energy_changed _ _ Hu). simpl. apply energy_unchanged. reflexivity.
Qed.

Lemma energy_sets_unchanged the_force c : unchanged (energy the_force c).1 = true.
Proof.
  destruct (unchanged c) eqn:Hu.
  - rewrite (energy_unchanged _ _ Hu). exact Hu.
  - rewrite (energy_changed _ _ Hu). reflexivity.
Qed.

End EnergyProperties.

(** C1 as stated fails where [unchanged] is true: on two discs on one spot,
    added to a fresh configuration and both flagged, [energy] returns 0,
    clears no flag, recomputes no cached energy and leaves [saved_energy]
    at 0, although the pair overlaps; once [unchanged] is set to false the
    same call gives [BIG_ENERGY]. *)
Lemma energy_skips_when_unchanged :
  unchanged two_on_a_spot = true /\
  recalculate <$> obj_list two_on_a_spot = [true; true] /\
  recalculate <$> obj_list (energy (EN := discs64) big two_on_a_spot).1
    = [true; true] /\
  cached_energy <$> obj_list (energy (EN := discs64) big two_on_a_spot).1
    = [0; 0]%float /\
  saved_energy (energy (EN := discs64) big two_on_a_spot).1 = 0%float /\
  (energy (EN := discs64) big two_on_a_spot).2 = 0%float /\
  (energy (EN := discs64) big (mark_changed two_on_a_spot)).2 = big /\
  cached_energy
    <$> obj_list (energy (EN := discs64) big (mark_changed two_on_a_spot)).1
    = [big; big].
Proof. vm_compute. repeat split; reflexivity. Qed.

Lemma energy_idempotent_witness :
  unchanged (energy (EN := discs64) big two_on_a_spot_loaded).1 = true /\
  (energy (EN := discs64) big
     (energy (EN := discs64) big
        (energy (EN := discs64) big two_on_a_spot_loaded).1).1).2
  = (energy (EN := discs64) big
       (energy (EN := discs64) big two_on_a_spot_loaded).1).2.
Proof.
  split; [reflexivity|].
  exact (proj1 (energy_idempotent (EN := discs64) big
                  (energy (EN := discs64) big two_on_a_spot_loaded).1 eq_refl)).
Defined.

(** ** The centres of the objects across [config::energy] *)

Section EnergyFrame.
Context {D : Type} {AD : Double D} {EN : Energetics D}.
Implicit Types (c : config) (l : list (object D)) (o : object D).
#[local] Arguments energy_object : simpl never.

Lemma put_back_not_periodic c o1 o2 : is_periodic c = false -> put_back c o1 o2 = o2.
Proof. intros H. unfold put_back. rewrite H. reflexivity. Qed.

Lemma same_geometry_refl o : same_geometry o o.
Proof. unfold same_geometry. tauto. Qed.

Lemma same_geometry_trans o1 o2 o3 :
  same_geometry o1 o2 -> same_geometry o2 o3 -> same_geometry o1 o3.
Proof. unfold same_geometry. intuition congruence. Qed.

(** Whether a partner comes back to its place depends on the two centres
    only. *)
Lemma put_back_same_geometry c o1 o1' o2 o2' :
  same_geometry o1 o1' -> same_geometry o2 o2' ->
  put_back c o1 o2 = o2 -> put_back c o1' o2' = o2'.
Proof.
  unfold same_geometry, put_back, image_of.
  intros (_ & Hx1 & Hy1 & _) (_ & Hx2 & Hy2 & _).
  destruct (is_periodic c); [|reflexivity].
  destruct o2 as [t2 x2 y2 a2 e2 f2], o2' as [t2' x2' y2' a2' e2' f2'].
  simpl in *. subst x2' y2'. rewrite Hx1, Hy1.
  unfold unshift_pos, shift_pos, set_pos_x, set_pos_y. simpl.
  intros [= Hx Hy]. rewrite Hx, Hy. reflexivity.
Qed.

Lemma restores_partners_not_periodic c :
  is_periodic c = false -> restores_partners c.
Proof. intros H i j oi oj _ _ _ _. apply put_back_not_periodic, H. Qed.

(** Where every partner comes back to its place, every turn of the outer
    loop leaves type, centre and orientation of every object as they
    were. *)
Lemma turns_keep_geometry the_force c n :
  restores_partners c ->
  n <= length (obj_list c) ->
  Forall2 same_geometry (obj_list c) (objects_at_turn the_force c n).
Proof.
  intros Hback. induction n as [|n IH]; intros Hn.
  - apply Forall2_same_length_lookup_2; [reflexivity|].
    unfold objects_at_turn, for_upto. simpl.
    intros i x y Hx Hy. assert (x = y) as -> by congruence.
    apply same_geometry_refl.
  - specialize (IH ltac:(lia)).
    destruct (turns_invariant the_force c n ltac:(lia)) as (Hlen & Hrest & _).
    unfold objects_at_turn in *. rewrite for_upto_S.
    destruct (for_upto n (energy_object the_force c) (obj_list c, d_zero))
      as [l saved]. simpl in *.
    destruct (lookup_lt_is_Some_2 (obj_list c) n) as [o0 Ho0]; [lia|].
    destruct (Hrest n o0 (le_n _) Ho0) as (on & Hon & Hmv).
    pose proof (Forall2_lookup_lr _ _ _ _ _ _ IH Ho0 Hon) as Hsame.
    rewrite (energy_object_closed _ _ _ _ _ on Hon).
    destruct (recalculate on) eqn:Hflag; simpl; [|exact IH].
    assert (Hflag0 : recalculate o0 = true)
      by (destruct Hmv as (_ & _ & _ & Hr); congruence).
    assert (Hsettled : settled c on n (length l) l = l).
    { apply list_eq; intros k. rewrite settled_lookup.
      destruct (l !! k) as [x|] eqn:Hk; simpl; [|reflexivity].
      case_bool_decide as Hc; [|reflexivity]. f_equal.
      destruct Hc as [Hk1 Hk2].
      destruct (lookup_lt_is_Some_2 (obj_list c) k) as [ok Hok]; [lia|].
      apply (put_back_same_geometry c o0 on ok x Hsame
               (Forall2_lookup_lr _ _ _ _ _ _ IH Hok Hk)).
      apply (Hback n k o0 ok); auto. }
    rewrite Hsettled.
    apply Forall2_same_length_lookup_2; [rewrite length_insert; lia|].
    intros i x y Hx Hy.
    destruct (decide (i = n)) as [->|Hne].
    + rewrite list_lookup_insert_eq in Hy by lia. injection Hy as <-.
      assert (x = o0) as -> by congruence. exact Hsame.
    + rewrite list_lookup_insert_ne in Hy by done.
      apply (Forall2_lookup_lr _ _ _ _ _ _ IH Hx Hy).
Qed.

Lemma image_of_same_geometry c o1 o1' o2 o2' :
  same_geometry o1 o1' -> same_geometry o2 o2' ->
  same_geometry (image_of c o1 o2) (image_of c o1' o2').
Proof.
  unfold same_geometry, image_of. intros (? & Hx1 & Hy1 & ?) (? & Hx2 & Hy2 & ?).
  destruct (is_periodic c); simpl; rewrite ?Hx1, ?Hy1, ?Hx2, ?Hy2; tauto.
Qed.

Lemma pair_sum_same_geometry the_force c l l' i oi oi' :
  geometric (interaction the_force (the_topology c)) ->
  Forall2 same_geometry l l' -> same_geometry oi oi' ->
  pair_sum the_force c l i oi = pair_sum the_force c l' i oi'.
Proof.
  intros Hg Hl Ho. unfold pair_sum.
  assert (Hd : Forall2 same_geometry (delete i l) (delete i l'))
    by (apply Forall2_delete, Hl).
  generalize (@d_zero D AD).
  induction Hd as [|x y k k' Hxy Hk IH]; intros v; simpl; [reflexivity|].
  rewrite (Hg oi oi' (image_of c oi x) (image_of c oi' y) Ho
             (image_of_same_geometry c _ _ _ _ Ho Hxy)).
  apply IH.
Qed.


(** [config::energy] touches no field of the configuration other than
    [saved_energy], [unchanged] and the objects; where every partner comes
    back to its place, in particular in a box that is not periodic, it
    leaves type, centre and orientation of every object as they were. *)
Lemma energy_frame the_force c :
  let c' := (energy the_force c).1 in
  x_size c' = x_size c /\ y_size c' = y_size c /\
  is_periodic c' = is_periodic c /\ the_topology c' = the_topology c /\
  length (obj_list c') = length (obj_list c) /\
  (restores_partners c ->
   Forall2 same_geometry (obj_list c) (obj_list c')).
Proof.
  cbv zeta. destruct (unchanged c) eqn:Hu.
  - rewrite (energy_unchanged _ _ Hu). simpl. repeat split; auto.
    intros _. apply Forall2_same_length_lookup_2; [reflexivity|].
    intros i x y Hx Hy. assert (x = y) as -> by congruence.
    apply same_geometry_refl.
  - rewrite (energy_changed _ _ Hu). simpl. repeat split; auto.
    + apply (turns_invariant the_force c (length (obj_list c)) (le_n _)).
    + intros Hback. apply turns_keep_geometry; auto.
Qed.

End EnergyFrame.

(** C6, at the failing input: in the periodic 10 x 10 box with centres at
    x = 9.9 and x = 0.1, whatever the force field, [energy] leaves the
    second object at x = 0.099999999999999645, below the 0.1 it had on
    entry: 0.1 + 10 is rounded, and subtracting 10 does not give 0.1 back. *)
Theorem energy_moves_partner (EN : Energetics float) (the_force : force_field) :
  pos_x <$> obj_list across_the_seam = [9.9; 0.1]%float /\
  pos_x <$> obj_list (energy the_force across_the_seam).1
    = [9.9; 0.099999999999999645]%float /\
  PrimFloat.ltb 0.099999999999999645 0.1 = true.
Proof. split; [reflexivity | split; reflexivity]. Qed.

(** ** The periodic image *)

Lemma Qabs_cases (x : Q) :
  (0 <= x /\ Qabs x == x)%Q \/ (x < 0 /\ Qabs x == - x)%Q.
Proof.
  destruct (Qlt_le_dec x 0) as [H|H].
  - right. split; [exact H|]. apply Qabs_neg. lra.
  - left. split; [exact H|]. apply Qabs_pos. exact H.
Qed.

Lemma rational_valuation : Valuation (D := Q) (fun _ => true) (fun x => x).
Proof.
  split; simpl; intros; try (split; reflexivity).
  unfold Qltb, Qlt. apply Z.ltb_lt.
Qed.

(** *** binary64: negation, [abs] and [operator<] are exact *)

Lemma digits2_pos_bounds (m : positive) :
  (2 ^ (Z.pos (digits2_pos m) - 1) <= Z.pos m < 2 ^ Z.pos (digits2_pos m))%Z.
Proof.
  induction m as [m IH|m IH|]; cbn [digits2_pos].
  - rewrite Pos2Z.inj_succ.
    replace (Z.succ (Z.pos (digits2_pos m)) - 1)%Z
      with (Z.succ (Z.pos (digits2_pos m) - 1))%Z by lia.
    rewrite !Z.pow_succ_r by lia. lia.
  - rewrite Pos2Z.inj_succ.
    replace (Z.succ (Z.pos (digits2_pos m)) - 1)%Z
      with (Z.succ (Z.pos (digits2_pos m) - 1))%Z by lia.
    rewrite !Z.pow_succ_r by lia. lia.
  - simpl. lia.
Qed.

(** A finite binary64 number has an exponent of -1074 or more and a
    mantissa of at most 53 bits, of 53 bits exactly unless the exponent is
    -1074. *)
Lemma valid_exponent (s : bool) (m : positive) (e : Z) :
  SpecFloat.valid_binary prec emax (S754_finite s m e) = true ->
  (-1074 <= e)%Z /\ (Z.pos (digits2_pos m) <= 53)%Z /\
  ((-1074 < e)%Z -> Z.pos (digits2_pos m) = 53%Z).
Proof.
  unfold SpecFloat.valid_binary, bounded, canonical_mantissa, fexp,
    SpecFloat.emin, prec, emax.
  intros H. apply andb_prop in H as [H _]. apply Z.eqb_eq in H. lia.
Qed.

Lemma float_value_scaled (x : float) :
  (float_value x == Qmake (scaled x) (Z.to_pos (2 ^ 1074)))%Q.
Proof.
  unfold float_value, scaled. pose proof (Prim2SF_valid x) as Hv.
  destruct (Prim2SF x) as [s|s| |s m e]; try reflexivity.
  apply valid_exponent in Hv as (He & _).
  set (n := if s then Z.neg m else Z.pos m).
  assert (H2 : (0 < 2 ^ 1074)%Z) by (apply Z.pow_pos_nonneg; lia).
  destruct (0 <=? e)%Z eqn:E; [apply Z.leb_le in E | apply Z.leb_gt in E].
  - unfold Qeq, inject_Z. cbn [Qnum Qden]. rewrite Z2Pos.id by exact H2.
    rewrite Z.pow_add_r by lia. lia.
  - unfold Qeq. cbn [Qnum Qden].
    assert (H3 : (0 < 2 ^ (- e))%Z) by (apply Z.pow_pos_nonneg; lia).
    rewrite !Z2Pos.id by assumption.
    replace 1074%Z with ((e + 1074) + (- e))%Z at 1 by lia.
    rewrite (Z.pow_add_r 2 (e + 1074) (- e)) by lia. lia.
Qed.

(** Of two finite binary64 numbers the one with the smaller exponent has
    the smaller magnitude: the mantissa of the other has all its 53 bits. *)
Lemma magnitude_lt (s1 s2 : bool) (m1 m2 : positive) (e1 e2 : Z) :
  SpecFloat.valid_binary prec emax (S754_finite s1 m1 e1) = true ->
  SpecFloat.valid_binary prec emax (S754_finite s2 m2 e2) = true ->
  (e1 < e2)%Z ->
  (Z.pos m1 * 2 ^ (e1 + 1074) < Z.pos m2 * 2 ^ (e2 + 1074))%Z.
Proof.
  intros H1 H2 He.
  apply valid_exponent in H1 as (He1 & Hd1 & _).
  apply valid_exponent in H2 as (He2 & _ & Hd2).
  specialize (Hd2 ltac:(lia)).
  pose proof (digits2_pos_bounds m1) as [_ Hm1].
  pose proof (digits2_pos_bounds m2) as [Hm2 _].
  rewrite Hd2 in Hm2.
  assert (Hm1' : (Z.pos m1 < 2 ^ 53)%Z).
  { eapply Z.lt_le_trans; [exact Hm1|]. apply Z.pow_le_mono_r; lia. }
  replace (e2 + 1074)%Z with ((e2 - e1 - 1) + 1 + (e1 + 1074))%Z by lia.
  rewrite (Z.pow_add_r 2 (e2 - e1 - 1 + 1) (e1 + 1074)) by lia.
  rewrite (Z.pow_add_r 2 (e2 - e1 - 1) 1) by lia.
  assert (Ha : (0 < 2 ^ (e1 + 1074))%Z) by (apply Z.pow_pos_nonneg; lia).
  assert (Hb : (1 <= 2 ^ (e2 - e1 - 1))%Z).
  { change 1%Z with (2 ^ 0)%Z. apply Z.pow_le_mono_r; lia. }
  change (2 ^ 1)%Z with 2%Z. change (53 - 1)%Z with 52%Z in Hm2.
  set (A := (2 ^ (e1 + 1074))%Z) in *. set (B := (2 ^ (e2 - e1 - 1))%Z) in *.
  assert (H53 : (2 ^ 53 = 2 * 2 ^ 52)%Z) by reflexivity.
  set (T := (2 ^ 52)%Z) in *. rewrite H53 in Hm1'. clearbody T A B.
  generalize dependent (Z.pos m1). generalize dependent (Z.pos m2).
  intros p2 Hp2 p1 _ Hp1.
  assert (p1 * A < 2 * T * A)%Z by (apply Z.mul_lt_mono_pos_r; lia).
  assert (2 * T * A * 1 <= 2 * p2 * A * B)%Z
    by (apply Z.mul_le_mono_nonneg; nia).
  lia.
Qed.

(** [operator<] on finite binary64 numbers is the order of their values. *)
Lemma ltb_scaled (x y : float) :
  Stdio.is_finite x = true -> Stdio.is_finite y = true ->
  (x <? y)%float = (scaled x <? scaled y)%Z.
Proof.
  unfold Stdio.is_finite, scaled. rewrite ltb_spec.
  pose proof (Prim2SF_valid x) as Hx. pose proof (Prim2SF_valid y) as Hy.
  destruct (Prim2SF x) as [s1|s1| |s1 m1 e1]; try discriminate;
    destruct (Prim2SF y) as [s2|s2| |s2 m2 e2]; try discriminate; intros _ _.
  - reflexivity.
  - assert (Ha : (0 < 2 ^ (e2 + 1074))%Z)
      by (apply Z.pow_pos_nonneg; [lia | apply valid_exponent in Hy; lia]).
    unfold SFltb, SFcompare. symmetry.
    destruct s2; [apply Z.ltb_ge | apply Z.ltb_lt]; nia.
  - assert (Ha : (0 < 2 ^ (e1 + 1074))%Z)
      by (apply Z.pow_pos_nonneg; [lia | apply valid_exponent in Hx; lia]).
    unfold SFltb, SFcompare. symmetry.
    destruct s1; [apply Z.ltb_lt | apply Z.ltb_ge]; nia.
  - assert (Ha : (0 < 2 ^ (e1 + 1074))%Z)
      by (apply Z.pow_pos_nonneg; [lia | apply valid_exponent in Hx; lia]).
    assert (Hb : (0 < 2 ^ (e2 + 1074))%Z)
      by (apply Z.pow_pos_nonneg; [lia | apply valid_exponent in Hy; lia]).
    pose proof (magnitude_lt s1 s2 m1 m2 e1 e2 Hx Hy) as H12.
    pose proof (magnitude_lt s2 s1 m2 m1 e2 e1 Hy Hx) as H21.
    assert (Hsame : e1 = e2 ->
              (Pos.compare m1 m2 = Lt
               <-> Z.pos m1 * 2 ^ (e1 + 1074) < Z.pos m2 * 2 ^ (e2 + 1074))%Z /\
              (Pos.compare m1 m2 = Gt
               <-> Z.pos m2 * 2 ^ (e2 + 1074) < Z.pos m1 * 2 ^ (e1 + 1074))%Z).
    { intros ->. rewrite Pos.compare_lt_iff, Pos.compare_gt_iff.
      split; (split; [intros H; apply Z.mul_lt_mono_pos_r; [exact Hb | lia]
                     | intros H; apply Z.mul_lt_mono_pos_r in H; [lia | exact Hb]]). }
    rewrite <- !Pos2Z.opp_pos.
    unfold SFltb, SFcompare. rewrite Pos.compare_cont_spec. unfold Pos.switch_Eq.
    set (P1 := (Z.pos m1 * 2 ^ (e1 + 1074))%Z) in *.
    set (P2 := (Z.pos m2 * 2 ^ (e2 + 1074))%Z) in *.
    replace (- Z.pos m1 * 2 ^ (e1 + 1074))%Z with (- P1)%Z by (unfold P1; ring).
    replace (- Z.pos m2 * 2 ^ (e2 + 1074))%Z with (- P2)%Z by (unfold P2; ring).
    assert (HP1 : (0 < P1)%Z) by (unfold P1; nia).
    assert (HP2 : (0 < P2)%Z) by (unfold P2; nia).
    symmetry.
    destruct s1, s2.
    + destruct (Z.compare_spec e1 e2) as [He|He|He].
      * destruct (Hsame He) as [HL HG].
        destruct (Pos.compare m1 m2) eqn:Hc; cbn [CompOpp].
        -- apply Z.ltb_ge.
           assert (~ (P2 < P1)%Z) by (intros H; apply HG in H; discriminate).
           lia.
        -- apply Z.ltb_ge. pose proof (proj1 HL eq_refl). lia.
        -- apply Z.ltb_lt. pose proof (proj1 HG eq_refl). lia.
      * apply Z.ltb_ge. specialize (H12 He). lia.
      * apply Z.ltb_lt. specialize (H21 He). lia.
    + apply Z.ltb_lt. lia.
    + apply Z.ltb_ge. lia.
    + destruct (Z.compare_spec e1 e2) as [He|He|He].
      * destruct (Hsame He) as [HL HG].
        destruct (Pos.compare m1 m2) eqn:Hc.
        -- apply Z.ltb_ge.
           assert (~ (P1 < P2)%Z) by (intros H; apply HL in H; discriminate).
           lia.
        -- apply Z.ltb_lt. apply HL. reflexivity.
        -- apply Z.ltb_ge. pose proof (proj1 HG eq_refl). lia.
      * apply Z.ltb_lt. specialize (H12 He). lia.
      * apply Z.ltb_ge. specialize (H21 He). lia.
Qed.

Lemma float_value_lt (x y : float) :
  Stdio.is_finite x = true -> Stdio.is_finite y = true ->
  (x <? y)%float = true <-> (float_value x < float_value y)%Q.
Proof.
  intros Hx Hy. rewrite (ltb_scaled x y Hx Hy).
  rewrite (float_value_scaled x), (float_value_scaled y).
  unfold Qlt. cbn [Qnum Qden]. rewrite Z.ltb_lt.
  assert (H2 : (0 < Z.pos (Z.to_pos (2 ^ 1074)))%Z) by lia.
  split; intros H; [apply Z.mul_lt_mono_pos_r | apply Z.mul_lt_mono_pos_r in H];
    assumption.
Qed.

Lemma float_value_opp (x : float) :
  Stdio.is_finite (- x)%float = Stdio.is_finite x /\
  (float_value (- x)%float == - float_value x)%Q.
Proof.
  unfold Stdio.is_finite, float_value. rewrite opp_spec.
  destruct (Prim2SF x) as [s|s| |s m e]; cbn [SFopp]; try (split; reflexivity).
  split; [reflexivity|].
  destruct (0 <=? e)%Z; destruct s; unfold Qeq;
    cbn [negb Qnum Qden Qopp inject_Z]; lia.
Qed.

Lemma float_value_abs (x : float) :
  Stdio.is_finite (abs x) = Stdio.is_finite x /\
  (float_value (abs x) == Qabs (float_value x))%Q.
Proof.
  unfold Stdio.is_finite, float_value. rewrite abs_spec.
  destruct (Prim2SF x) as [s|s| |s m e]; cbn [SFabs]; try (split; reflexivity).
  split; [reflexivity|].
  destruct (0 <=? e)%Z eqn:E; destruct s; unfold Qeq;
    cbn [Qnum Qden Qabs inject_Z]; try reflexivity.
  - apply Z.leb_le in E.
    assert (0 < 2 ^ e)%Z by (apply Z.pow_pos_nonneg; lia).
    rewrite Z.abs_neq by nia. lia.
  - apply Z.leb_le in E.
    assert (0 < 2 ^ e)%Z by (apply Z.pow_pos_nonneg; lia).
    rewrite Z.abs_eq by nia. lia.
Qed.

(** The finite binary64 numbers with their exact values: what the program
    computes with. *)
Lemma binary64_valuation : Valuation (D := float) Stdio.is_finite float_value.
Proof.
  split.
  - split; reflexivity.
  - intros x Hx. destruct (float_value_opp x) as [Hf Hv].
    split; [simpl; rewrite Hf; exact Hx | exact Hv].
  - intros x Hx. destruct (float_value_abs x) as [Hf Hv].
    split; [simpl; rewrite Hf; exact Hx | exact Hv].
  - intros x y Hx Hy. apply float_value_lt; assumption.
Qed.

Section Image.
Context {D : Type} {AD : Double D}.

Lemma image_shift_values (size r : D) :
  image_shift size r = size \/ image_shift size r = (- size)%dbl \/
  image_shift size r = d_zero.
Proof.
  unfold image_shift.
  destruct (r <? d_zero)%dbl;
    match goal with |- context [if ?b then _ else _] => destruct b end; auto.
Qed.

Lemma image_shift_reduces (size r : D) :
  image_shift size r <> d_zero ->
  (d_abs (r + image_shift size r) <? d_abs r)%dbl = true /\
  image_shift size r = if (r <? d_zero)%dbl then size else (- size)%dbl.
Proof.
  unfold image_shift. intros H.
  destruct (d_abs (r + (if (r <? d_zero)%dbl then size else (- size)%dbl))
            <? d_abs r)%dbl eqn:E; [|congruence].
  rewrite E. auto.
Qed.

Variable number : D -> bool.
Variable val : D -> Q.
Hypothesis numbers : Valuation number val.

Lemma val_ltb_false (x y : D) :
  number x = true -> number y = true ->
  (x <? y)%dbl = false -> (val y <= val x)%Q.
Proof.
  intros Hx Hy H. apply Qnot_lt_le. intros Hlt.
  apply (val_ltb number val numbers x y Hx Hy) in Hlt. congruence.
Qed.

(** Where the difference of the two coordinates, its sum with the
    candidate shift and the shifted coordinate are computed without
    rounding, and both coordinates lie in [[0, L)], the shift that
    [config::energy] picks brings the partner at least as close as each of
    the shifts [-L], [0] and [+L]. *)
Lemma image_shift_closest (L x1 x2 : D) (s : Q) :
  number L = true ->
  exactly number val (x2 - x1)%dbl (val x2 - val x1) ->
  exactly number val
    (x2 - x1 + (if (x2 - x1 <? d_zero)%dbl then L else (- L)%dbl))%dbl
    (val (x2 - x1)%dbl
     + val (if (x2 - x1 <? d_zero)%dbl then L else (- L)%dbl)) ->
  exactly number val (x2 + image_shift L (x2 - x1))%dbl
    (val x2 + val (image_shift L (x2 - x1)%dbl)) ->
  (0 <= val x1 < val L)%Q -> (0 <= val x2 < val L)%Q ->
  (s == val L \/ s == 0 \/ s == - val L)%Q ->
  (Qabs (val (x2 + image_shift L (x2 - x1))%dbl - val x1)
   <= Qabs (val x2 + s - val x1))%Q.
Proof.
  intros HL [Hnr Hr] [Hnt Ht] [_ Hi] H1 H2 Hs. unfold image_shift in *.
  destruct (val_zero number val numbers) as [Hn0 H0].
  destruct (val_opp number val numbers L HL) as [HnoL HoL].
  generalize dependent (x2 - x1)%dbl. intros r Hnr Hr Hnt Ht Hi.
  destruct (val_abs number val numbers r Hnr) as [Hnar Har].
  destruct (val_abs number val numbers _ Hnt) as [Hnat Hat].
  destruct (Qabs_cases (val r)) as [[? ?]|[? ?]];
    (destruct (r <? d_zero)%dbl eqn:Er;
     [apply (val_ltb number val numbers r d_zero Hnr Hn0) in Er
     | apply (val_ltb_false r d_zero Hnr Hn0) in Er]);
    match goal with
    | |- context [if (d_abs (r + ?d) <? d_abs r)%dbl then _ else _] =>
        destruct (Qabs_cases (val (r + d)%dbl)) as [[? ?]|[? ?]];
        (destruct (d_abs (r + d) <? d_abs r)%dbl eqn:Ec;
         [apply (val_ltb number val numbers _ _ Hnat Hnar) in Ec
         | apply (val_ltb_false _ _ Hnat Hnar) in Ec])
    end;
    match goal with
    | |- (Qabs ?e <= Qabs ?f)%Q =>
        destruct (Qabs_cases e) as [[? ?]|[? ?]];
        destruct (Qabs_cases f) as [[? ?]|[? ?]]
    end;
    destruct Hs as [Hs|[Hs|Hs]]; lra.
Qed.

End Image.

(** In exact arithmetic nothing rounds: with both coordinates in [[0, L)]
    the shift picked is always one that brings the partner closest. *)
Lemma image_shift_closest_exact (L x1 x2 s : Q) :
  (0 <= x1 < L)%Q -> (0 <= x2 < L)%Q ->
  (s == L \/ s == 0 \/ s == - L)%Q ->
  (Qabs (x2 + image_shift L (x2 - x1) - x1) <= Qabs (x2 + s - x1))%Q.
Proof.
  intros H1 H2 Hs.
  apply (image_shift_closest (D := Q) (fun _ => true) (fun x => x)
           rational_valuation L x1 x2 s);
    try (split; reflexivity); auto.
Qed.

Section ImageProperty.
Context {D : Type} {AD : Double D} {EN : Energetics D}.
Implicit Types (c : config) (l : list (object D)) (o : object D).

(** C3, amended: in periodic mode the inner loop of [config::energy]
    evaluates the pair (i1, i2) on the partner with its centre shifted by
    [dx] and [dy], type and orientation as they are (a rigid body: atom
    offsets are not imaged on their own).  Along an axis the candidate
    shift is the one towards the object, [+L] when the partner's
    coordinate minus the object's is computed as negative and [-L]
    otherwise; the shift is the candidate when the separation computed
    with it is strictly smaller than the one computed without, and 0 when
    it is not.  For doubles that are numbers: where that difference, its
    sum with the candidate and the shifted coordinate are computed without
    rounding and both centres lie in [[0, L)], the shifted centre is at
    least as close to the object's, along that axis, as with each of the
    shifts [-L], [0] and [+L]. *)
Theorem energy_pair_image the_force c i1 i2 l value o1 o2 :
  is_periodic c = true -> i1 <> i2 -> l !! i1 = Some o1 -> l !! i2 = Some o2 ->
  let rx := (pos_x o2 - pos_x o1)%dbl in
  let ry := (pos_y o2 - pos_y o1)%dbl in
  let tx := if (rx <? d_zero)%dbl then x_size c else (- x_size c)%dbl in
  let ty := if (ry <? d_zero)%dbl then y_size c else (- y_size c)%dbl in
  let dx := if (d_abs (rx + tx) <? d_abs rx)%dbl then tx else d_zero in
  let dy := if (d_abs (ry + ty) <? d_abs ry)%dbl then ty else d_zero in
  let image :=
    mk_object (o_type o2) (pos_x o2 + dx)%dbl (pos_y o2 + dy)%dbl
              (orientation o2) (cached_energy o2) (recalculate o2) in
  (energy_pair the_force c i1 (l, value) i2).2 =
    (value + interaction the_force (the_topology c) o1 image)%dbl /\
  (dx = x_size c \/ dx = (- x_size c)%dbl \/ dx = d_zero) /\
  (dy = y_size c \/ dy = (- y_size c)%dbl \/ dy = d_zero) /\
  forall (number : D -> bool) (val : D -> Q), Valuation number val ->
    (number (x_size c) = true ->
     exactly number val rx (val (pos_x o2) - val (pos_x o1)) ->
     exactly number val (rx + tx)%dbl (val rx + val tx) ->
     exactly number val (pos_x image) (val (pos_x o2) + val dx) ->
     (0 <= val (pos_x o1) < val (x_size c))%Q ->
     (0 <= val (pos_x o2) < val (x_size c))%Q ->
     forall s, (s == val (x_size c) \/ s == 0 \/ s == - val (x_size c))%Q ->
       (Qabs (val (pos_x image) - val (pos_x o1))
        <= Qabs (val (pos_x o2) + s - val (pos_x o1)))%Q) /\
    (number (y_size c) = true ->
     exactly number val ry (val (pos_y o2) - val (pos_y o1)) ->
     exactly number val (ry + ty)%dbl (val ry + val ty) ->
     exactly number val (pos_y image) (val (pos_y o2) + val dy) ->
     (0 <= val (pos_y o1) < val (y_size c))%Q ->
     (0 <= val (pos_y o2) < val (y_size c))%Q ->
     forall s, (s == val (y_size c) \/ s == 0 \/ s == - val (y_size c))%Q ->
       (Qabs (val (pos_y image) - val (pos_y o1))
        <= Qabs (val (pos_y o2) + s - val (pos_y o1)))%Q).
Proof.
  intros Hp Hne H1 H2. cbv zeta.
  split.
  { rewrite (energy_pair_other _ _ _ _ _ _ o1 o2) by done.
    unfold image_of. rewrite Hp. reflexivity. }
  split; [apply (image_shift_values (x_size c))|].
  split; [apply (image_shift_values (y_size c))|].
  intros number val Hval. split; intros HL Hr Ht Hi Hx1 Hx2 s Hs.
  - exact (image_shift_closest number val Hval (x_size c) (pos_x o1) (pos_x o2) s
             HL Hr Ht Hi Hx1 Hx2 Hs).
  - exact (image_shift_closest number val Hval (y_size c) (pos_y o1) (pos_y o2) s
             HL Hr Ht Hi Hx1 Hx2 Hs).
Qed.

End ImageProperty.

(** C3 as stated fails in binary64: with L = 1 and centres at
    x = 0.25 - 2^-55 and x = 0.75 the difference rounds to 0.5, no shift is
    made, and [interaction] receives the partner at 0.75 (the cached energy
    of the first object, with the force field that reports the partner's
    x), although the image at 0.75 - 1 is strictly closer to the first
    centre. *)
Lemma image_not_closest_in_binary64 :
  cached_energy <$> obj_list (energy (EN := partner_x) tt near_half_box).1
    = [0.75; 0x1.fffffffffffffp-3]%float /\
  (Qabs (float_value 0.75%float - 1 - float_value 0x1.fffffffffffffp-3%float)
   < Qabs (float_value 0.75%float + 0 - float_value 0x1.fffffffffffffp-3%float))%Q.
Proof. split; [reflexivity | vm_compute; reflexivity]. Qed.

Lemma energy_pair_image_witness :
  is_periodic one_and_nine = true /\
  obj_list one_and_nine !! 0%nat = Some (mk_object 0 1 5 0 0 true)%float /\
  obj_list one_and_nine !! 1%nat = Some (mk_object 0 9 5 0 0 true)%float /\
  (9 + (-10))%float = (-1)%float /\
  (Qabs (float_value (9 + (-10))%float - float_value 1%float)
   <= Qabs (float_value 9%float + 0 - float_value 1%float))%Q.
Proof.
  split; [reflexivity|]. split; [reflexivity|]. split; [reflexivity|].
  split; [reflexivity|].
  refine (proj1 (proj2 (proj2 (proj2
    (energy_pair_image (EN := discs64) big one_and_nine
       0%nat 1%nat (obj_list one_and_nine) 0%float
       (mk_object 0 1 5 0 0 true)%float (mk_object 0 9 5 0 0 true)%float
       eq_refl _ eq_refl eq_refl))) Stdio.is_finite float_value binary64_valuation)
    eq_refl _ _ _ _ _ 0%Q _).
  - intros H; discriminate H.
  - split; [reflexivity | vm_compute; reflexivity].
  - split; [reflexivity | vm_compute; reflexivity].
  - split; [reflexivity | vm_compute; reflexivity].
  - split; vm_compute; [discriminate | reflexivity].
  - split; vm_compute; [discriminate | reflexivity].
  - right; left; reflexivity.
Defined.

(** ** Moves, rotations, expansion and the flags *)

Section Flags.
Context {D : Type} {AD : Double D} {EN : Energetics D} {OB : ObjectOps D}.
Implicit Types (c : config) (l : list (object D)) (o : object D).

Lemma expand_objects dl l n :
  n <= length l ->
  for_upto n
    (fun l i =>
       let l1 := alter (fun o => set_recalculate o true) i l in
       alter (fun o => object_expand o dl) i l1) l
  = ((fun o => object_expand (set_recalculate o true) dl) <$> take n l) ++ drop n l.
Proof.
  induction n as [|n IH]; intros Hn.
  - unfold for_upto; simpl. rewrite drop_0. reflexivity.
  - rewrite for_upto_S, IH by lia. cbv zeta.
    destruct (lookup_lt_is_Some_2 l n) as [o Ho]; [lia|].
    rewrite (take_S_r _ _ _ Ho), fmap_app. simpl.
    rewrite (drop_S _ _ _ Ho).
    apply list_eq; intros j.
    assert (Hlt : length ((fun o => object_expand (set_recalculate o true) dl)
                            <$> take n l) = n)
      by (rewrite length_fmap, length_take; lia).
    destruct (decide (j = n)) as [->|Hj].
    + rewrite list_lookup_alter_eq, list_lookup_alter_eq.
      rewrite <- app_assoc. simpl.
      rewrite !lookup_app_r by lia. rewrite Hlt, Nat.sub_diag. reflexivity.
    + rewrite !list_lookup_alter_ne by done.
      rewrite <- app_assoc. simpl.
      destruct (decide (j < n)) as [Hlt'|Hge].
      * rewrite !lookup_app_l by lia. reflexivity.
      * rewrite !lookup_app_r by lia. rewrite Hlt.
        destruct (j - n) as [|m] eqn:Hm; [lia | reflexivity].
Qed.

Lemma expand_obj_list dl c :
  obj_list (expand dl c)
  = (fun o => object_expand (set_recalculate o true) dl) <$> obj_list c.
Proof.
  unfold expand. simpl. rewrite expand_objects by lia.
  rewrite take_ge, drop_ge by lia. apply app_nil_r.
Qed.

(** C2, amended: [expand] clears [unchanged] and flags every object.
    [move] and [rotate] only call the members of the object at [k]: that
    object becomes what [object::move] then [object::rotate(M_2PI)], or
    [object::rotate], return, so it is flagged if [object::rotate] flags
    its object; every other object and every other field of the
    configuration, [unchanged] included, stay as they are.  After [energy],
    [unchanged] is true. *)
Theorem moves_keep_unchanged_flag c k dl_max theta_max dl g the_force :
  k < n_objects c ->
  (unchanged (expand dl c) = false /\
   forall j o, obj_list (expand dl c) !! j = Some o -> recalculate o = true) /\
  (exists c1 g1 ok,
     move k dl_max c g = Some (c1, g1) /\ unchanged c1 = unchanged c /\
     saved_energy c1 = saved_energy c /\ x_size c1 = x_size c /\
     y_size c1 = y_size c /\ is_periodic c1 = is_periodic c /\
     the_topology c1 = the_topology c /\
     obj_list c !! k = Some ok /\
     obj_list c1 =
       <[k := (object_rotate M_2PI
                 (object_move dl_max (x_size c) (y_size c) (is_periodic c) ok g).1
                 (object_move dl_max (x_size c) (y_size c) (is_periodic c) ok g).2).1]>
         (obj_list c)) /\
  (exists c2 g2 ok,
     rotate k theta_max c g = Some (c2, g2) /\ unchanged c2 = unchanged c /\
     saved_energy c2 = saved_energy c /\ x_size c2 = x_size c /\
     y_size c2 = y_size c /\ is_periodic c2 = is_periodic c /\
     the_topology c2 = the_topology c /\
     obj_list c !! k = Some ok /\
     obj_list c2 = <[k := (object_rotate theta_max ok g).1]> (obj_list c)) /\
  ((forall theta o g', recalculate (object_rotate theta o g').1 = true) ->
   (forall c1 g1, move k dl_max c g = Some (c1, g1) ->
      exists o, obj_list c1 !! k = Some o /\ recalculate o = true) /\
   (forall c2 g2, rotate k theta_max c g = Some (c2, g2) ->
      exists o, obj_list c2 !! k = Some o /\ recalculate o = true)) /\
  unchanged (energy the_force (expand dl c)).1 = true /\
  (forall c1 g1, move k dl_max c g = Some (c1, g1) ->
     unchanged (energy the_force c1).1 = true) /\
  (forall c2 g2, rotate k theta_max c g = Some (c2, g2) ->
     unchanged (energy the_force c2).1 = true).
Proof.
  intros Hk. unfold n_objects in Hk.
  destruct (lookup_lt_is_Some_2 (obj_list c) k Hk) as [ok Hok].
  split; [split; [reflexivity|]|].
  { intros j o. rewrite expand_obj_list, list_lookup_fmap.
    destruct (obj_list c !! j); simpl; [|discriminate].
    intros [= <-]. reflexivity. }
  split.
  { unfold move. rewrite Hok.
    destruct (object_move dl_max (x_size c) (y_size c) (is_periodic c) ok g)
      as [o1 g1] eqn:Hm.
    rewrite list_lookup_insert_eq by lia.
    destruct (object_rotate M_2PI o1 g1) as [o2 g2] eqn:Hr.
    exists (with_objects c (<[k := o2]> (<[k := o1]> (obj_list c)))), g2, ok.
    rewrite Hm. simpl. rewrite Hr. simpl. rewrite list_insert_insert_eq.
    repeat split; auto. }
  split.
  { unfold rotate. rewrite Hok.
    destruct (object_rotate theta_max ok g) as [o1 g1] eqn:Hr.
    exists (with_objects c (<[k := o1]> (obj_list c))), g1, ok.
    rewrite Hr. simpl. repeat split; auto. }
  split.
  { intros Hflag. split.
    - intros c1 g1. unfold move. rewrite Hok.
      destruct (object_move dl_max (x_size c) (y_size c) (is_periodic c) ok g)
        as [o1 g1'] eqn:Hm.
      rewrite list_lookup_insert_eq by lia.
      destruct (object_rotate M_2PI o1 g1') as [o2 g2] eqn:Hr.
      intros [= <- <-]. simpl.
      rewrite list_lookup_insert_eq by (rewrite length_insert; lia).
      exists o2. split; [reflexivity|].
      specialize (Hflag M_2PI o1 g1'). rewrite Hr in Hflag. exact Hflag.
    - intros c2 g2. unfold rotate. rewrite Hok.
      destruct (object_rotate theta_max ok g) as [o1 g1'] eqn:Hr.
      intros [= <- <-]. simpl.
      rewrite list_lookup_insert_eq by lia.
      exists o1. split; [reflexivity|].
      specialize (Hflag theta_max ok g). rewrite Hr in Hflag. exact Hflag. }
  repeat split; intros; apply energy_sets_unchanged.
Qed.

End Flags.

(** C2 as stated fails for [move] and [rotate]: on a configuration whose
    [unchanged] flag is true they leave it true, and the [energy] call that
    follows returns the old value, here [BIG_ENERGY] for two discs that the
    move has taken 2 apart on each axis. *)
Lemma move_leaves_unchanged_true :
  unchanged pair_after_energy = true /\
  (fun r => unchanged r.1)
    <$> move (OB := drawn_moves) 0 4%float pair_after_energy [0.5; 0.5; 0.25]%float
    = Some true /\
  (fun r => unchanged r.1)
    <$> rotate (OB := drawn_moves) 0 1%float pair_after_energy [0.5]%float
    = Some true /\
  (fun r => pos_x <$> obj_list r.1)
    <$> move (OB := drawn_moves) 0 4%float pair_after_energy [0.5; 0.5; 0.25]%float
    = Some [7; 5]%float /\
  (fun r => (energy (EN := discs64) big r.1).2)
    <$> move (OB := drawn_moves) 0 4%float pair_after_energy [0.5; 0.5; 0.25]%float
    = Some big.
Proof. repeat split; reflexivity. Qed.

Lemma moves_keep_unchanged_flag_witness :
  0 < n_objects pair_after_energy /\
  unchanged (expand 2%float pair_after_energy) = false.
Proof.
  assert (H : 0 < n_objects pair_after_energy) by (vm_compute; lia).
  split; [exact H|].
  exact (proj1 (proj1 (moves_keep_unchanged_flag (OB := drawn_moves)
           pair_after_energy 0 4%float 1%float 2%float [0.5; 0.5; 0.25]%float
           big H))).
Defined.

(** ** [config::invalidate_within] *)

Section Invalidate.
Context {D : Type} {AD : Double D} {EN : Energetics D} {OB : ObjectOps D}.
Implicit Types (c : config) (l : list (object D)) (o : object D).

Lemma invalidate_loop c dist index ok l n :
  l !! index = Some ok -> n <= length l ->
  for_upto n
    (fun l i =>
       if bool_decide (i <> index) then
         match l !! index, l !! i with
         | Some obj1, Some obj2 =>
             if (distance obj1 obj2 (x_size c) (y_size c) (is_periodic c) <? dist)%dbl
             then <[i := set_recalculate obj2 true]> l
             else l
         | _, _ => l
         end
       else l) l
  = imap (fun i o => if bool_decide (i < n) && within c dist index ok i o
                     then set_recalculate o true else o) l.
Proof.
  intros Hk. induction n as [|n IH]; intros Hn.
  - unfold for_upto; simpl. apply list_eq; intros j. rewrite list_lookup_imap.
    destruct (l !! j); reflexivity.
  - rewrite for_upto_S, IH by lia.
    destruct (lookup_lt_is_Some_2 l n) as [o Ho]; [lia|].
    rewrite !list_lookup_imap, Hk, Ho. simpl.
    assert (Hkk : within c dist index ok index ok = false)
      by (unfold within; rewrite bool_decide_false by tauto; reflexivity).
    rewrite Hkk, andb_false_r.
    rewrite (bool_decide_false (n < n)) by lia. simpl.
    apply list_eq; intros j. rewrite list_lookup_imap.
    case_bool_decide as Hne; simpl.
    + destruct (distance ok o (x_size c) (y_size c) (is_periodic c) <? dist)%dbl
        eqn:Hd.
      * destruct (decide (j = n)) as [->|Hj].
        -- rewrite list_lookup_insert_eq by (rewrite length_imap; lia).
           rewrite Ho. simpl. unfold within.
           rewrite !bool_decide_true by (done || lia). simpl. rewrite Hd.
           reflexivity.
        -- rewrite list_lookup_insert_ne by done. rewrite list_lookup_imap.
           destruct (l !! j); simpl; [|reflexivity].
           rewrite (bool_decide_ext (j < n) (j < S n)) by lia. reflexivity.
      * rewrite list_lookup_imap.
        destruct (l !! j) as [oj|] eqn:Hoj; simpl; [|reflexivity].
        destruct (decide (j = n)) as [->|Hj].
        -- assert (oj = o) as -> by congruence. unfold within.
           rewrite Hd, andb_false_r, !andb_false_r. reflexivity.
        -- rewrite (bool_decide_ext (j < n) (j < S n)) by lia. reflexivity.
    + assert (n = index) as -> by (destruct (decide (n = index)); tauto).
      rewrite list_lookup_imap.
      destruct (l !! j) as [oj|] eqn:Hoj; simpl; [|reflexivity].
      destruct (decide (j = index)) as [->|Hj].
      * assert (oj = ok) as -> by congruence.
        rewrite Hkk, !andb_false_r. reflexivity.
      * rewrite (bool_decide_ext (j < index) (j < S index)) by lia. reflexivity.
Qed.

(** C8, amended: [invalidate_within dist index] sets [recalculate] on
    every object other than the one at [index] whose [distance] from it,
    as [object::distance] gives it for the box and its periodicity, is
    strictly less than [dist]; every other flag, every other field of
    every object and every field of the configuration stay as they are. *)
Theorem invalidate_within_flags dist index c ok :
  obj_list c !! index = Some ok ->
  exists c',
    invalidate_within dist index c = Some c' /\
    x_size c' = x_size c /\ y_size c' = y_size c /\
    unchanged c' = unchanged c /\ saved_energy c' = saved_energy c /\
    the_topology c' = the_topology c /\ is_periodic c' = is_periodic c /\
    length (obj_list c') = length (obj_list c) /\
    forall i o, obj_list c !! i = Some o ->
      exists o',
        obj_list c' !! i = Some o' /\
        o_type o' = o_type o /\ pos_x o' = pos_x o /\ pos_y o' = pos_y o /\
        orientation o' = orientation o /\ cached_energy o' = cached_energy o /\
        recalculate o' = recalculate o || within c dist index ok i o.
Proof.
  intros Hk. unfold invalidate_within. rewrite Hk.
  eexists. split; [reflexivity|]. simpl.
  unfold n_objects. rewrite (invalidate_loop c dist index ok) by (auto; lia).
  repeat split; auto.
  - apply length_imap.
  - intros i o Ho. rewrite list_lookup_imap, Ho. simpl.
    rewrite bool_decide_true by (eapply lookup_lt_Some; eauto). simpl.
    eexists; split; [reflexivity|].
    destruct (within c dist index ok i o); simpl;
      rewrite ?orb_true_r, ?orb_false_r; repeat split; reflexivity.
Qed.

End Invalidate.

(** C8 as stated fails for the object at [index] itself: its distance from
    itself is 0, within 1, and its flag is not set. *)
Lemma invalidate_within_skips_index :
  (fun o => PrimFloat.ltb
              (distance (ObjectOps := drawn_moves) o o 10%float 10%float true)
              1%float)
    <$> obj_list lone_disc !! 0%nat = Some true /\
  (fun c' => recalculate <$> obj_list c')
    <$> invalidate_within (OB := drawn_moves) 1%float 0 lone_disc
    = Some [false].
Proof. split; reflexivity. Qed.

Example invalidate_within_three_discs :
  (fun c' => recalculate <$> obj_list c')
    <$> invalidate_within (OB := drawn_moves) 1%float 0 three_discs
    = Some [false; true; false].
Proof. reflexivity. Qed.

Lemma invalidate_within_flags_witness :
  obj_list three_discs !! 0%nat = Some (mk_object 0 5 5 0 0 false)%float /\
  exists c',
    invalidate_within (OB := drawn_moves) 1%float 0 three_discs = Some c' /\
    unchanged c' = unchanged three_discs /\
    length (obj_list c') = length (obj_list three_discs).
Proof.
  split; [reflexivity|].
  destruct (invalidate_within_flags (OB := drawn_moves) 1%float 0 three_discs
              (mk_object 0 5 5 0 0 false)%float eq_refl)
    as (c' & H & _ & _ & Hu & _ & _ & _ & Hl & _).
  exists c'. auto.
Defined.

(** ** The copy constructor *)

Section Copy.
Context {D : Type} {AD : Double D} {EN : Energetics D} {OB : ObjectOps D}.
Implicit Types (c : config) (l : list (object D)) (o : object D).

Lemma copy_loop l n :
  n <= length l ->
  for_upto n
    (fun acc i =>
       match l !! i with
       | Some my_obj1 =>
           acc ++ [new_object (o_type my_obj1) (pos_x my_obj1)
                              (pos_y my_obj1) (orientation my_obj1)]
       | None => acc
       end) []
  = copied <$> take n l.
Proof.
  induction n as [|n IH]; intros Hn.
  - reflexivity.
  - rewrite for_upto_S, IH by lia.
    destruct (lookup_lt_is_Some_2 l n) as [o Ho]; [lia|].
    rewrite Ho, (take_S_r _ _ _ Ho), fmap_app. reflexivity.
Qed.

(** C10: the copy has the sizes, the periodicity, [saved_energy] and
    [unchanged] of the original; its topology is a new default topology
    whatever the original's; its objects are, in the same order, new
    objects with the type, centre and orientation of the original's, their
    cached energy and [recalculate] flag being those the object
    constructor sets. *)
Theorem config_copy_spec orig :
  let c := config_copy orig in
  x_size c = x_size orig /\ y_size c = y_size orig /\
  is_periodic c = is_periodic orig /\
  saved_energy c = saved_energy orig /\ unchanged c = unchanged orig /\
  the_topology c = Some default_topology /\
  obj_list c = copied <$> obj_list orig /\
  n_objects c = n_objects orig /\
  forall i o, obj_list orig !! i = Some o ->
    exists o',
      obj_list c !! i = Some o' /\
      o_type o' = o_type o /\ pos_x o' = pos_x o /\ pos_y o' = pos_y o /\
      orientation o' = orientation o /\
      cached_energy o' = ctor_energy /\ recalculate o' = ctor_recalculate.
Proof.
  cbv zeta.
  assert (Hl : obj_list (config_copy orig) = copied <$> obj_list orig).
  { unfold config_copy. simpl. rewrite copy_loop by lia.
    rewrite take_ge by lia. reflexivity. }
  repeat split; auto.
  - unfold n_objects. rewrite Hl. apply length_fmap.
  - intros i o Ho. rewrite Hl, list_lookup_fmap, Ho. simpl.
    eexists; split; [reflexivity|]. repeat split; reflexivity.
Qed.

End Copy.

(** A copy does not depend on what the original's objects have cached. *)
Example config_copy_drops_caches :
  obj_list (config_copy (OB := drawn_moves)
              (energy (EN := discs64) big two_on_a_spot_loaded).1)
  = [mk_object 0 5 5 0 0 true; mk_object 0 5 5 0 0 true]%float /\
  cached_energy <$> obj_list (energy (EN := discs64) big two_on_a_spot_loaded).1
  = [big; big] /\
  the_topology (config_copy (OB := drawn_moves)
                  (energy (EN := discs64) big two_on_a_spot_loaded).1)
  = Some tt.
Proof. repeat split; reflexivity. Qed.

(** ** The overlap-relief loop *)

Section Relief.
Context {D : Type} {AD : Double D} {EN : Energetics D} {OB : ObjectOps D}
        {IN : Integrator D}.
Implicit Types (st : config * D * rand_state).

Lemma after_batches_shift k the_forces beta P1 N1 U1 st :
  after_batches (S k) the_forces beta P1 N1 U1 st =
  after_batches k the_forces beta P1 N1
    (relief_batch the_forces beta P1 N1 st).2
    (relief_batch the_forces beta P1 N1 st).1.
Proof.
  induction k as [|k IH].
  { simpl. destruct (relief_batch the_forces beta P1 N1 st); reflexivity. }
  change (after_batches (S (S k)) the_forces beta P1 N1 U1 st)
    with (relief_batch the_forces beta P1 N1
            (after_batches (S k) the_forces beta P1 N1 U1 st).1).
  rewrite IH. reflexivity.
Qed.

Lemma relief_step fuel the_forces beta P1 N1 i U1 st batches :
  relief (S fuel) the_forces beta P1 N1 i U1 st batches =
  if (big_energy the_forces <? U1)%dbl then
    if (2000 * N1 <? i)%Z then Relief_fatal i batches
    else relief fuel the_forces beta P1 N1 (i + 2 * N1)
           (relief_batch the_forces beta P1 N1 st).2
           (relief_batch the_forces beta P1 N1 st).1
           (batches ++ [(2 * N1)%Z])
  else Relief_done st.1.1 st.1.2 U1 i batches.
Proof.
  simpl. destruct (relief_batch the_forces beta P1 N1 st); reflexivity.
Qed.

(** While the energy stays above [big_energy] and [i] has not passed
    [2000 * N1], the loop runs batch after batch. *)
Lemma relief_unroll k : forall fuel the_forces beta P1 N1 i U1 st batches,
  (forall j, j < k ->
     (big_energy the_forces
        <? (after_batches j the_forces beta P1 N1 U1 st).2)%dbl = true /\
     (2000 * N1 <? i + 2 * N1 * Z.of_nat j)%Z = false) ->
  relief (k + fuel) the_forces beta P1 N1 i U1 st batches =
  relief fuel the_forces beta P1 N1 (i + 2 * N1 * Z.of_nat k)
    (after_batches k the_forces beta P1 N1 U1 st).2
    (after_batches k the_forces beta P1 N1 U1 st).1
    (batches ++ repeat (2 * N1)%Z k).
Proof.
  induction k as [|k IH]; intros fuel the_forces beta P1 N1 i U1 st batches H.
  - simpl. rewrite app_nil_r. f_equal. lia.
  - destruct (H 0 ltac:(lia)) as [Hb Hi]. simpl in Hb, Hi.
    replace (i + 2 * N1 * Z.of_nat 0)%Z with i in Hi by lia.
    change (S k + fuel) with (S (k + fuel)). rewrite relief_step, Hb, Hi.
    rewrite IH.
    + rewrite after_batches_shift.
      rewrite <- app_assoc. simpl. f_equal. lia.
    + intros j Hj. destruct (H (S j) ltac:(lia)) as [Hb' Hi'].
      rewrite after_batches_shift in Hb'.
      split; [exact Hb'|]. rewrite <- Hi'. f_equal. lia.
Qed.

(** A bounded search for the first batch after which the energy is not
    above [big_energy]. *)
Lemma first_relieved (above : nat -> bool) (n : nat) :
  (forall j, j <= n -> above j = true) \/
  (exists k, k <= n /\ above k = false /\ forall j, j < k -> above j = true).
Proof.
  induction n as [|n IH].
  - destruct (above 0) eqn:H0.
    + left. intros j Hj. assert (j = 0) as -> by lia. exact H0.
    + right. exists 0. repeat split; auto. intros j Hj. lia.
  - destruct IH as [Hall|(k & Hk & Hf & Hlt)].
    + destruct (above (S n)) eqn:Hn.
      * left. intros j Hj. destruct (decide (j = S n)) as [->|]; [done|].
        apply Hall. lia.
      * right. exists (S n). repeat split; auto. intros j Hj. apply Hall. lia.
    + right. exists k. repeat split; auto.
Qed.

(** The relief loop as it is written, by the energies that the batches
    leave: the loop body is entered exactly when the energy computed first
    is strictly above [big_energy].  Every call of [run] is for [2 * N1]
    steps.  If the energy is not above [big_energy] after [k] batches, and
    was before, the loop ends there, with [i = 2 * N1 * k] steps consumed.
    If it is still above after each of 1001 batches, [i] is [2002 * N1],
    more than [2000 * N1], and the program ends in [exit(EXIT_FAILURE)], a
    status that is not 0.  This is for [N1 > 0] objects, [2002 * N1] being
    within the range of [int]; 1002 tests of the loop condition are then
    enough for the loop to end. *)
Lemma relief_phase the_forces beta P1 N1 U1 st fuel :
  (0 < N1)%Z -> (2002 * N1 <= 2147483647)%Z -> 1002 <= fuel ->
  let r := relief fuel the_forces beta P1 N1 0 U1 st [] in
  let after k := after_batches k the_forces beta P1 N1 U1 st in
  let above k := (big_energy the_forces <? (after k).2)%dbl in
  (above 0 = false <-> r = Relief_done st.1.1 st.1.2 U1 0 []) /\
  (forall k, k <= 1001 ->
     (forall j, j < k -> above j = true) -> above k = false ->
     r = Relief_done (after k).1.1.1 (after k).1.1.2 (after k).2
           (2 * N1 * Z.of_nat k) (repeat (2 * N1)%Z k)) /\
  ((forall j, j <= 1001 -> above j = true) ->
   r = Relief_fatal (2002 * N1) (repeat (2 * N1)%Z 1001) /\
   relief_exit r = Some EXIT_FAILURE /\ EXIT_FAILURE <> 0%Z /\
   (2000 * N1 < 2002 * N1)%Z) /\
  r <> Relief_out_of_fuel.
Proof.
  intros HN Hint Hfuel. cbv zeta.
  assert (Hdone : forall k, k <= 1001 ->
     (forall j, j < k ->
        (big_energy the_forces
           <? (after_batches j the_forces beta P1 N1 U1 st).2)%dbl = true) ->
     (big_energy the_forces
        <? (after_batches k the_forces beta P1 N1 U1 st).2)%dbl = false ->
     relief fuel the_forces beta P1 N1 0 U1 st [] =
     Relief_done (after_batches k the_forces beta P1 N1 U1 st).1.1.1
       (after_batches k the_forces beta P1 N1 U1 st).1.1.2
       (after_batches k the_forces beta P1 N1 U1 st).2
       (2 * N1 * Z.of_nat k) (repeat (2 * N1)%Z k)).
  { intros k Hk Hlt Hf.
    replace fuel with (k + S (fuel - k - 1)) by lia.
    rewrite relief_unroll.
    - rewrite relief_step, Hf. simpl. f_equal.
    - intros j Hj. split; [auto|]. apply Z.ltb_ge. nia. }
  assert (Hfatal :
     (forall j, j <= 1001 ->
        (big_energy the_forces
           <? (after_batches j the_forces beta P1 N1 U1 st).2)%dbl = true) ->
     relief fuel the_forces beta P1 N1 0 U1 st [] =
     Relief_fatal (2002 * N1) (repeat (2 * N1)%Z 1001)).
  { intros Hall.
    replace fuel with (1001 + S (fuel - 1002)) by lia.
    rewrite relief_unroll.
    - rewrite relief_step, Hall by lia.
      replace (2000 * N1 <? 0 + 2 * N1 * Z.of_nat 1001)%Z with true
        by (symmetry; apply Z.ltb_lt; lia).
      f_equal. lia.
    - intros j Hj. split; [apply Hall; lia|]. apply Z.ltb_ge. nia. }
  split; [split|].
  - intros H0. rewrite (Hdone 0); [|lia | intros j Hj; lia | exact H0].
    simpl. f_equal. lia.
  - intros Hr.
    destruct (big_energy the_forces
                <? (after_batches 0 the_forces beta P1 N1 U1 st).2)%dbl eqn:H0;
      [|reflexivity].
    exfalso.
    destruct (first_relieved
                (fun k => (big_energy the_forces
                   <? (after_batches k the_forces beta P1 N1 U1 st).2)%dbl) 1001)
      as [Hall|(k & Hk & Hf & Hlt)].
    + rewrite (Hfatal Hall) in Hr. discriminate.
    + rewrite (Hdone k Hk Hlt Hf) in Hr.
      destruct k as [|k]; [simpl in Hf; congruence|].
      simpl in Hr. discriminate.
  - split; [exact Hdone|]. split.
    + intros Hall. rewrite (Hfatal Hall).
      repeat split; [discriminate | lia].
    + destruct (first_relieved
                  (fun k => (big_energy the_forces
                     <? (after_batches k the_forces beta P1 N1 U1 st).2)%dbl) 1001)
        as [Hall|(k & Hk & Hf & Hlt)].
      * rewrite (Hfatal Hall). discriminate.
      * rewrite (Hdone k Hk Hlt Hf). discriminate.
Qed.

End Relief.

Lemma rejecting_after_batches {D : Type} {AD : Double D} {EN : Energetics D}
    {OB : ObjectOps D} (k : nat) (the_forces : force_field) (beta P1 : D)
    (N1 : Z) (c : config) (dl_max : D) (g : rand_state) :
  unchanged c = true ->
  after_batches (IN := rejecting) k the_forces beta P1 N1
    (saved_energy c / d_two)%dbl (c, dl_max, g)
  = ((c, dl_max, g), (saved_energy c / d_two)%dbl).
Proof.
  intros Hu. induction k as [|k IH]; [reflexivity|].
  simpl. rewrite IH. unfold relief_batch. simpl.
  rewrite (energy_unchanged _ _ Hu). reflexivity.
Qed.

(** C4, at the failing input: two hard discs on one spot of a periodic
    10 x 10 box, as loaded, which is one bad contact.  The energy is
    (BIG + BIG) / 2 = [BIG_ENERGY], which is at least [BIG_ENERGY], and the
    test [U1 > the_forces->big_energy] of line 208 fails at once: whatever
    the integrator, the generator, beta and the pressure, no batch is run
    and no step consumed, and the two discs are left on their spot. *)
Theorem relief_not_entered_at_big_energy (OB : ObjectOps float)
    (IN : @Integrator float discs64 OB) (fuel : nat) (beta P1 : float)
    (g : rand_state) :
  (energy (EN := discs64) big (add_topology (EN := discs64) tt two_on_a_spot_loaded)).2
  = big /\
  PrimFloat.leb big
    (energy (EN := discs64) big (add_topology (EN := discs64) tt two_on_a_spot_loaded)).2
  = true /\
  main_relief (EN := discs64) (S fuel) big beta P1 two_on_a_spot_loaded tt g
  = Relief_done
      (mk_config (EN := discs64) 10 10 true 2000000
         [mk_object 0 5 5 0 1000000 false; mk_object 0 5 5 0 1000000 false]
         (Some tt) true)%float
      5%float big 0 [].
Proof. split; [reflexivity|]. split; reflexivity. Qed.

(** Three discs on one spot have energy 3 BIG; with an integrator that
    rejects every trial the loop runs 1001 batches of 6 steps and ends in
    the fatal error. *)
Example relief_fatal_three_discs :
  main_relief (EN := discs64) (OB := drawn_moves) (IN := rejecting) 1002 big
    1%float 1%float three_on_a_spot tt []
  = Relief_fatal 6006 (repeat 6%Z 1001).
Proof. vm_compute. reflexivity. Qed.

Example relief_phase_three_discs :
  (0 < 3)%Z /\ (2002 * 3 <= 2147483647)%Z /\ 1002 <= 1002 /\
  relief (EN := discs64) (OB := drawn_moves) (IN := rejecting) 1002 big
    1%float 1%float 3 0
    (saved_energy (energy (EN := discs64) big three_on_a_spot).1 / d_two)%dbl
    ((energy (EN := discs64) big three_on_a_spot).1, 5%float, []) []
  = Relief_fatal (2002 * 3) (repeat (2 * 3)%Z 1001).
Proof.
  assert (H1 : (0 < 3)%Z) by lia.
  assert (H2 : (2002 * 3 <= 2147483647)%Z) by lia.
  assert (H3 : 1002 <= 1002) by lia.
  split; [exact H1|]. split; [exact H2|]. split; [exact H3|].
  refine (proj1 (proj1 (proj2 (proj2
    (relief_phase (EN := discs64) (OB := drawn_moves) (IN := rejecting) big
       1%float 1%float 3
       (saved_energy (energy (EN := discs64) big three_on_a_spot).1 / d_two)%dbl
       ((energy (EN := discs64) big three_on_a_spot).1, 5%float, [])
       1002 H1 H2 H3))) _)).
  intros j Hj.
  rewrite (rejecting_after_batches (EN := discs64) (OB := drawn_moves));
    reflexivity.
Qed.

(** ** Writing a configuration and reading it back *)

Section StdioFacts.
Import Stdio.
Local Open Scope string_scope.

Lemma append_assoc (s1 s2 s3 : string) : (s1 ++ s2) ++ s3 = s1 ++ (s2 ++ s3).
Proof. induction s1 as [|a s1 IH]; simpl; [reflexivity | rewrite IH; reflexivity]. Qed.

Lemma all_digits_app (s1 s2 : string) :
  all_digits (s1 ++ s2) = all_digits s1 && all_digits s2.
Proof.
  induction s1 as [|a s1 IH]; simpl; [reflexivity|].
  rewrite IH. apply andb_assoc.
Qed.

Lemma digit_char_is_digit (d : Z) : (0 <= d < 10)%Z -> is_digit (digit_char d) = true.
Proof.
  intros H.
  assert (d = 0 \/ d = 1 \/ d = 2 \/ d = 3 \/ d = 4 \/ d = 5 \/ d = 6 \/ d = 7
          \/ d = 8 \/ d = 9)%Z as Hd by lia.
  repeat (destruct Hd as [->|Hd]; [reflexivity|]). subst. reflexivity.
Qed.

Lemma digits_from_digits (fuel : nat) (n : Z) (acc : string) :
  all_digits acc = true -> all_digits (digits_from fuel n acc) = true.
Proof.
  revert n acc.
  induction fuel as [|fuel IH]; intros n acc Hacc; cbn [digits_from]; [exact Hacc|].
  assert (Hd : all_digits (String (digit_char (n mod 10)) acc) = true).
  { cbn [all_digits].
    rewrite digit_char_is_digit by (apply Z.mod_pos_bound; lia). exact Hacc. }
  destruct (n / 10 =? 0)%Z; [exact Hd | apply IH, Hd].
Qed.

Lemma digits_from_cons (fuel : nat) (n : Z) (acc : string) :
  acc <> "" -> digits_from fuel n acc <> "".
Proof.
  revert n acc.
  induction fuel as [|fuel IH]; intros n acc Hacc; cbn [digits_from]; [exact Hacc|].
  destruct (n / 10 =? 0)%Z; [discriminate | apply IH; discriminate].
Qed.

Lemma digits_all (n : Z) : all_digits (digits n) = true.
Proof. apply digits_from_digits. reflexivity. Qed.

Lemma digits_nonempty (n : Z) : digits n <> "".
Proof.
  unfold digits. cbn [digits_from].
  destruct (n / 10 =? 0)%Z; [discriminate | apply digits_from_cons; discriminate].
Qed.

Lemma zeros_digits (k : nat) : all_digits (zeros k) = true.
Proof. induction k as [|k IH]; simpl; [reflexivity | exact IH]. Qed.

Lemma scan_digits_app (ds : string) (a : ascii) (rest : string) (acc : Z) (count : nat) :
  all_digits ds = true -> is_digit a = false ->
  exists v, scan_digits (ds ++ String a rest) acc count
            = (v, (count + String.length ds)%nat, String a rest).
Proof.
  revert acc count. induction ds as [|d ds IH]; intros acc count Hds Ha; simpl.
  - rewrite Ha. exists acc. f_equal. f_equal. lia.
  - simpl in Hds. apply andb_prop in Hds as [Hd Hds]. rewrite Hd.
    destruct (IH (10 * acc + Z.of_nat (nat_of_ascii d - 48))%Z (S count) Hds Ha)
      as [v Hv].
    exists v. rewrite Hv. f_equal. f_equal. lia.
Qed.

Lemma skip_space_spaces (k : nat) (s : string) :
  skip_space (spaces k ++ s) = skip_space s.
Proof. induction k as [|k IH]; simpl; [reflexivity | exact IH]. Qed.

Lemma digit_not_space (a : ascii) : is_digit a = true -> is_space a = false.
Proof.
  unfold is_digit, is_space. intros H. apply andb_prop in H as [H1 H2].
  apply Nat.leb_le in H1. apply Nat.leb_le in H2.
  apply orb_false_iff. split.
  - apply Nat.eqb_neq. lia.
  - apply andb_false_iff. right. apply Nat.leb_gt. lia.
Qed.

Lemma scan_sign_digit (a : ascii) (s : string) :
  is_digit a = true -> scan_sign (String a s) = (false, String a s).
Proof.
  intros H. destruct a as [[] [] [] [] [] [] [] []]; try discriminate H; reflexivity.
Qed.

(** ["%lf"] reads a whole numeral that a character other than a digit
    follows, whatever blanks come first. *)
Lemma scan_lf_numeral (k : nat) (neg : bool) (ip fp : string) (a : ascii)
    (rest : string) :
  all_digits ip = true -> ip <> "" -> all_digits fp = true -> is_digit a = false ->
  exists v, scan_lf (spaces k ++ numeral neg ip fp ++ String a rest)
            = Some (v, String a rest).
Proof.
  intros Hip Hne Hfp Ha. unfold scan_lf. rewrite skip_space_spaces.
  destruct ip as [|d ip]; [congruence|].
  simpl in Hip. apply andb_prop in Hip as [Hd Hip].
  assert (Hsign : scan_sign (skip_space (numeral neg (String d ip) fp ++ String a rest))
                  = (neg, String d ip ++ "." ++ fp ++ String a rest)).
  { unfold numeral. destruct neg; simpl.
    - rewrite !append_assoc. reflexivity.
    - rewrite (digit_not_space d Hd). rewrite scan_sign_digit by exact Hd.
      rewrite !append_assoc. reflexivity. }
  rewrite Hsign.
  destruct (scan_digits_app (String d ip) "." (fp ++ String a rest) 0%Z 0)
    as [v1 Hv1]; [simpl; rewrite Hd; exact Hip | reflexivity |].
  change (String d ip ++ "." ++ fp ++ String a rest)
    with (String d ip ++ String "." (fp ++ String a rest)).
  rewrite Hv1.
  destruct (scan_digits_app fp a rest v1 0 Hfp Ha) as [v2 Hv2].
  rewrite Hv2. simpl. eexists. reflexivity.
Qed.

(** ["%f"] prints a finite number as a numeral. *)
Lemma print_f_numeral (x : float) :
  is_finite x = true ->
  exists neg ip fp,
    print_f x = numeral neg ip fp /\
    all_digits ip = true /\ ip <> "" /\ all_digits fp = true.
Proof.
  unfold is_finite, print_f. destruct (Prim2SF x) as [s|s| |s m e]; try discriminate.
  - intros _. exists s, "0", "000000". destruct s; repeat split; discriminate.
  - intros _. eexists s, _, _. split; [reflexivity|].
    split; [apply digits_all|]. split; [apply digits_nonempty|].
    rewrite all_digits_app, zeros_digits, digits_all. reflexivity.
Qed.

Lemma pad_numeral_then_2 (neg : bool) (ip fp rest : string) :
  pad_left 9 (numeral neg ip fp) ++ "2 " ++ rest
  = spaces (9 - String.length (numeral neg ip fp))
      ++ numeral neg ip (fp ++ "2") ++ String " " rest.
Proof.
  unfold pad_left, numeral. rewrite !append_assoc. reflexivity.
Qed.

End StdioFacts.

Section FileProperty.
Context {EN : Energetics float} {OB : ObjectOps float}.
Import Stdio.
Local Open Scope string_scope.

(** For a configuration without objects whose sizes are finite, the file
    constructor finds its numbers in what [config::write] wrote, and the
    configuration read has no objects either, is periodic, has [unchanged]
    false, [saved_energy] 0 and no topology, and its energy is 0.  The
    sizes read are those of the numerals with the 2 of the format after
    them. *)
Lemma write_read_without_objects (the_force : force_field) (c : config) :
  obj_list c = [] ->
  is_finite (x_size c) = true -> is_finite (y_size c) = true ->
  exists c',
    config_read (write c) = Some c' /\
    n_objects c' = n_objects c /\ obj_list c' = [] /\
    unchanged c' = false /\ saved_energy c' = PrimFloat.zero /\
    the_topology c' = None /\ is_periodic c' = true /\
    (energy the_force c').2 = PrimFloat.zero.
Proof.
  intros Hobj Hx Hy.
  destruct (print_f_numeral _ Hx) as (n1 & ip1 & fp1 & Hp1 & Hip1 & Hne1 & Hfp1).
  destruct (print_f_numeral _ Hy) as (n2 & ip2 & fp2 & Hp2 & Hip2 & Hne2 & Hfp2).
  assert (Hfp1' : all_digits (fp1 ++ "2") = true)
    by (rewrite all_digits_app, Hfp1; reflexivity).
  assert (Hfp2' : all_digits (fp2 ++ "2") = true)
    by (rewrite all_digits_app, Hfp2; reflexivity).
  assert (Hw : write c =
    spaces (9 - String.length (numeral n1 ip1 fp1))
      ++ numeral n1 ip1 (fp1 ++ "2")
      ++ String " "
           (spaces (9 - String.length (numeral n2 ip2 fp2))
              ++ numeral n2 ip2 (fp2 ++ "2")
              ++ String " " (newline ++ "0" ++ newline))).
  { unfold write, for_upto. rewrite Hobj, Hp1, Hp2. cbn [length seq fold_left].
    rewrite append_assoc, pad_numeral_then_2.
    rewrite !append_assoc, pad_numeral_then_2. reflexivity. }
  unfold config_read. rewrite Hw.
  destruct (scan_lf_numeral (9 - String.length (numeral n1 ip1 fp1)) n1 ip1
              (fp1 ++ "2") " "
              (spaces (9 - String.length (numeral n2 ip2 fp2))
                 ++ numeral n2 ip2 (fp2 ++ "2")
                 ++ String " " (newline ++ "0" ++ newline))
              Hip1 Hne1 Hfp1' eq_refl) as [v1 Hv1].
  rewrite Hv1.
  destruct (scan_lf_numeral (S (9 - String.length (numeral n2 ip2 fp2))) n2 ip2
              (fp2 ++ "2") " " (newline ++ "0" ++ newline)
              Hip2 Hne2 Hfp2' eq_refl) as [v2 Hv2].
  change (spaces (S (9 - String.length (numeral n2 ip2 fp2)))
            ++ numeral n2 ip2 (fp2 ++ "2") ++ String " " (newline ++ "0" ++ newline))
    with (String " "
            (spaces (9 - String.length (numeral n2 ip2 fp2))
               ++ numeral n2 ip2 (fp2 ++ "2")
               ++ String " " (newline ++ "0" ++ newline))) in Hv2.
  rewrite Hv2.
  exists (mk_config v1 v2 false PrimFloat.zero [] None true).
  split; [reflexivity|].
  unfold n_objects. rewrite Hobj. repeat split; reflexivity.
Qed.

End FileProperty.

(** C5, at the failing input: the empty configuration with Lx = Ly = 10.
    The format of line 200 is ["%9f2 %9f2 \n"], so [config::write] prints a
    2 after each size: the text is [10.0000002 10.0000002], and the file
    constructor reads it back with x_size = y_size = 10.0000002, not 10.
    The object count 0 comes back and the energy of the configuration read
    is 0; this is so whatever the force field and class [object]. *)
Theorem write_read_empty_box (EN : Energetics float) (OB : ObjectOps float)
    (the_force : force_field) :
  write empty_box
  = ("10.0000002 10.0000002 " ++ Stdio.newline ++ "0" ++ Stdio.newline)%string /\
  config_read (write empty_box)
  = Some (mk_config 10.0000002 10.0000002 false 0 [] None true)%float /\
  (x_size empty_box, y_size empty_box) = (10, 10)%float /\
  n_objects empty_box = 0 /\
  PrimFloat.eqb 10.0000002 10 = false /\
  PrimFloat.ltb 10 10.0000002 = true /\
  (energy the_force (mk_config 10.0000002 10.0000002 false 0 [] None true)%float).2
  = 0%float.
Proof. repeat split; reflexivity. Qed.

(** The 2 apart, ["%f"] keeps six digits after the point: 0.1234567 is
    printed as 0.123457, which reads back as another number. *)
Example write_read_changes_sizes :
  write (OB := drawn_moves) (empty_box (EN := discs64))
  = ("10.0000002 10.0000002 " ++ Stdio.newline ++ "0" ++ Stdio.newline)%string /\
  (fun c' : config (EN := discs64) => (x_size c', y_size c'))
    <$> config_read (OB := drawn_moves)
          (write (OB := drawn_moves) (empty_box (EN := discs64)))
  = Some (10.0000002, 10.0000002)%float /\
  PrimFloat.eqb 10.0000002 (x_size (empty_box (EN := discs64))) = false /\
  Stdio.print_f 0.1234567 = "0.123457"%string /\
  fst <$> Stdio.scan_lf "0.123457" = Some 0.123457%float /\
  PrimFloat.eqb 0.123457 0.1234567 = false.
Proof. repeat split; reflexivity. Qed.

Example write_read_without_objects_empty_box :
  obj_list (empty_box (EN := discs64)) = [] /\
  Stdio.is_finite (x_size (empty_box (EN := discs64))) = true /\
  Stdio.is_finite (y_size (empty_box (EN := discs64))) = true /\
  exists c',
    config_read (OB := drawn_moves)
      (write (OB := drawn_moves) (empty_box (EN := discs64))) = Some c' /\
    n_objects c' = 0 /\ (energy (EN := discs64) big c').2 = 0%float.
Proof.
  split; [reflexivity|]. split; [reflexivity|]. split; [reflexivity|].
  destruct (write_read_without_objects (EN := discs64) (OB := drawn_moves) big
              empty_box eq_refl eq_refl eq_refl)
    as (c' & Hr & Hn & _ & _ & _ & _ & _ & He).
  exists c'. auto.
Qed.

(** With the lines of objects as the specification gives them, centres
    that six decimals hold exactly come back as they were. *)
Example write_read_three_discs :
  write (OB := drawn_moves) three_discs
  = ("10.0000002 10.0000002 " ++ Stdio.newline ++ "3" ++ Stdio.newline
     ++ "0 5.000000 5.000000 0.000000" ++ Stdio.newline
     ++ "0 5.500000 5.000000 0.000000" ++ Stdio.newline
     ++ "0 8.000000 5.000000 0.000000" ++ Stdio.newline)%string /\
  (fun c' : config (EN := discs64) => pos_x <$> obj_list c')
    <$> config_read (OB := drawn_moves) (write (OB := drawn_moves) three_discs)
  = Some [5; 5.5; 8]%float.
Proof. split; vm_compute; reflexivity. Qed.

(** * Further properties of the configuration class and the driver *)

(** ** [config::energy]: what it leaves alone, what it reads *)

Section EnergyBox.
Context {D : Type} {AD : Double D} {EN : Energetics D}.

(** [config::energy] assigns to [saved_energy], to [unchanged] and to the
    objects, and to nothing else of the configuration: the sizes, the
    periodicity, the topology and the number of objects are as on entry.
    In a box that is not periodic no object is shifted: type, centre and
    orientation of every object are as on entry too. *)
Theorem energy_keeps_the_box (the_force : force_field) (c : config) :
  let c' := (energy the_force c).1 in
  x_size c' = x_size c /\ y_size c' = y_size c /\
  is_periodic c' = is_periodic c /\ the_topology c' = the_topology c /\
  n_objects c' = n_objects c /\
  (is_periodic c = false -> Forall2 same_geometry (obj_list c) (obj_list c')).
Proof.
  pose proof (energy_frame the_force c) as H. cbv zeta in *.
  destruct H as (Hx & Hy & Hp & Ht & Hn & Hgeo).
  repeat split; auto.
  intros Hwalls. apply Hgeo. apply restores_partners_not_periodic, Hwalls.
Qed.

End EnergyBox.

Section StaleCaches.
Context {D : Type} {AD : Double D} {EN : Energetics D}.
Implicit Types (c : config) (l : list (object D)) (o : object D).
#[local] Arguments energy_object : simpl never.

Lemma same_for_energy_geometry l l' :
  Forall2 same_for_energy l l' -> Forall2 same_geometry l l'.
Proof. intros H. eapply Forall2_impl; [exact H|]. intros o o' Ho. apply Ho. Qed.

Lemma put_back_same_for_energy c o1 o1' o2 o2' :
  same_geometry o1 o1' -> same_for_energy o2 o2' ->
  same_for_energy (put_back c o1 o2) (put_back c o1' o2').
Proof.
  unfold same_for_energy, same_geometry, put_back, image_of.
  intros (? & Hx1 & Hy1 & ?) ((? & Hx2 & Hy2 & ?) & ? & ?).
  destruct (is_periodic c); simpl; rewrite ?Hx1, ?Hy1, ?Hx2, ?Hy2; tauto.
Qed.

Lemma settled_same_for_energy c o1 o1' i n l l' :
  same_geometry o1 o1' -> Forall2 same_for_energy l l' ->
  Forall2 same_for_energy (settled c o1 i n l) (settled c o1' i n l').
Proof.
  intros Ho Hl. apply Forall2_same_length_lookup_2.
  - rewrite !settled_length. eapply Forall2_length; eauto.
  - intros j x y. rewrite !settled_lookup.
    destruct (l !! j) as [oj|] eqn:Hj; [|discriminate].
    destruct (l' !! j) as [oj'|] eqn:Hj'; [|discriminate].
    simpl. intros [= <-] [= <-].
    pose proof (Forall2_lookup_lr _ _ _ _ _ _ Hl Hj Hj') as Hjj.
    case_bool_decide; [apply put_back_same_for_energy; auto | exact Hjj].
Qed.

Lemma object_energy_same_geometry the_force c l l' i oi oi' :
  geometric (interaction the_force (the_topology c)) ->
  (forall o o', same_geometry o o' ->
     box_energy the_force (the_topology c) (x_size c) (y_size c) o
     = box_energy the_force (the_topology c) (x_size c) (y_size c) o') ->
  Forall2 same_geometry l l' -> same_geometry oi oi' ->
  object_energy the_force c l i oi = object_energy the_force c l' i oi'.
Proof.
  intros Hg Hbox Hl Ho. unfold object_energy.
  rewrite (pair_sum_same_geometry the_force c l l' i oi oi' Hg Hl Ho).
  rewrite (Hbox oi oi' Ho). reflexivity.
Qed.

(** One turn of the outer loop on two lists that agree on what is read. *)
Lemma energy_object_same_for_energy the_force c l l' saved i :
  geometric (interaction the_force (the_topology c)) ->
  (forall o o', same_geometry o o' ->
     box_energy the_force (the_topology c) (x_size c) (y_size c) o
     = box_energy the_force (the_topology c) (x_size c) (y_size c) o') ->
  Forall2 same_for_energy l l' ->
  Forall2 same_for_energy (energy_object the_force c (l, saved) i).1
                          (energy_object the_force c (l', saved) i).1 /\
  (energy_object the_force c (l, saved) i).2
  = (energy_object the_force c (l', saved) i).2.
Proof.
  intros Hg Hbox Hl.
  destruct (l !! i) as [oi|] eqn:Hi.
  - destruct (Forall2_lookup_l _ _ _ _ _ Hl Hi) as (oi' & Hi' & Hoo).
    rewrite (energy_object_closed _ _ _ _ _ oi Hi).
    rewrite (energy_object_closed _ _ _ _ _ oi' Hi').
    destruct Hoo as (Hgeo & Hflag & Hcache). rewrite Hflag.
    rewrite (object_energy_same_geometry the_force c l l' i oi oi' Hg Hbox
               (same_for_energy_geometry _ _ Hl) Hgeo).
    destruct (recalculate oi) eqn:Hr; simpl.
    + split; [|reflexivity].
      rewrite (Forall2_length _ _ _ Hl).
      apply Forall2_insert.
      * apply settled_same_for_energy; auto.
      * unfold same_for_energy, same_geometry in *. simpl. tauto.
    + split; [exact Hl|]. rewrite Hcache by reflexivity. reflexivity.
  - assert (Hi' : l' !! i = None).
    { apply lookup_ge_None. apply lookup_ge_None in Hi.
      rewrite <- (Forall2_length _ _ _ Hl). exact Hi. }
    unfold energy_object. rewrite Hi, Hi'. simpl. auto.
Qed.

Lemma turns_same_for_energy the_force c l l' n :
  geometric (interaction the_force (the_topology c)) ->
  (forall o o', same_geometry o o' ->
     box_energy the_force (the_topology c) (x_size c) (y_size c) o
     = box_energy the_force (the_topology c) (x_size c) (y_size c) o') ->
  Forall2 same_for_energy l l' ->
  Forall2 same_for_energy
    (for_upto n (energy_object the_force c) (l, d_zero)).1
    (for_upto n (energy_object the_force c) (l', d_zero)).1 /\
  (for_upto n (energy_object the_force c) (l, d_zero)).2
  = (for_upto n (energy_object the_force c) (l', d_zero)).2.
Proof.
  intros Hg Hbox Hl. induction n as [|n IH].
  - unfold for_upto; simpl. auto.
  - rewrite !for_upto_S.
    destruct (for_upto n (energy_object the_force c) (l, d_zero)) as [l1 s1].
    destruct (for_upto n (energy_object the_force c) (l', d_zero)) as [l1' s1'].
    simpl in IH. destruct IH as (IH1 & ->).
    apply energy_object_same_for_energy; auto.
Qed.

(** [energy] reads neither [saved_energy] nor the cached energy of a
    flagged object: two configurations with [unchanged] false that differ
    in nothing else end in the same state and give the same value, where
    the pair and wall energies depend on type, centre and orientation
    only. *)
Theorem energy_ignores_stale_caches the_force c l' saved' :
  unchanged c = false ->
  geometric (interaction the_force (the_topology c)) ->
  (forall o o', same_geometry o o' ->
     box_energy the_force (the_topology c) (x_size c) (y_size c) o
     = box_energy the_force (the_topology c) (x_size c) (y_size c) o') ->
  Forall2 same_for_energy (obj_list c) l' ->
  energy the_force
    (mk_config (x_size c) (y_size c) false saved' l' (the_topology c) (is_periodic c))
  = energy the_force c.
Proof.
  intros Hu Hg Hbox Hl.
  set (c' := mk_config (x_size c) (y_size c) false saved' l' (the_topology c)
                       (is_periodic c)).
  rewrite (energy_changed the_force c Hu).
  rewrite (energy_changed the_force c' eq_refl). unfold objects_at_turn.
  change (obj_list c') with l'. change (x_size c') with (x_size c).
  change (y_size c') with (y_size c). change (the_topology c') with (the_topology c).
  change (is_periodic c') with (is_periodic c).
  change (energy_object the_force c') with (energy_object the_force c).
  rewrite <- (Forall2_length _ _ _ Hl).
  destruct (turns_same_for_energy the_force c (obj_list c) l'
              (length (obj_list c)) Hg Hbox Hl) as (Hlists & Hsaved).
  destruct (turns_invariant the_force c (length (obj_list c)) (le_n _))
    as (Hlen & _ & Hclean & _). cbv zeta in Hlen, Hclean.
  rewrite <- Hsaved.
  assert (Heq : (for_upto (length (obj_list c)) (energy_object the_force c)
                   (l', d_zero)).1
                = (for_upto (length (obj_list c)) (energy_object the_force c)
                     (obj_list c, d_zero)).1).
  { apply list_eq; intros j.
    destruct ((for_upto (length (obj_list c)) (energy_object the_force c)
                 (obj_list c, d_zero)).1 !! j) as [o|] eqn:Ho.
    - destruct (Forall2_lookup_l _ _ _ _ _ Hlists Ho) as (o' & -> & Hoo).
      f_equal.
      assert (Hj : j < length (obj_list c))
        by (rewrite <- Hlen; eapply lookup_lt_Some; eauto).
      destruct (Hclean j Hj) as (o1 & Ho1 & Hflag).
      assert (o1 = o) as -> by congruence.
      destruct Hoo as ((Ht & Hx & Hy & Ha) & Hf & Hc).
      specialize (Hc Hflag). rewrite Hflag in Hf.
      destruct o, o'; simpl in *; congruence.
    - apply lookup_ge_None. apply lookup_ge_None in Ho.
      rewrite <- (Forall2_length _ _ _ Hlists). exact Ho. }
  rewrite Heq. reflexivity.
Qed.

End StaleCaches.

(** The hard discs depend on the centres only. *)
Lemma hard_discs_geometric {D : Type} {AD : Double D} (the_force : D) top :
  geometric (interaction (Energetics := hard_discs) the_force top) /\
  forall Lx Ly o o', same_geometry o o' ->
    box_energy (Energetics := hard_discs) the_force top Lx Ly o
    = box_energy (Energetics := hard_discs) the_force top Lx Ly o'.
Proof.
  split.
  - intros o1 o1' o2 o2' (_ & Hx1 & Hy1 & _) (_ & Hx2 & Hy2 & _).
    simpl. rewrite Hx1, Hy1, Hx2, Hy2. reflexivity.
  - intros Lx Ly o o' (_ & Hx & Hy & _). simpl. rewrite Hx, Hy. reflexivity.
Qed.

Lemma energy_ignores_stale_caches_witness :
  unchanged two_on_a_spot_loaded = false /\
  energy (EN := discs64) big
    (mk_config 10 10 false 7
       [mk_object 0 5 5 0 3 true; mk_object 0 5 5 0 4 true] None true)%float
  = energy (EN := discs64) big two_on_a_spot_loaded.
Proof.
  split; [reflexivity|].
  refine (energy_ignores_stale_caches (EN := discs64) big two_on_a_spot_loaded
            [mk_object 0 5 5 0 3 true; mk_object 0 5 5 0 4 true]%float 7%float
            eq_refl (proj1 (hard_discs_geometric big None))
            (proj2 (hard_discs_geometric big None) _ _) _).
  repeat constructor; simpl; discriminate.
Defined.

(** ** [config::energy] where every partner comes back to its place *)

Section EnergyRestored.
Context {D : Type} {AD : Double D} {EN : Energetics D}.
Implicit Types (c : config) (l : list (object D)) (o : object D).
#[local] Arguments energy_object : simpl never.

Lemma same_geometry_refreshed the_force c l i o :
  same_geometry o (refreshed the_force c l i o).
Proof.
  unfold refreshed, same_geometry. destruct (recalculate o); simpl; tauto.
Qed.

(** Where every partner comes back to its place, the objects below [n] are
    as the specification has them after [n] turns of the outer loop, and
    the others are as on entry. *)
Lemma turns_restored the_force c n :
  restores_partners c ->
  geometric (interaction the_force (the_topology c)) ->
  (forall o o', same_geometry o o' ->
     box_energy the_force (the_topology c) (x_size c) (y_size c) o
     = box_energy the_force (the_topology c) (x_size c) (y_size c) o') ->
  n <= length (obj_list c) ->
  objects_at_turn the_force c n =
  imap (fun i o =>
          if bool_decide (i < n) then refreshed the_force c (obj_list c) i o else o)
       (obj_list c).
Proof.
  intros Hback Hg Hbox. induction n as [|n IH]; intros Hn.
  - unfold objects_at_turn, for_upto. cbn [seq fold_left fst].
    apply list_eq; intros i. rewrite list_lookup_imap.
    destruct (obj_list c !! i); [|reflexivity].
    cbn [fmap option_fmap option_map].
    rewrite bool_decide_false by lia. reflexivity.
  - specialize (IH ltac:(lia)).
    unfold objects_at_turn in *. rewrite for_upto_S.
    destruct (for_upto n (energy_object the_force c) (obj_list c, d_zero))
      as [l saved]. simpl in IH. subst l.
    set (l := imap (fun i o =>
                      if bool_decide (i < n)
                      then refreshed the_force c (obj_list c) i o else o)
                   (obj_list c)).
    destruct (lookup_lt_is_Some_2 (obj_list c) n) as [on Hon]; [lia|].
    assert (Hl : forall j o, obj_list c !! j = Some o ->
              exists o', l !! j = Some o' /\ same_geometry o o' /\
                         (n <= j -> o' = o)).
    { intros j o Ho. unfold l. rewrite list_lookup_imap, Ho. simpl.
      eexists. split; [reflexivity|]. case_bool_decide.
      - split; [apply same_geometry_refreshed | lia].
      - split; [apply same_geometry_refl | reflexivity]. }
    assert (Hlen : length l = length (obj_list c)) by apply length_imap.
    assert (Hgeo : Forall2 same_geometry (obj_list c) l).
    { apply Forall2_same_length_lookup_2; [lia|].
      intros j x y Hx Hy. destruct (Hl j x Hx) as (o' & Ho' & Hs & _).
      assert (o' = y) as -> by congruence. exact Hs. }
    destruct (Hl n on Hon) as (on' & Hon' & _ & Heq).
    specialize (Heq (le_n _)). subst on'.
    rewrite (energy_object_closed _ _ _ _ _ on Hon').
    assert (HE : object_energy the_force c l n on
                 = object_energy the_force c (obj_list c) n on).
    { symmetry.
      apply (object_energy_same_geometry the_force c _ _ n on on Hg Hbox Hgeo).
      apply same_geometry_refl. }
    apply list_eq; intros j. rewrite list_lookup_imap.
    destruct (recalculate on) eqn:Hflag; cbn [fst].
    + assert (Hsettled : settled c on n (length l) l = l).
      { apply list_eq; intros k. rewrite settled_lookup.
        destruct (l !! k) as [x|] eqn:Hk; simpl; [|reflexivity].
        case_bool_decide as Hc; [|reflexivity]. f_equal.
        destruct Hc as [Hk1 Hk2].
        destruct (lookup_lt_is_Some_2 (obj_list c) k) as [ok Hok]; [lia|].
        destruct (Hl k ok Hok) as (x' & Hx' & Hs & _).
        assert (x' = x) as -> by congruence.
        apply (put_back_same_geometry c on on ok x (same_geometry_refl on) Hs).
        apply (Hback n k on ok); auto. }
      rewrite Hsettled, HE.
      destruct (decide (j = n)) as [->|Hne].
      * rewrite list_lookup_insert_eq by lia. rewrite Hon. simpl.
        rewrite bool_decide_true by lia. unfold refreshed. rewrite Hflag.
        reflexivity.
      * rewrite list_lookup_insert_ne by done.
        unfold l. rewrite list_lookup_imap.
        destruct (obj_list c !! j); simpl; [|reflexivity].
        repeat case_bool_decide; first [reflexivity | exfalso; lia].
    + unfold l. rewrite list_lookup_imap.
      destruct (obj_list c !! j) as [o|] eqn:Ho; simpl; [|reflexivity].
      destruct (decide (j = n)) as [->|Hne].
      * assert (o = on) as -> by congruence.
        rewrite bool_decide_false by lia. rewrite bool_decide_true by lia.
        unfold refreshed. rewrite Hflag. reflexivity.
      * repeat case_bool_decide; first [reflexivity | exfalso; lia].
Qed.

(** [config::energy] in closed form, where every partner comes back to its
    place and the energies depend on type, centre and orientation only. *)
Lemma energy_restored the_force c :
  unchanged c = false ->
  restores_partners c ->
  geometric (interaction the_force (the_topology c)) ->
  (forall o o', same_geometry o o' ->
     box_energy the_force (the_topology c) (x_size c) (y_size c) o
     = box_energy the_force (the_topology c) (x_size c) (y_size c) o') ->
  energy the_force c =
  (mk_config (x_size c) (y_size c) true (sum_cached (recomputed the_force c))
     (recomputed the_force c) (the_topology c) (is_periodic c),
   (sum_cached (recomputed the_force c) / d_two)%dbl).
Proof.
  intros Hu Hback Hg Hbox. rewrite (energy_changed _ _ Hu).
  destruct (turns_invariant the_force c (length (obj_list c)) (le_n _))
    as (Hlen & _ & _ & Hsum). cbv zeta in Hlen, Hsum.
  assert (Hl : objects_at_turn the_force c (length (obj_list c))
               = recomputed the_force c).
  { rewrite (turns_restored the_force c _ Hback Hg Hbox (le_n _)).
    unfold recomputed. apply list_eq; intros i. rewrite !list_lookup_imap.
    destruct (obj_list c !! i) eqn:Ho; simpl; [|reflexivity].
    rewrite bool_decide_true; [reflexivity|]. eapply lookup_lt_Some; eauto. }
  rewrite Hsum. rewrite take_ge by lia.
  fold (objects_at_turn the_force c (length (obj_list c))).
  rewrite Hl. reflexivity.
Qed.

(** C1, amended: with [unchanged] true, [energy] returns half of
    [saved_energy] and changes nothing.  With [unchanged] false, where
    every partner comes back to its place and the pair and wall energies
    depend on type, centre and orientation only: an object that was
    flagged gets, through [set_energy], its E_i, the sum in list order of
    its interactions with every other object of the configuration (each
    taken at the image that the inner loop chooses when the box is
    periodic) plus the wall term when the box is not periodic, and its
    flag is cleared; an object that was not flagged is left as it was;
    type, centre and orientation of every object are as on entry;
    [saved_energy] becomes the sum of the cached energies of all objects
    in list order, [unchanged] becomes true, the other fields are kept and
    half of [saved_energy] is returned. *)
Theorem energy_recomputes_flagged the_force c :
  (unchanged c = true ->
   energy the_force c = (c, (saved_energy c / d_two)%dbl)) /\
  (unchanged c = false ->
   restores_partners c ->
   geometric (interaction the_force (the_topology c)) ->
   (forall o o', same_geometry o o' ->
      box_energy the_force (the_topology c) (x_size c) (y_size c) o
      = box_energy the_force (the_topology c) (x_size c) (y_size c) o') ->
   let c' := (energy the_force c).1 in
   (energy the_force c).2 = (saved_energy c' / d_two)%dbl /\
   saved_energy c' = sum_cached (obj_list c') /\
   unchanged c' = true /\
   x_size c' = x_size c /\ y_size c' = y_size c /\
   the_topology c' = the_topology c /\ is_periodic c' = is_periodic c /\
   length (obj_list c') = length (obj_list c) /\
   forall i o, obj_list c !! i = Some o ->
     obj_list c' !! i =
     Some (if recalculate o
           then set_energy o
                  (if is_periodic c
                   then pair_sum the_force c (obj_list c) i o
                   else (pair_sum the_force c (obj_list c) i o
                         + box_energy the_force (the_topology c)
                             (x_size c) (y_size c) o)%dbl)
           else o)).
Proof.
  split; [apply energy_unchanged|].
  intros Hu Hback Hg Hbox. cbv zeta.
  rewrite (energy_restored the_force c Hu Hback Hg Hbox). cbn [fst snd].
  cbn [saved_energy unchanged x_size y_size the_topology is_periodic obj_list].
  repeat split.
  - unfold recomputed. apply length_imap.
  - intros i o Ho. unfold recomputed. rewrite list_lookup_imap, Ho. reflexivity.
Qed.

(** With [unchanged] false, where every partner comes back to its place and
    the energies depend on type, centre and orientation only, a flagged
    object gets the E_i of the configuration as it was on entry. *)
Theorem energy_from_entry_state the_force c :
  unchanged c = false ->
  restores_partners c ->
  geometric (interaction the_force (the_topology c)) ->
  (forall o o', same_geometry o o' ->
     box_energy the_force (the_topology c) (x_size c) (y_size c) o
     = box_energy the_force (the_topology c) (x_size c) (y_size c) o') ->
  forall i o, obj_list c !! i = Some o -> recalculate o = true ->
    exists o',
      obj_list (energy the_force c).1 !! i = Some o' /\
      cached_energy o' = object_energy the_force c (obj_list c) i o.
Proof.
  intros Hu Hback Hg Hbox i o Ho Hflag.
  rewrite (energy_restored the_force c Hu Hback Hg Hbox). cbn [fst obj_list].
  unfold recomputed. rewrite list_lookup_imap, Ho. simpl.
  eexists. split; [reflexivity|]. unfold refreshed. rewrite Hflag. reflexivity.
Qed.

(** Where the flags are right, [energy] gives the full double sum.  With
    [unchanged] false, every partner coming back to its place and energies
    that depend on type, centre and orientation only: if every object that
    is not flagged holds the E_i of the configuration as it is, then after
    the call every object holds its E_i, [saved_energy] is their sum in
    list order and the value returned is half of it. *)
Theorem energy_full_sum the_force c :
  unchanged c = false ->
  restores_partners c ->
  geometric (interaction the_force (the_topology c)) ->
  (forall o o', same_geometry o o' ->
     box_energy the_force (the_topology c) (x_size c) (y_size c) o
     = box_energy the_force (the_topology c) (x_size c) (y_size c) o') ->
  (forall i o, obj_list c !! i = Some o -> recalculate o = false ->
     cached_energy o = object_energy the_force c (obj_list c) i o) ->
  let c' := (energy the_force c).1 in
  let E := imap (fun i o => object_energy the_force c (obj_list c) i o) (obj_list c) in
  cached_energy <$> obj_list c' = E /\
  saved_energy c' = fold_left d_add E d_zero /\
  (energy the_force c).2 = (fold_left d_add E d_zero / d_two)%dbl.
Proof.
  intros Hu Hback Hg Hbox Hvalid. cbv zeta.
  rewrite (energy_restored the_force c Hu Hback Hg Hbox).
  cbn [fst snd obj_list saved_energy].
  assert (Hcached :
    cached_energy <$> recomputed the_force c
    = imap (fun i o => object_energy the_force c (obj_list c) i o) (obj_list c)).
  { apply list_eq; intros i. unfold recomputed.
    rewrite list_lookup_fmap, !list_lookup_imap.
    destruct (obj_list c !! i) as [o|] eqn:Ho; simpl; [|reflexivity].
    f_equal. unfold refreshed.
    destruct (recalculate o) eqn:Hflag; simpl; [reflexivity|].
    apply Hvalid; auto. }
  unfold sum_cached. rewrite Hcached. auto.
Qed.

End EnergyRestored.

Lemma seam_pair_restores : restores_partners seam_pair.
Proof.
  intros i j oi oj Hne Hi Hj _.
  destruct i as [|[|i]]; simpl in Hi; try discriminate; injection Hi as <-;
    (destruct j as [|[|j]]; simpl in Hj; try discriminate; try congruence;
     injection Hj as <-); reflexivity.
Qed.

Lemma seam_pair_moved_restores : restores_partners seam_pair_moved.
Proof.
  intros i j oi oj Hne Hi Hj Hf.
  destruct i as [|[|i]]; simpl in Hi; try discriminate; injection Hi as <-;
    try discriminate Hf;
    (destruct j as [|[|j]]; simpl in Hj; try discriminate; try congruence;
     injection Hj as <-); reflexivity.
Qed.

Lemma energy_recomputes_flagged_witness :
  unchanged seam_pair = false /\
  restores_partners seam_pair /\
  obj_list (energy (EN := discs64) big seam_pair).1 !! 1%nat
  = Some (set_energy (mk_object 0 9.75 5 0 0 true)
            (pair_sum (EN := discs64) big seam_pair (obj_list seam_pair) 1
               (mk_object 0 9.75 5 0 0 true)))%float /\
  pair_sum (EN := discs64) big seam_pair (obj_list seam_pair) 1
    (mk_object 0 9.75 5 0 0 true)%float = big /\
  energy (EN := discs64) big seam_pair
  = (mk_config 10 10 true 2000000
       [mk_object 0 0.5 5 0 1000000 false; mk_object 0 9.75 5 0 1000000 false]
       None true, 1000000)%float.
Proof.
  split; [reflexivity|]. split; [exact seam_pair_restores|].
  split; [|split; reflexivity].
  destruct (proj2 (energy_recomputes_flagged (EN := discs64) big seam_pair)
              eq_refl seam_pair_restores
              (proj1 (hard_discs_geometric big None))
              (proj2 (hard_discs_geometric big None) _ _))
    as (_ & _ & _ & _ & _ & _ & _ & _ & H).
  exact (H 1%nat _ eq_refl).
Defined.

Lemma energy_from_entry_state_witness :
  unchanged seam_pair = false /\
  restores_partners seam_pair /\
  exists o',
    obj_list (energy (EN := discs64) big seam_pair).1 !! 0%nat = Some o' /\
    cached_energy o'
    = object_energy (EN := discs64) big seam_pair (obj_list seam_pair) 0
        (mk_object 0 0.5 5 0 0 true)%float.
Proof.
  split; [reflexivity|]. split; [exact seam_pair_restores|].
  exact (energy_from_entry_state (EN := discs64) big seam_pair
           eq_refl seam_pair_restores
           (proj1 (hard_discs_geometric big None))
           (proj2 (hard_discs_geometric big None) _ _)
           0 _ eq_refl eq_refl).
Defined.

Lemma energy_full_sum_witness :
  unchanged seam_pair_moved = false /\
  restores_partners seam_pair_moved /\
  cached_energy <$> obj_list (energy (EN := discs64) big seam_pair_moved).1
  = imap (fun i o => object_energy (EN := discs64) big seam_pair_moved
                       (obj_list seam_pair_moved) i o) (obj_list seam_pair_moved).
Proof.
  split; [reflexivity|]. split; [exact seam_pair_moved_restores|].
  refine (proj1 (energy_full_sum (EN := discs64) big seam_pair_moved eq_refl
            seam_pair_moved_restores
            (proj1 (hard_discs_geometric big None))
            (proj2 (hard_discs_geometric big None) _ _) _)).
  intros i o Ho Hf.
  destruct i as [|[|i]]; simpl in Ho; try discriminate; injection Ho as <-;
    [discriminate Hf | reflexivity].
Defined.

(** ** [config::object_types] *)

Section ObjectTypes.
Context {D : Type} {AD : Double D} {EN : Energetics D} {OB : ObjectOps D}.
Implicit Types (c : config) (l : list (object D)) (o : object D).

Lemma max_type_loop l n :
  n <= length l ->
  for_upto n
    (fun max_type i =>
       match l !! i with
       | Some o => Z.max max_type (o_type o)
       | None => max_type
       end) (-1)%Z
  = fold_left Z.max (o_type <$> take n l) (-1)%Z.
Proof.
  induction n as [|n IH]; intros Hn.
  - reflexivity.
  - rewrite for_upto_S, IH by lia.
    destruct (lookup_lt_is_Some_2 l n) as [o Ho]; [lia|].
    rewrite Ho, (take_S_r _ _ _ Ho), fmap_app, fold_left_app. reflexivity.
Qed.

Lemma max_type_fold c : max_type c = fold_left Z.max (o_type <$> obj_list c) (-1)%Z.
Proof. unfold max_type. rewrite max_type_loop by lia. rewrite take_ge by lia. reflexivity. Qed.

Lemma fold_max_bounds (ts : list Z) (m0 : Z) :
  (m0 <= fold_left Z.max ts m0)%Z /\
  (forall t, t ∈ ts -> (t <= fold_left Z.max ts m0)%Z) /\
  (fold_left Z.max ts m0 = m0 \/ fold_left Z.max ts m0 ∈ ts).
Proof.
  revert m0. induction ts as [|t ts IH]; intros m0; simpl.
  - split; [lia|]. split; [|left; reflexivity].
    intros t Ht. inversion Ht.
  - destruct (IH (Z.max m0 t)) as (H1 & H2 & H3).
    split; [lia|]. split.
    + intros t' Ht'. apply elem_of_cons in Ht' as [->|Ht']; [lia | auto].
    + destruct H3 as [H3|H3].
      * rewrite H3. destruct (Z.max_spec m0 t) as [[_ ->]|[_ ->]].
        -- right. apply elem_of_cons. left. reflexivity.
        -- left. reflexivity.
      * right. apply elem_of_cons. right. exact H3.
Qed.

(** [object_types] gives the highest type number found in the
    configuration, which is not the number of types; where no object has a
    type of 0 or more, in particular in a configuration without objects,
    the [assert] of line 233 fails. *)
Theorem object_types_highest c :
  (forall m, object_types c = Some m <->
     (0 <= m)%Z /\ (exists o, o ∈ obj_list c /\ o_type o = m) /\
     (forall o, o ∈ obj_list c -> (o_type o <= m)%Z)) /\
  (object_types c = None <-> forall o, o ∈ obj_list c -> (o_type o < 0)%Z).
Proof.
  unfold object_types, check. rewrite max_type_fold.
  destruct (fold_max_bounds (o_type <$> obj_list c) (-1)%Z) as (H1 & H2 & H3).
  set (m' := fold_left Z.max (o_type <$> obj_list c) (-1)%Z) in *.
  assert (Hle : forall o, o ∈ obj_list c -> (o_type o <= m')%Z).
  { intros o Ho. apply H2. apply list_elem_of_fmap. exists o. auto. }
  split.
  - intros m. destruct (0 <=? m')%Z eqn:Hm; [apply Z.leb_le in Hm | apply Z.leb_gt in Hm].
    + split.
      * intros [= <-]. split; [lia|]. split; [|exact Hle].
        destruct H3 as [H3|H3]; [lia|].
        apply list_elem_of_fmap in H3 as (o & Ho & Hin). exists o. auto.
      * intros (Hm0 & (o & Ho & Hom) & Hall). f_equal.
        destruct H3 as [H3|H3]; [lia|].
        apply list_elem_of_fmap in H3 as (o' & Ho' & Hin').
        specialize (Hall o' Hin'). specialize (Hle o Ho). lia.
    + split; [discriminate|].
      intros (Hm0 & (o & Ho & Hom) & Hall). specialize (Hle o Ho). lia.
  - destruct (0 <=? m')%Z eqn:Hm; [apply Z.leb_le in Hm | apply Z.leb_gt in Hm].
    + split; [discriminate|]. intros Hall.
      destruct H3 as [H3|H3]; [lia|].
      apply list_elem_of_fmap in H3 as (o' & Ho' & Hin').
      specialize (Hall o' Hin'). lia.
    + split; [|reflexivity]. intros _ o Ho. specialize (Hle o Ho). lia.
Qed.

End ObjectTypes.

Section TypesKept.
Context {D : Type} {AD : Double D} {EN : Energetics D} {OB : ObjectOps D}.
Implicit Types (c : config) (l : list (object D)) (o : object D).

Lemma object_types_by_types c c' :
  o_type <$> obj_list c' = o_type <$> obj_list c -> object_types c' = object_types c.
Proof. intros H. unfold object_types, check. rewrite !max_type_fold, H. reflexivity. Qed.

Lemma energy_keeps_types the_force c :
  o_type <$> obj_list (energy the_force c).1 = o_type <$> obj_list c.
Proof.
  destruct (unchanged c) eqn:Hu.
  - rewrite (energy_unchanged _ _ Hu). reflexivity.
  - rewrite (energy_changed _ _ Hu). simpl.
    destruct (turns_invariant the_force c (length (obj_list c)) (le_n _))
      as (Hlen & _). cbv zeta in Hlen.
    apply list_eq; intros i. rewrite !list_lookup_fmap.
    destruct (obj_list c !! i) as [o|] eqn:Ho.
    + destruct (final_object the_force c i o Ho)
        as (oi & o' & _ & (Ht0 & _) & -> & (Ht & _)).
      simpl. f_equal. rewrite Ht. unfold refreshed.
      destruct (recalculate oi); simpl; exact Ht0.
    + apply lookup_ge_None in Ho.
      rewrite (proj2 (lookup_ge_None _ i)); [reflexivity|].
      unfold objects_at_turn. lia.
Qed.

(** The answer of [object_types] is the same after [energy], [expand],
    [invalidate_within] and [add_topology], and the same for a copy. *)
Theorem object_types_kept the_force dl dist index a_topology c :
  object_types (energy the_force c).1 = object_types c /\
  object_types (expand dl c) = object_types c /\
  object_types (config_copy c) = object_types c /\
  object_types (add_topology a_topology c) = object_types c /\
  (forall c', invalidate_within dist index c = Some c' ->
     object_types c' = object_types c).
Proof.
  split; [apply object_types_by_types, energy_keeps_types|].
  split.
  { apply object_types_by_types. rewrite expand_obj_list, <- list_fmap_compose.
    reflexivity. }
  split.
  { apply object_types_by_types. unfold config_copy. simpl.
    rewrite copy_loop by lia. rewrite take_ge by lia.
    rewrite <- list_fmap_compose. reflexivity. }
  split; [reflexivity|].
  intros c'. unfold invalidate_within.
  destruct (obj_list c !! index) as [ok|] eqn:Hk; [|discriminate].
  intros [= <-]. apply object_types_by_types. simpl.
  unfold n_objects. rewrite (invalidate_loop c dist index ok) by (auto; lia).
  apply list_eq; intros i. rewrite !list_lookup_fmap, list_lookup_imap.
  destruct (obj_list c !! i) as [o|]; simpl; [|reflexivity].
  destruct (bool_decide (i < length (obj_list c)) && within c dist index ok i o);
    reflexivity.
Qed.

End TypesKept.

(** ** [config::add_object], the copy constructor and [config::invalidate_within] *)

Section Assembling.
Context {D : Type} {AD : Double D} {EN : Energetics D} {OB : ObjectOps D}.
Implicit Types (c : config) (l : list (object D)) (o : object D).

Lemma add_objects_list c l :
  fold_left (fun c o => add_object o c) l c = with_objects c (obj_list c ++ l).
Proof.
  revert c. induction l as [|o l IH]; intros c; simpl.
  - rewrite app_nil_r. destruct c; reflexivity.
  - rewrite IH. unfold with_objects, add_object. simpl.
    rewrite <- app_assoc. reflexivity.
Qed.

(** [add_object] appends and touches nothing else, [unchanged] and
    [saved_energy] included: on a configuration whose [unchanged] is true,
    [energy] after any number of additions still returns half of the old
    [saved_energy], whatever has been added.  For a configuration made by
    [config()] that is 0 / 2. *)
Theorem add_object_keeps_energy the_force c l :
  let c' := fold_left (fun c o => add_object o c) l c in
  obj_list c' = obj_list c ++ l /\
  n_objects c' = n_objects c + length l /\
  (unchanged c = true ->
   energy the_force c' = (c', (saved_energy c / d_two)%dbl)) /\
  energy the_force (fold_left (fun c o => add_object o c) l config_default)
  = (fold_left (fun c o => add_object o c) l config_default,
     (d_zero / d_two)%dbl).
Proof.
  cbv zeta. rewrite !add_objects_list. simpl.
  split; [reflexivity|]. split; [unfold n_objects; simpl; apply length_app|].
  split; [|reflexivity].
  intros Hu. unfold energy. simpl. rewrite Hu. reflexivity.
Qed.

(** A copy of a copy is the copy. *)
Theorem config_copy_idempotent c : config_copy (config_copy c) = config_copy c.
Proof.
  assert (Hl : forall c0, obj_list (config_copy c0) = copied <$> obj_list c0).
  { intros c0. unfold config_copy. simpl. rewrite copy_loop by lia.
    rewrite take_ge by lia. reflexivity. }
  assert (Heq : forall c0,
            config_copy c0 =
            mk_config (x_size c0) (y_size c0) (unchanged c0) (saved_energy c0)
                      (copied <$> obj_list c0) (Some default_topology)
                      (is_periodic c0)).
  { intros c0. rewrite <- Hl. reflexivity. }
  rewrite (Heq (config_copy c)), (Heq c). simpl.
  rewrite <- list_fmap_compose. reflexivity.
Qed.

End Assembling.

Section InvalidateTwice.
Context {D : Type} {AD : Double D} {EN : Energetics D} {OB : ObjectOps D}.
Implicit Types (c : config) (l : list (object D)) (o : object D).

Lemma invalidate_within_list dist index c ok :
  obj_list c !! index = Some ok ->
  invalidate_within dist index c =
  Some (with_objects c
          (imap (fun i o => if within c dist index ok i o
                            then set_recalculate o true else o) (obj_list c))).
Proof.
  intros Hk. unfold invalidate_within. rewrite Hk. f_equal. f_equal.
  unfold n_objects. rewrite (invalidate_loop c dist index ok) by (auto; lia).
  apply list_eq; intros i. rewrite !list_lookup_imap.
  destruct (obj_list c !! i) as [o|] eqn:Ho; simpl; [|reflexivity].
  rewrite bool_decide_true by (eapply lookup_lt_Some; eauto). reflexivity.
Qed.

Lemma invalidate_within_none dist index c :
  obj_list c !! index = None -> invalidate_within dist index c = None.
Proof. intros Hk. unfold invalidate_within. rewrite Hk. reflexivity. Qed.

Lemma set_recalculate_eta o : set_recalculate o (recalculate o) = o.
Proof. destruct o; reflexivity. Qed.

(** Where [object::distance] does not depend on the [recalculate] flags
    of the two objects, two calls of [invalidate_within] flag the objects
    that either flags: they give the same configuration in either order,
    and a call repeated changes nothing more. *)
Theorem invalidate_within_twice d1 k1 d2 k2 c :
  (forall o1 o2 b1 b2 Lx Ly p,
     distance (set_recalculate o1 b1) (set_recalculate o2 b2) Lx Ly p
     = distance o1 o2 Lx Ly p) ->
  (invalidate_within d1 k1 c ≫= invalidate_within d2 k2
   = invalidate_within d2 k2 c ≫= invalidate_within d1 k1) /\
  (invalidate_within d1 k1 c ≫= invalidate_within d1 k1
   = invalidate_within d1 k1 c) /\
  (forall ok1 ok2,
     obj_list c !! k1 = Some ok1 -> obj_list c !! k2 = Some ok2 ->
     invalidate_within d1 k1 c ≫= invalidate_within d2 k2
     = Some (with_objects c
               (imap (fun i o =>
                        if within c d1 k1 ok1 i o || within c d2 k2 ok2 i o
                        then set_recalculate o true else o) (obj_list c)))).
Proof.
  intros Hd.
  assert (Hflag : forall o (b : bool),
            (if b then set_recalculate o true else o)
            = set_recalculate o (b || recalculate o)).
  { intros o [|]; [reflexivity | symmetry; apply set_recalculate_eta]. }
  assert (Hwithin : forall c' dist k ok i o b1 b2,
            x_size c' = x_size c -> y_size c' = y_size c ->
            is_periodic c' = is_periodic c ->
            within c' dist k (set_recalculate ok b1) i (set_recalculate o b2)
            = within c dist k ok i o).
  { intros c' dist k ok i o b1 b2 Hx Hy Hp. unfold within.
    rewrite Hx, Hy, Hp, Hd. reflexivity. }
  assert (Hboth : forall da ka db kb oka okb,
     obj_list c !! ka = Some oka -> obj_list c !! kb = Some okb ->
     invalidate_within da ka c ≫= invalidate_within db kb
     = Some (with_objects c
               (imap (fun i o =>
                        if within c da ka oka i o || within c db kb okb i o
                        then set_recalculate o true else o) (obj_list c)))).
  { intros da ka db kb oka okb Ha Hb.
    rewrite (invalidate_within_list da ka c oka Ha). simpl.
    erewrite invalidate_within_list.
    2:{ simpl. rewrite list_lookup_imap, Hb. simpl. reflexivity. }
    f_equal. unfold with_objects. simpl. f_equal.
    apply list_eq; intros i. rewrite !list_lookup_imap.
    destruct (obj_list c !! i) as [o|]; simpl; [|reflexivity].
    f_equal. rewrite !Hflag.
    rewrite (Hwithin _ db kb okb i o) by reflexivity.
    destruct (within c da ka oka i o), (within c db kb okb i o);
      destruct o as [t x y a e [|]]; reflexivity. }
  assert (Hnone : forall da ka db kb,
     obj_list c !! ka = None ->
     invalidate_within da ka c ≫= invalidate_within db kb = None /\
     invalidate_within db kb c ≫= invalidate_within da ka = None).
  { intros da ka db kb Ha. split.
    - rewrite (invalidate_within_none da ka c Ha). reflexivity.
    - destruct (obj_list c !! kb) as [okb|] eqn:Hb.
      + rewrite (invalidate_within_list db kb c okb Hb).
        match goal with
        | |- Some ?c' ≫= _ = None =>
            assert (Hc' : obj_list c' !! ka = None)
              by (unfold with_objects; cbn [obj_list];
                  rewrite list_lookup_imap, Ha; reflexivity);
            change (invalidate_within da ka c' = None);
            apply invalidate_within_none, Hc'
        end.
      + rewrite (invalidate_within_none db kb c Hb). reflexivity. }
  split; [|split].
  - destruct (obj_list c !! k1) as [ok1|] eqn:H1.
    + destruct (obj_list c !! k2) as [ok2|] eqn:H2.
      * rewrite (Hboth d1 k1 d2 k2 ok1 ok2 H1 H2), (Hboth d2 k2 d1 k1 ok2 ok1 H2 H1).
        f_equal. f_equal. apply list_eq; intros i. rewrite !list_lookup_imap.
        destruct (obj_list c !! i) as [o|]; simpl; [|reflexivity].
        rewrite orb_comm. reflexivity.
      * destruct (Hnone d2 k2 d1 k1 H2) as [Ha Hb]. rewrite Ha, Hb. reflexivity.
    + destruct (Hnone d1 k1 d2 k2 H1) as [Ha Hb]. rewrite Ha, Hb. reflexivity.
  - destruct (obj_list c !! k1) as [ok1|] eqn:H1.
    + rewrite (Hboth d1 k1 d1 k1 ok1 ok1 H1 H1).
      rewrite (invalidate_within_list d1 k1 c ok1 H1).
      f_equal. f_equal. apply list_eq; intros i. rewrite !list_lookup_imap.
      destruct (obj_list c !! i) as [o|]; simpl; [|reflexivity].
      rewrite orb_diag. reflexivity.
    + destruct (Hnone d1 k1 d1 k1 H1) as [Ha _]. rewrite Ha.
      symmetry. apply invalidate_within_none, H1.
  - intros ok1 ok2 H1 H2. apply Hboth; auto.
Qed.

End InvalidateTwice.

Lemma invalidate_within_twice_witness :
  invalidate_within (OB := drawn_moves) 1%float 0 three_discs
    ≫= invalidate_within (OB := drawn_moves) 3%float 2
  = invalidate_within (OB := drawn_moves) 3%float 2 three_discs
    ≫= invalidate_within (OB := drawn_moves) 1%float 0.
Proof.
  refine (proj1 (invalidate_within_twice (OB := drawn_moves) 1%float 0 3%float 2
                   three_discs _)).
  intros o1 o2 b1 b2 Lx Ly p. reflexivity.
Defined.

(** ** [config::ps_atoms] *)

Section PsAtomsCount.
Context {D : Type} {AD : Double D} {EN : Energetics D} {DR : Drawing D}.
Implicit Types (c : config) (o : object D).

Lemma ps_atom_length the_forces c top o j :
  1 <= length (ps_atom the_forces c top o j) <= 4.
Proof.
  unfold ps_atom. destruct (atom_centre top o j) as [x y].
  cbv zeta. rewrite !length_app.
  destruct (bool_decide _), (bool_decide _); simpl; lia.
Qed.

Lemma ps_atoms_of_object the_forces c top o n out :
  length out + n
  <= length (for_upto n (fun out j => out ++ ps_atom the_forces c top o j) out)
  <= length out + 4 * n.
Proof.
  induction n as [|n IH].
  - unfold for_upto. simpl. lia.
  - rewrite for_upto_S, length_app.
    pose proof (ps_atom_length the_forces c top o n). lia.
Qed.

Lemma ps_atoms_loop the_forces c top n :
  the_topology c = Some top -> n <= length (obj_list c) ->
  exists out,
    for_upto n
      (fun out i =>
         match out, obj_list c !! i with
         | Some out, Some my_obj =>
             match the_topology c with
             | Some top =>
                 Some (for_upto (Z.to_nat (n_atom top (o_type my_obj)))
                         (fun out j => out ++ ps_atom the_forces c top my_obj j)
                         out)
             | None => None
             end
         | _, _ => out
         end) (Some []) = Some out /\
    list_sum ((fun o => Z.to_nat (n_atom top (o_type o))) <$> take n (obj_list c))
    <= length out
    <= 4 * list_sum ((fun o => Z.to_nat (n_atom top (o_type o)))
                       <$> take n (obj_list c)).
Proof.
  intros Htop. induction n as [|n IH]; intros Hn.
  - exists []. split; [reflexivity|]. simpl. lia.
  - destruct IH as (out & Hout & Hlen); [lia|].
    rewrite for_upto_S, Hout.
    destruct (lookup_lt_is_Some_2 (obj_list c) n) as [o Ho]; [lia|].
    rewrite Ho, Htop. eexists. split; [reflexivity|].
    rewrite (take_S_r _ _ _ Ho), fmap_app, list_sum_app. simpl.
    pose proof (ps_atoms_of_object the_forces c top o
                  (Z.to_nat (n_atom top (o_type o))) out). lia.
Qed.

Lemma ps_atoms_null the_forces c n :
  the_topology c = None -> n <= length (obj_list c) ->
  for_upto n
    (fun out i =>
       match out, obj_list c !! i with
       | Some out, Some my_obj =>
           match the_topology c with
           | Some top =>
               Some (for_upto (Z.to_nat (n_atom top (o_type my_obj)))
                       (fun out j => out ++ ps_atom the_forces c top my_obj j)
                       out)
           | None => None
           end
       | _, _ => out
       end) (Some []) = if Nat.eqb n 0 then Some [] else None.
Proof.
  intros Htop. induction n as [|n IH]; intros Hn.
  - reflexivity.
  - rewrite for_upto_S, IH by lia.
    destruct (lookup_lt_is_Some_2 (obj_list c) n) as [o Ho]; [lia|].
    rewrite Ho, Htop. destruct n; reflexivity.
Qed.

(** [ps_atoms] needs a topology as soon as there is an object: on a
    configuration without one, as the constructors other than the copy
    constructor leave it, a null pointer is dereferenced.  With a
    topology, every atom gives one call of [fprintf] and up to three more
    for its copies across the borders. *)
Theorem ps_atoms_calls the_forces c :
  (the_topology c = None ->
   (ps_atoms the_forces c = None <-> obj_list c <> []) /\
   (obj_list c = [] -> ps_atoms the_forces c = Some [])) /\
  (forall top, the_topology c = Some top ->
     exists out,
       ps_atoms the_forces c = Some out /\
       atom_count top c <= length out <= 4 * atom_count top c).
Proof.
  split.
  - intros Htop. unfold ps_atoms. rewrite ps_atoms_null by (auto; lia).
    destruct (obj_list c) as [|o l]; simpl.
    + split; [split; [discriminate | congruence] | reflexivity].
    + split; [split; [discriminate | reflexivity] | discriminate].
  - intros top Htop. unfold ps_atoms, atom_count.
    destruct (ps_atoms_loop the_forces c top (length (obj_list c)) Htop (le_n _))
      as (out & Hout & Hlen).
    rewrite take_ge in Hlen by lia. exists out. auto.
Qed.

End PsAtomsCount.

Section PsAtomsExact.
Context {EN : Energetics Q} {DR : Drawing Q}.
Implicit Types (c : config) (o : object Q).

Lemma Qltb_lt (x y : Q) : Qltb x y = true <-> (x < y)%Q.
Proof. unfold Qltb, Qlt. apply Z.ltb_lt. Qed.

(** In exact arithmetic: a circle that crosses the right border, its
    centre [x] being beyond [x_size - r], is drawn a second time at
    [x - x_size], one box length to the left; one that crosses the left
    border only, [x] being less than [r], is drawn a second time at
    [x_size - x], which is [x + x_size] for no [x] but 0.  Likewise along
    y, in the third call. *)
Theorem ps_atom_copies the_forces c top o j :
  let x := (atom_centre top o j).1 in
  let y := (atom_centre top o j).2 in
  let r := ff_size the_forces (atom_type top (o_type o) j) in
  let out := ps_atom (AD := rational) the_forces c top o j in
  (out !! 0%nat
   = Some (mk_circle r x y (get_color the_forces (atom_type top (o_type o) j)))) /\
  ((x_size c - r < x)%Q ->
   exists copy, out !! 1%nat = Some copy /\ circle_r copy = r /\
     (circle_x copy == x - x_size c)%Q /\ circle_y copy = y) /\
  ((x < r)%Q -> ~ (x_size c - r < x)%Q ->
   exists copy, out !! 1%nat = Some copy /\ circle_r copy = r /\
     (circle_x copy == x_size c - x)%Q /\ circle_y copy = y /\
     ((circle_x copy == x + x_size c)%Q <-> (x == 0)%Q)) /\
  (~ (x < r)%Q -> ~ (x_size c - r < x)%Q ->
   forall copy, copy ∈ out -> circle_x copy = x).
Proof.
  cbv zeta. unfold ps_atom.
  destruct (atom_centre top o j) as [x y]. cbv zeta. cbn [fst snd].
  unfold border_side. cbv zeta.
  split; [reflexivity|].
  split; [|split].
  - intros Hr. apply Qltb_lt in Hr.
    change (@d_ltb Q rational) with Qltb. change (@d_sub Q rational) with Qminus.
    rewrite Hr. rewrite bool_decide_true by discriminate.
    eexists. split; [reflexivity|]. split; [reflexivity|].
    split; [|reflexivity]. simpl. ring.
  - intros Hl Hr. apply Qltb_lt in Hl.
    assert (Hr' : Qltb (x_size c - ff_size the_forces (atom_type top (o_type o) j)) x
                  = false).
    { destruct (Qltb _ x) eqn:H; [|reflexivity]. apply Qltb_lt in H. tauto. }
    change (@d_ltb Q rational) with Qltb. change (@d_sub Q rational) with Qminus.
    rewrite Hl, Hr'. rewrite bool_decide_true by discriminate.
    eexists. split; [reflexivity|]. split; [reflexivity|].
    simpl. split; [ring|]. split; [reflexivity|].
    split; intros H; lra.
  - intros Hl Hr copy.
    assert (Hl' : Qltb x (ff_size the_forces (atom_type top (o_type o) j)) = false).
    { destruct (Qltb x _) eqn:H; [|reflexivity]. apply Qltb_lt in H. tauto. }
    assert (Hr' : Qltb (x_size c - ff_size the_forces (atom_type top (o_type o) j)) x
                  = false).
    { destruct (Qltb _ x) eqn:H; [|reflexivity]. apply Qltb_lt in H. tauto. }
    change (@d_ltb Q rational) with Qltb. change (@d_sub Q rational) with Qminus.
    rewrite Hl', Hr'. rewrite (bool_decide_false (0%Z <> 0%Z)) by tauto.
    destruct (bool_decide _); simpl; rewrite ?elem_of_cons, ?elem_of_nil;
      intros H; repeat (destruct H as [H|H]); subst; try reflexivity; tauto.
Qed.

End PsAtomsExact.

(** ** The relief loop, from its outcome *)

Section ReliefOutcomes.
Context {D : Type} {AD : Double D} {EN : Energetics D} {OB : ObjectOps D}
        {IN : Integrator D}.
Implicit Types (st : config * D * rand_state).

(** The relief loop ends after the first batch that leaves the energy not
    above [big_energy], if that is one of the first 1001. *)
Lemma relief_ends the_forces beta P1 N1 U1 st (fuel k : nat) :
  (0 <= N1)%Z -> k <= 1001 -> k < fuel ->
  (forall j, j < k ->
     (big_energy the_forces
        <? (after_batches j the_forces beta P1 N1 U1 st).2)%dbl = true) ->
  (big_energy the_forces
     <? (after_batches k the_forces beta P1 N1 U1 st).2)%dbl = false ->
  relief fuel the_forces beta P1 N1 0 U1 st [] =
  Relief_done (after_batches k the_forces beta P1 N1 U1 st).1.1.1
    (after_batches k the_forces beta P1 N1 U1 st).1.1.2
    (after_batches k the_forces beta P1 N1 U1 st).2
    (2 * N1 * Z.of_nat k) (repeat (2 * N1)%Z k).
Proof.
  intros HN Hk Hfuel Habove Hend.
  replace fuel with (k + S (fuel - k - 1)) by lia.
  rewrite relief_unroll.
  - rewrite relief_step, Hend. simpl. f_equal.
  - intros j Hj. split; [auto|]. apply Z.ltb_ge. nia.
Qed.

(** The loop from its state after [k0] batches, each of which has left the
    energy above [big_energy]. *)
Lemma relief_from the_forces beta P1 N1 U0 st0 (fuel : nat) :
  forall (k0 : nat),
  (0 <= N1)%Z ->
  (forall j, j < k0 ->
     (big_energy the_forces
        <? (after_batches j the_forces beta P1 N1 U0 st0).2)%dbl = true) ->
  (k0 = 0 \/ (2 * N1 * (Z.of_nat k0 - 1) <= 2000 * N1)%Z) ->
  match relief fuel the_forces beta P1 N1 (2 * N1 * Z.of_nat k0)
          (after_batches k0 the_forces beta P1 N1 U0 st0).2
          (after_batches k0 the_forces beta P1 N1 U0 st0).1
          (repeat (2 * N1)%Z k0) with
  | Relief_done current_state dl_max U1 i batches =>
      exists k,
        batches = repeat (2 * N1)%Z k /\ i = (2 * N1 * Z.of_nat k)%Z /\
        (big_energy the_forces <? U1)%dbl = false /\
        (after_batches k the_forces beta P1 N1 U0 st0).2 = U1 /\
        (after_batches k the_forces beta P1 N1 U0 st0).1.1.1 = current_state /\
        (after_batches k the_forces beta P1 N1 U0 st0).1.1.2 = dl_max /\
        forall j, j < k ->
          (big_energy the_forces
             <? (after_batches j the_forces beta P1 N1 U0 st0).2)%dbl = true
  | Relief_fatal i batches =>
      (0 < N1)%Z /\ batches = repeat (2 * N1)%Z 1001 /\ i = (2002 * N1)%Z /\
      forall j, j <= 1001 ->
        (big_energy the_forces
           <? (after_batches j the_forces beta P1 N1 U0 st0).2)%dbl = true
  | Relief_out_of_fuel => True
  end.
Proof.
  induction fuel as [|fuel IH]; intros k0 HN Habove Hk0; [exact I|].
  rewrite relief_step.
  destruct (big_energy the_forces
              <? (after_batches k0 the_forces beta P1 N1 U0 st0).2)%dbl eqn:Hb.
  - destruct (2000 * N1 <? 2 * N1 * Z.of_nat k0)%Z eqn:Hi;
      [apply Z.ltb_lt in Hi | apply Z.ltb_ge in Hi].
    + assert (HN1 : (0 < N1)%Z) by nia.
      assert (k0 = 1001) as -> by (destruct Hk0 as [->|Hk0]; [lia | nia]).
      split; [exact HN1|]. split; [reflexivity|]. split; [lia|].
      intros j Hj. destruct (decide (j = 1001)) as [->|Hne]; [exact Hb|].
      apply Habove. lia.
    + replace (2 * N1 * Z.of_nat k0 + 2 * N1)%Z
        with (2 * N1 * Z.of_nat (S k0))%Z by lia.
      replace (repeat (2 * N1)%Z k0 ++ [(2 * N1)%Z])
        with (repeat (2 * N1)%Z (S k0))
        by (simpl; apply repeat_cons).
      apply (IH (S k0) HN).
      * intros j Hj. destruct (decide (j = k0)) as [->|Hne]; [exact Hb|].
        apply Habove. lia.
      * right. lia.
  - exists k0. repeat split; auto.
Qed.

(** What an outcome of the relief loop tells, for a number of objects that
    is not negative and for which [2002 * N1], the highest value of the
    counter [i], is within the range of [int]: where the loop ends without
    the fatal error, as many batches of [2 * N1] steps were run as it took
    for the energy not to be above [big_energy], and it is not above it
    then; the fatal error comes with objects only, after exactly 1001
    batches and [2002 * N1] steps, each batch having left the energy above
    [big_energy].  Without objects there is no fatal error. *)
Theorem relief_outcomes the_forces beta P1 N1 U1 st fuel :
  (0 <= N1)%Z -> (2002 * N1 <= 2147483647)%Z ->
  match relief fuel the_forces beta P1 N1 0 U1 st [] with
  | Relief_done current_state dl_max U1' i batches =>
      exists k,
        batches = repeat (2 * N1)%Z k /\ i = (2 * N1 * Z.of_nat k)%Z /\
        (big_energy the_forces <? U1')%dbl = false /\
        (after_batches k the_forces beta P1 N1 U1 st).2 = U1' /\
        (after_batches k the_forces beta P1 N1 U1 st).1.1.1 = current_state /\
        (after_batches k the_forces beta P1 N1 U1 st).1.1.2 = dl_max /\
        forall j, j < k ->
          (big_energy the_forces
             <? (after_batches j the_forces beta P1 N1 U1 st).2)%dbl = true
  | Relief_fatal i batches =>
      (0 < N1)%Z /\ batches = repeat (2 * N1)%Z 1001 /\ i = (2002 * N1)%Z /\
      forall j, j <= 1001 ->
        (big_energy the_forces
           <? (after_batches j the_forces beta P1 N1 U1 st).2)%dbl = true
  | Relief_out_of_fuel => True
  end.
Proof.
  intros HN _.
  pose proof (relief_from the_forces beta P1 N1 U1 st fuel 0 HN) as H.
  replace (2 * N1 * Z.of_nat 0)%Z with 0%Z in H by lia.
  apply H; [intros j Hj; lia | left; reflexivity].
Qed.

End ReliefOutcomes.

Lemma relief_outcomes_witness :
  (0 <= 3)%Z /\ (2002 * 3 <= 2147483647)%Z /\
  relief (EN := discs64) (OB := drawn_moves) (IN := rejecting) 1002 big
    1%float 1%float 3 0 (3 * big)%float (three_on_a_spot, 5%float, []) []
  = Relief_fatal 6006 (repeat 6%Z 1001) /\
  (big_energy (Energetics := discs64) big
     <? (after_batches (EN := discs64) (OB := drawn_moves) (IN := rejecting) 1001
           big 1%float 1%float 3 (3 * big)%float
           (three_on_a_spot, 5%float, [])).2)%dbl = true.
Proof.
  assert (H0 : (0 <= 3)%Z) by lia.
  assert (H1 : (2002 * 3 <= 2147483647)%Z) by lia.
  split; [exact H0|]. split; [exact H1|].
  pose proof (relief_outcomes (EN := discs64) (OB := drawn_moves) (IN := rejecting)
                big 1%float 1%float 3 (3 * big)%float
                (three_on_a_spot, 5%float, []) 1002 H0 H1) as H.
  assert (Hr : relief (EN := discs64) (OB := drawn_moves) (IN := rejecting) 1002 big
                 1%float 1%float 3 0 (3 * big)%float (three_on_a_spot, 5%float, []) []
               = Relief_fatal 6006 (repeat 6%Z 1001))
    by (vm_compute; reflexivity).
  split; [exact Hr|].
  rewrite Hr in H. destruct H as (_ & _ & _ & H). apply H. lia.
Defined.

(** ** The Monte Carlo loop *)

Section MonteCarloLoop.
Context {D : Type} {AD : Double D} {EN : Energetics D} {OB : ObjectOps D}
        {SA : Sampler D} {CV : Conversions D}.
Implicit Types (st : integrator * config * rand_state).

Lemma mc_loop_step fuel the_forces beta P1 it_max i step st out batches :
  mc_loop (S fuel) the_forces beta P1 it_max i step st out batches =
  if (i <? it_max)%Z then
    mc_loop fuel the_forces beta P1 it_max (i + Z.min step (it_max - i))
      (Z.min step (it_max - i)) (mc_batch the_forces beta P1 step st).1
      (out ++ [mc_report beta P1 i step (mc_batch the_forces beta P1 step st)])
      (batches ++ [step])
  else Some (st, out, batches).
Proof. reflexivity. Qed.

(** The reports of the batches [m], ..., [m + r - 1] of [s] steps each. *)
Lemma mc_loop_from the_forces beta P1 it_max s (r : nat) :
  forall (m : nat) fuel st out batches,
  (0 < s)%Z -> 0 < r ->
  (s * Z.of_nat (m + r - 1) < it_max)%Z -> (it_max <= s * Z.of_nat (m + r))%Z ->
  r < fuel ->
  exists out',
    mc_loop fuel the_forces beta P1 it_max (s * Z.of_nat m) s st out batches
    = Some (Nat.iter r (fun st => (mc_batch the_forces beta P1 s st).1) st,
            out ++ out', batches ++ repeat s r) /\
    omap reported_steps out'
    = (fun j => (s * Z.of_nat (S j))%Z) <$> seq m r.
Proof.
  induction r as [|r IH]; intros m fuel st out batches Hs Hr Hlt Hge Hfuel; [lia|].
  destruct fuel as [|fuel]; [lia|].
  rewrite mc_loop_step.
  replace (s * Z.of_nat m <? it_max)%Z with true by (symmetry; apply Z.ltb_lt; nia).
  destruct r as [|r].
  - (* the last batch *)
    replace (m + 1 - 1) with m in Hlt by lia.
    assert (Hmin : Z.min s (it_max - s * Z.of_nat m) = (it_max - s * Z.of_nat m)%Z) by nia.
    rewrite Hmin.
    replace (s * Z.of_nat m + (it_max - s * Z.of_nat m))%Z with it_max by lia.
    destruct fuel as [|fuel]; [lia|].
    rewrite mc_loop_step. rewrite Z.ltb_irrefl.
    eexists. split; [reflexivity|].
    unfold mc_report. simpl.
    destruct (mc_batch the_forces beta P1 s st) as [[[it' c'] g'] U1]. simpl.
    f_equal. nia.
  - assert (Hmin : Z.min s (it_max - s * Z.of_nat m) = s) by nia.
    rewrite Hmin.
    replace (s * Z.of_nat m + s)%Z with (s * Z.of_nat (S m))%Z by nia.
    destruct (IH (S m) fuel (mc_batch the_forces beta P1 s st).1
                 (out ++ [mc_report beta P1 (s * Z.of_nat m) s
                            (mc_batch the_forces beta P1 s st)])
                 (batches ++ [s]) Hs ltac:(lia))
      as (out' & Hloop & Hout).
    + replace (S m + S r - 1) with (m + S (S r) - 1) by lia. exact Hlt.
    + replace (S m + S r) with (m + S (S r)) by lia. exact Hge.
    + lia.
    + rewrite Hloop. eexists. split.
      * rewrite (Nat.iter_succ_r (S r)). rewrite <- !app_assoc. reflexivity.
      * rewrite omap_app, Hout.
        change (seq m (S (S r))) with (m :: seq (S m) (S r)).
        rewrite fmap_cons. unfold mc_report.
        destruct (mc_batch the_forces beta P1 s st) as [[[it' c'] g'] U1].
        simpl. f_equal. nia.
Qed.

(** The Monte Carlo loop ends, after [k] calls of [run] where [k] is
    [it_max / s] rounded up and [s] the smaller of [n_print] and [it_max];
    every call is for [s] steps, the shortened [step] of line 258 being
    assigned when the loop is about to end.  The steps run are [k * s], at
    least [it_max] and more than [it_max] unless [s] divides it; the
    reports give [s], [2 s], ..., [k s] steps. *)
Theorem mc_loop_batches the_forces beta P1 it_max n_print st out fuel :
  let s := Z.min n_print it_max in
  let k := ((it_max + s - 1) / s)%Z in
  (1 <= it_max)%Z -> (1 <= n_print)%Z -> (k * s <= 2147483647)%Z ->
  Z.to_nat k < fuel ->
  (it_max <= k * s < it_max + s)%Z /\
  ((k * s)%Z = it_max <-> (s | it_max)%Z) /\
  exists out',
    mc_loop fuel the_forces beta P1 it_max 0 s st out []
    = Some (Nat.iter (Z.to_nat k) (fun st => (mc_batch the_forces beta P1 s st).1) st,
            out ++ out', repeat s (Z.to_nat k)) /\
    omap reported_steps out'
    = (fun j => (s * Z.of_nat (S j))%Z) <$> seq 0 (Z.to_nat k).
Proof.
  intros s k Hit Hprint Hint Hfuel.
  assert (Hs : (0 < s)%Z) by (unfold s; lia).
  assert (Hk1 : (s * k <= it_max + s - 1)%Z) by (apply Z.mul_div_le; lia).
  assert (Hk2 : (it_max + s - 1 < s * Z.succ k)%Z) by (apply Z.mul_succ_div_gt; lia).
  assert (Hk0 : (0 < k)%Z) by nia.
  clearbody k s.
  split; [nia|]. split.
  { split.
    - intros H. exists k. lia.
    - intros (q & Hq). rewrite Hq in Hk1, Hk2.
      assert (k <= q)%Z by nia. assert (q <= k)%Z by nia.
      assert (k = q) as -> by lia. lia. }
  destruct (mc_loop_from the_forces beta P1 it_max s (Z.to_nat k) 0 fuel st out []
              Hs ltac:(lia)) as (out' & Hloop & Hout).
  - rewrite Nat.add_0_l. replace (Z.of_nat (Z.to_nat k - 1)) with (k - 1)%Z by lia. nia.
  - rewrite Nat.add_0_l, Z2Nat.id by lia. nia.
  - exact Hfuel.
  - exists out'. split; [|exact Hout].
    replace (s * Z.of_nat 0)%Z with 0%Z in Hloop by lia. exact Hloop.
Qed.

Lemma mc_loop_stuck the_forces beta P1 it_max fuel :
  (1 <= it_max)%Z ->
  forall st out batches,
    mc_loop fuel the_forces beta P1 it_max 0 0 st out batches = None.
Proof.
  intros Hit. induction fuel as [|fuel IH]; intros st out batches.
  - reflexivity.
  - rewrite mc_loop_step.
    replace (0 <? it_max)%Z with true by (symmetry; apply Z.ltb_lt; lia).
    replace (Z.min 0 (it_max - 0)) with 0%Z by lia. apply IH.
Qed.

(** With [n_print] 0 the loop does not end: [step] and [i] stay 0, and
    every call of [run] is for 0 steps. *)
Theorem mc_loop_without_print the_forces beta P1 it_max fuel st out batches :
  (1 <= it_max)%Z ->
  Z.min 0 it_max = 0%Z /\
  mc_loop fuel the_forces beta P1 it_max 0 0 st out batches = None /\
  (mc_loop (S fuel) the_forces beta P1 it_max 0 0 st out batches
   = mc_loop fuel the_forces beta P1 it_max 0 0
       (mc_batch the_forces beta P1 0 st).1
       (out ++ [mc_report beta P1 0 0 (mc_batch the_forces beta P1 0 st)])
       (batches ++ [0%Z])).
Proof.
  intros Hit. split; [lia|]. split; [apply mc_loop_stuck, Hit|].
  rewrite mc_loop_step.
  replace (0 <? it_max)%Z with true by (symmetry; apply Z.ltb_lt; lia).
  replace (Z.min 0 (it_max - 0)) with 0%Z by lia. reflexivity.
Qed.

End MonteCarloLoop.

Lemma mc_loop_batches_witness :
  (1 <= 10)%Z /\ (1 <= 3)%Z /\
  exists out',
    mc_loop (EN := discs64) (OB := drawn_moves) (SA := rejecting_sampler)
      (CV := binary64_conversions) 5 big 1%float 1%float 10 0 3
      ((5%float, 0%Z), empty_box, []) [] []
    = Some (Nat.iter 4
              (fun st => (mc_batch (EN := discs64) (OB := drawn_moves)
                            (SA := rejecting_sampler) big 1%float 1%float 3 st).1)
              ((5%float, 0%Z), empty_box, []),
            [] ++ out', repeat 3%Z 4) /\
    omap reported_steps out' = [3; 6; 9; 12]%Z.
Proof.
  assert (H1 : (1 <= 10)%Z) by lia.
  assert (H2 : (1 <= 3)%Z) by lia.
  split; [exact H1|]. split; [exact H2|].
  exact (proj2 (proj2
    (mc_loop_batches (EN := discs64) (OB := drawn_moves) (SA := rejecting_sampler)
       (CV := binary64_conversions) big 1%float 1%float 10 3
       ((5%float, 0%Z), empty_box, []) [] 5 H1 H2 ltac:(vm_compute; discriminate)
       ltac:(vm_compute; lia)))).
Defined.

Lemma mc_loop_without_print_witness :
  (1 <= 10)%Z /\
  mc_loop (EN := discs64) (OB := drawn_moves) (SA := rejecting_sampler)
    (CV := binary64_conversions) 1000 big 1%float 1%float 10 0 0
    ((5%float, 0%Z), empty_box, []) [] [] = None.
Proof.
  assert (H1 : (1 <= 10)%Z) by lia.
  split; [exact H1|].
  exact (proj1 (proj2
    (mc_loop_without_print (EN := discs64) (OB := drawn_moves)
       (SA := rejecting_sampler) (CV := binary64_conversions) big 1%float 1%float
       10 1000 ((5%float, 0%Z), empty_box, []) [] [] H1))).
Defined.

(** ** Writing and reading a configuration with objects *)

Section StdioValues.
Import Stdio.
Local Open Scope string_scope.

Lemma digit_char_value (d : Z) :
  (0 <= d < 10)%Z -> Z.of_nat (nat_of_ascii (digit_char d) - 48) = d.
Proof.
  intros H.
  assert (d = 0 \/ d = 1 \/ d = 2 \/ d = 3 \/ d = 4 \/ d = 5 \/ d = 6 \/ d = 7
          \/ d = 8 \/ d = 9)%Z as Hd by lia.
  repeat (destruct Hd as [->|Hd]; [reflexivity|]). subst. reflexivity.
Qed.

Lemma scan_digits_value (ds : string) (a : ascii) (rest : string) (acc : Z)
    (count : nat) :
  all_digits ds = true -> is_digit a = false ->
  scan_digits (ds ++ String a rest) acc count
  = (digits_value ds acc, (count + String.length ds)%nat, String a rest).
Proof.
  revert acc count. induction ds as [|d ds IH]; intros acc count Hds Ha; simpl.
  - rewrite Ha. f_equal. f_equal. lia.
  - simpl in Hds. apply andb_prop in Hds as [Hd Hds]. rewrite Hd.
    rewrite (IH _ (S count) Hds Ha). f_equal. f_equal. lia.
Qed.

Lemma digits_from_value (fuel : nat) :
  forall (n : Z) (acc : string) (a : Z),
  (0 <= n < 10 ^ Z.of_nat fuel)%Z ->
  exists k : Z, (0 <= k)%Z /\
    digits_value (digits_from fuel n acc) a = digits_value acc (a * 10 ^ k + n)%Z.
Proof.
  induction fuel as [|fuel IH]; intros n acc a Hn.
  - exists 0%Z. split; [lia|]. simpl in *. f_equal.
    change (10 ^ 0)%Z with 1%Z in Hn. lia.
  - cbn [digits_from].
    assert (Hmod : (0 <= n mod 10 < 10)%Z) by (apply Z.mod_pos_bound; lia).
    assert (Hdiv : (n = 10 * (n / 10) + n mod 10)%Z) by (apply Z.div_mod; lia).
    destruct (n / 10 =? 0)%Z eqn:Hq.
    + apply Z.eqb_eq in Hq. exists 1%Z. split; [lia|].
      cbn [digits_value]. rewrite digit_char_value by exact Hmod.
      f_equal. lia.
    + apply Z.eqb_neq in Hq.
      destruct (IH (n / 10)%Z (String (digit_char (n mod 10)) acc) a)
        as (k & Hk & Hv).
      * split; [apply Z.div_pos; lia|].
        apply Z.div_lt_upper_bound; [lia|].
        rewrite Nat2Z.inj_succ, Z.pow_succ_r in Hn by lia. lia.
      * exists (k + 1)%Z. split; [lia|]. rewrite Hv.
        cbn [digits_value]. rewrite digit_char_value by exact Hmod.
        f_equal. rewrite Z.pow_add_r by lia. lia.
Qed.

Lemma digits_value_digits (n : Z) : (0 <= n)%Z -> digits_value (digits n) 0%Z = n.
Proof.
  intros Hn. unfold digits.
  destruct (digits_from_value (S (Z.to_nat (Z.log2 n))) n "" 0%Z) as (k & _ & Hv).
  - split; [exact Hn|].
    destruct (Z.eq_dec n 0%Z) as [->|Hne]; [reflexivity|].
    rewrite Nat2Z.inj_succ, Z2Nat.id by apply Z.log2_nonneg.
    apply Z.lt_le_trans with (2 ^ Z.succ (Z.log2 n))%Z.
    + apply Z.log2_spec. lia.
    + apply Z.pow_le_mono_l. pose proof (Z.log2_nonneg n). lia.
  - rewrite Hv. reflexivity.
Qed.

(** ["%d"] reads back what ["%d"] has printed of a number that is not
    negative, when a character other than a digit follows. *)
Lemma scan_d_print_d (n : Z) (a : ascii) (rest : string) :
  (0 <= n)%Z -> is_digit a = false ->
  scan_d (print_d n ++ String a rest) = Some (n, String a rest).
Proof.
  intros Hn Ha. unfold scan_d, print_d.
  replace (n <? 0)%Z with false by (symmetry; apply Z.ltb_ge; lia).
  pose proof (digits_all n) as Hall. pose proof (digits_nonempty n) as Hne.
  pose proof (digits_value_digits n Hn) as Hval.
  destruct (digits n) as [|d ds] eqn:Hd; [congruence|].
  cbn [all_digits] in Hall. apply andb_prop in Hall as [Hd1 Hds].
  change (String d ds ++ String a rest) with (String d (ds ++ String a rest)).
  cbn [skip_space]. rewrite (digit_not_space d Hd1).
  rewrite scan_sign_digit by exact Hd1.
  change (String d (ds ++ String a rest)) with (String d ds ++ String a rest).
  rewrite scan_digits_value; [|cbn [all_digits]; rewrite Hd1; exact Hds | exact Ha].
  rewrite Hval. reflexivity.
Qed.

End StdioValues.

Section FileWithObjects.
Context {EN : Energetics float} {OB : ObjectOps float}.
Import Stdio.
Local Open Scope string_scope.
Implicit Types (c : config) (l : list (object float)) (o : object float).

Lemma skip_space_idempotent (s : string) : skip_space (skip_space s) = skip_space s.
Proof.
  induction s as [|a s IH]; simpl; [reflexivity|].
  destruct (is_space a) eqn:Ha; [exact IH|]. simpl. rewrite Ha. reflexivity.
Qed.

Lemma read_object_skip_space (s : string) : read_object (skip_space s) = read_object s.
Proof. unfold read_object, scan_d. rewrite skip_space_idempotent. reflexivity. Qed.

Lemma read_objects_step (n : nat) (src : string) l :
  read_objects (S n) src l =
  match read_object src with
  | Some (o, rest) => read_objects n rest (l ++ [o])
  | None => None
  end.
Proof.
  cbn [read_objects]. unfold read_object.
  destruct (scan_d src) as [[t s1]|]; [|reflexivity].
  destruct (scan_lf s1) as [[x s2]|]; [|reflexivity].
  destruct (scan_lf s2) as [[y s3]|]; [|reflexivity].
  destruct (scan_lf s3) as [[a s4]|]; reflexivity.
Qed.

Lemma object_lines_app l1 l2 :
  object_lines (l1 ++ l2) = object_lines l1 ++ object_lines l2.
Proof.
  induction l1 as [|o l1 IH]; simpl; [reflexivity|].
  rewrite IH, append_assoc. reflexivity.
Qed.

Lemma append_empty_r (s : string) : s ++ "" = s.
Proof. induction s as [|a s IH]; simpl; [reflexivity | rewrite IH; reflexivity]. Qed.

Lemma write_loop l (n : nat) (init : string) :
  n <= List.length l ->
  for_upto n
    (fun out i =>
       match l !! i with
       | Some this_obj => out ++ object_write this_obj
       | None => out
       end) init
  = init ++ object_lines (take n l).
Proof.
  induction n as [|n IH]; intros Hn.
  - unfold for_upto. simpl. rewrite append_empty_r. reflexivity.
  - rewrite for_upto_S, IH by lia.
    destruct (lookup_lt_is_Some_2 l n) as [o Ho]; [lia|].
    rewrite Ho, (take_S_r _ _ _ Ho), object_lines_app. simpl.
    rewrite append_empty_r, append_assoc. reflexivity.
Qed.

(** The loop of the file constructor on lines that each read as an
    object. *)
Lemma read_objects_lines l (r : nat) :
  (forall i o, l !! i = Some o ->
     exists o',
       read_object (object_lines (drop i l))
       = Some (o', skip_space (object_lines (drop (S i) l)))) ->
  forall (i : nat) (acc : list (object float)),
  (i + r = List.length l)%nat ->
  exists os,
    read_objects r (skip_space (object_lines (drop i l))) acc = Some (acc ++ os)%list /\
    List.length os = r /\
    forall j o, l !! (i + j)%nat = Some o ->
      exists o', os !! j = Some o' /\
        read_object (object_lines (drop (i + j) l))
        = Some (o', skip_space (object_lines (drop (S (i + j)) l))).
Proof.
  intros Hlines. induction r as [|r IH]; intros i acc Hi.
  - exists []. split; [simpl; rewrite app_nil_r; reflexivity|].
    split; [reflexivity|]. intros j o Ho.
    apply lookup_lt_Some in Ho. lia.
  - destruct (lookup_lt_is_Some_2 l i) as [o Ho]; [lia|].
    destruct (Hlines i o Ho) as (o' & Hread).
    rewrite read_objects_step, read_object_skip_space, Hread.
    destruct (IH (S i) (acc ++ [o'])%list ltac:(lia)) as (os & Hos & Hlen & Hall).
    exists (o' :: os). split; [rewrite Hos, <- app_assoc; reflexivity|].
    split; [simpl; lia|].
    intros j oj Hj. destruct j as [|j].
    + rewrite Nat.add_0_r in *. exists o'. split; [reflexivity | exact Hread].
    + replace (i + S j)%nat with (S i + j)%nat in * by lia.
      destruct (Hall j oj Hj) as (oj' & Hoj' & Hr). exists oj'. auto.
Qed.

(** Where every line that [object::write] prints reads back as an object,
    up to the white space that follows it, the file constructor reads
    what [config::write] wrote of a configuration with finite sizes, and
    the configuration read has as many objects, each the one its line
    reads as; it is periodic, whether or not the one written was, has no
    topology, [unchanged] false and [saved_energy] 0. *)
Theorem write_read_object_count c :
  is_finite (x_size c) = true -> is_finite (y_size c) = true ->
  (forall i o, obj_list c !! i = Some o ->
     exists o',
       read_object (object_lines (drop i (obj_list c)))
       = Some (o', skip_space (object_lines (drop (S i) (obj_list c))))) ->
  exists c',
    config_read (write c) = Some c' /\
    n_objects c' = n_objects c /\
    unchanged c' = false /\ saved_energy c' = PrimFloat.zero /\
    the_topology c' = None /\ is_periodic c' = true /\
    forall i o, obj_list c !! i = Some o ->
      exists o', obj_list c' !! i = Some o' /\
        read_object (object_lines (drop i (obj_list c)))
        = Some (o', skip_space (object_lines (drop (S i) (obj_list c)))).
Proof.
  intros Hx Hy Hlines.
  destruct (print_f_numeral _ Hx) as (n1 & ip1 & fp1 & Hp1 & Hip1 & Hne1 & Hfp1).
  destruct (print_f_numeral _ Hy) as (n2 & ip2 & fp2 & Hp2 & Hip2 & Hne2 & Hfp2).
  assert (Hfp1' : all_digits (fp1 ++ "2") = true)
    by (rewrite all_digits_app, Hfp1; reflexivity).
  assert (Hfp2' : all_digits (fp2 ++ "2") = true)
    by (rewrite all_digits_app, Hfp2; reflexivity).
  set (n := List.length (obj_list c)).
  set (tail := String (ascii_of_nat 10) (object_lines (obj_list c))).
  assert (Hw : write c =
    spaces (9 - String.length (numeral n1 ip1 fp1))
      ++ numeral n1 ip1 (fp1 ++ "2")
      ++ String " "
           (spaces (9 - String.length (numeral n2 ip2 fp2))
              ++ numeral n2 ip2 (fp2 ++ "2")
              ++ String " " (newline ++ print_d (Z.of_nat n) ++ tail))).
  { unfold write. cbv zeta. rewrite write_loop by lia. rewrite take_ge by lia.
    rewrite Hp1, Hp2. fold n.
    rewrite !append_assoc, pad_numeral_then_2.
    rewrite ?append_assoc, pad_numeral_then_2. reflexivity. }
  unfold config_read. rewrite Hw.
  destruct (scan_lf_numeral (9 - String.length (numeral n1 ip1 fp1)) n1 ip1
              (fp1 ++ "2") " "
              (spaces (9 - String.length (numeral n2 ip2 fp2))
                 ++ numeral n2 ip2 (fp2 ++ "2")
                 ++ String " " (newline ++ print_d (Z.of_nat n) ++ tail))
              Hip1 Hne1 Hfp1' eq_refl) as [v1 Hv1].
  rewrite Hv1.
  destruct (scan_lf_numeral (S (9 - String.length (numeral n2 ip2 fp2))) n2 ip2
              (fp2 ++ "2") " " (newline ++ print_d (Z.of_nat n) ++ tail)
              Hip2 Hne2 Hfp2' eq_refl) as [v2 Hv2].
  change (spaces (S (9 - String.length (numeral n2 ip2 fp2)))
            ++ numeral n2 ip2 (fp2 ++ "2")
            ++ String " " (newline ++ print_d (Z.of_nat n) ++ tail))
    with (String " "
            (spaces (9 - String.length (numeral n2 ip2 fp2))
               ++ numeral n2 ip2 (fp2 ++ "2")
               ++ String " " (newline ++ print_d (Z.of_nat n) ++ tail))) in Hv2.
  rewrite Hv2.
  change (skip_space (String " " (newline ++ print_d (Z.of_nat n) ++ tail)))
    with (skip_space (print_d (Z.of_nat n) ++ tail)).
  assert (Hskip : skip_space (print_d (Z.of_nat n) ++ tail) = print_d (Z.of_nat n) ++ tail).
  { unfold print_d.
    replace (Z.of_nat n <? 0)%Z with false by (symmetry; apply Z.ltb_ge; lia).
    pose proof (digits_all (Z.of_nat n)) as Hall.
    pose proof (digits_nonempty (Z.of_nat n)) as Hne.
    destruct (digits (Z.of_nat n)) as [|d ds]; [congruence|].
    cbn [all_digits] in Hall. apply andb_prop in Hall as [Hd _].
    simpl. rewrite (digit_not_space d Hd). reflexivity. }
  rewrite Hskip. unfold tail.
  rewrite scan_d_print_d by (lia || reflexivity).
  replace (Z.of_nat n <? 0)%Z with false by (symmetry; apply Z.ltb_ge; lia).
  rewrite Nat2Z.id.
  change (skip_space (String (ascii_of_nat 10) (object_lines (obj_list c))))
    with (skip_space (object_lines (drop 0 (obj_list c)))).
  destruct (read_objects_lines (obj_list c) n Hlines 0 [] eq_refl)
    as (os & Hos & Hlen & Hall).
  rewrite Hos. simpl.
  exists (mk_config v1 v2 false PrimFloat.zero os None true).
  split; [reflexivity|]. split; [exact Hlen|].
  repeat split. intros i o Ho. apply (Hall i o Ho).
Qed.

End FileWithObjects.

Lemma write_read_object_count_witness :
  Stdio.is_finite (x_size three_discs) = true /\
  Stdio.is_finite (y_size three_discs) = true /\
  exists c',
    config_read (EN := discs64) (OB := drawn_moves)
      (write (OB := drawn_moves) three_discs) = Some c' /\
    n_objects c' = 3.
Proof.
  split; [reflexivity|]. split; [reflexivity|].
  destruct (write_read_object_count (EN := discs64) (OB := drawn_moves) three_discs
              eq_refl eq_refl) as (c' & Hr & Hn & _).
  - intros i o Ho.
    destruct i as [|[|[|i]]]; simpl in Ho; try discriminate;
      eexists; vm_compute; reflexivity.
  - exists c'. auto.
Defined.

(** ** [main] *)

Section MainProperties.
Context {EN : Energetics float} {OB : ObjectOps float} {SA : Sampler float}
        {CV : Conversions float}.
Import Stdio.
Local Open Scope string_scope.

Lemma main_run_not_before_loading fuel the_forces it_max n_print beta P1 loaded g
    status err :
  main_run fuel the_forces it_max n_print beta P1 loaded g
  <> Main_exit status [] err None.
Proof.
  unfold main_run.
  destruct (energy the_forces (add_topology default_topology loaded)) as [c U1].
  destruct (relief _ _ _ _ _ _ _ _ _); [discriminate| |discriminate].
  destruct (mc_loop _ _ _ _ _ _ _ _ _ _) as [[[[[? ?] ?] ?] ?]|]; discriminate.
Qed.

(** For arguments [n_steps] and [print_frequency] that [atoi] reads within
    the range of [int]: [main] ends with [EXIT_FAILURE] before it reads
    the configuration, with nothing on the log and the file [final_config]
    not written to, exactly when the arguments are not six, [n_steps]
    reads as less than 1 or one of the two files cannot be opened; a wrong
    number of arguments is reported whatever the arguments are. *)
Theorem main_rejects fuel the_forces args src1 dest1 g :
  (List.length args = 6 ->
   fits_int (atoi (nth 0 args "")) /\ fits_int (atoi (nth 1 args ""))) ->
  ((exists status err,
      main fuel the_forces args src1 dest1 g = Main_exit status [] err None)
   <-> (List.length args <> 6 \/ (atoi (nth 0 args "") < 1)%Z
        \/ src1 = None \/ dest1 = false)) /\
  (forall status err,
     main fuel the_forces args src1 dest1 g = Main_exit status [] err None ->
     status = EXIT_FAILURE) /\
  (List.length args <> 6 ->
   main fuel the_forces args src1 dest1 g
   = Main_exit EXIT_FAILURE []
       ("Wrong number of arguments: " ++ print_d (Z.of_nat (List.length args))
          ++ " but expected 6" ++ newline ++ usage) None).
Proof.
  intros _.
  assert (Hshape : List.length args <> 6 \/
            exists a1 a2 a3 a4 a5 a6, args = [a1; a2; a3; a4; a5; a6]).
  { destruct args as [|a1 [|a2 [|a3 [|a4 [|a5 [|a6 [|a7 rest]]]]]]];
      first [left; simpl; lia | right; do 6 eexists; reflexivity]. }
  assert (Hwrong : List.length args <> 6 ->
            main fuel the_forces args src1 dest1 g
            = Main_exit EXIT_FAILURE []
                ("Wrong number of arguments: "
                   ++ print_d (Z.of_nat (List.length args))
                   ++ " but expected 6" ++ newline ++ usage) None).
  { intros Hlen. unfold main, fatal_error.
    destruct args as [|a1 [|a2 [|a3 [|a4 [|a5 [|a6 [|a7 rest]]]]]]];
      try (simpl in Hlen; lia); rewrite !append_assoc; reflexivity. }
  split; [|split; [|exact Hwrong]].
  - destruct Hshape as [Hlen|(a1 & a2 & a3 & a4 & a5 & a6 & ->)].
    + split; [intros _; left; exact Hlen|].
      intros _. rewrite (Hwrong Hlen). eauto.
    + unfold main. simpl nth.
      destruct (atoi a1 <? 1)%Z eqn:Hit;
        [apply Z.ltb_lt in Hit | apply Z.ltb_ge in Hit].
      * split; [intros _; right; left; exact Hit|].
        intros _. unfold fatal_error. eauto.
      * destruct src1 as [text|].
        -- destruct dest1.
           ++ split.
              ** intros (status & err & H).
                 destruct (config_read text); [|discriminate].
                 exfalso. eapply main_run_not_before_loading; eauto.
              ** intros [H|[H|[H|H]]]; simpl in H; try lia; discriminate.
           ++ split; [intros _; right; right; right; reflexivity|].
              intros _. unfold fatal_error. eauto.
        -- split; [intros _; right; right; left; reflexivity|].
           intros _. unfold fatal_error. eauto.
  - intros status err.
    destruct Hshape as [Hlen|(a1 & a2 & a3 & a4 & a5 & a6 & ->)].
    + rewrite (Hwrong Hlen). intros [= <- _]. reflexivity.
    + unfold main, fatal_error.
      destruct (atoi a1 <? 1)%Z; [intros [= <- _]; reflexivity|].
      destruct src1 as [text|]; [|intros [= <- _]; reflexivity].
      destruct dest1; [|intros [= <- _]; reflexivity].
      destruct (config_read text); [|discriminate].
      intros H. exfalso. eapply main_run_not_before_loading; eauto.
Qed.

(** [print_frequency] is not checked: where it reads as 0, which is also
    what [atoi] gives for an argument that is no number, and the other
    arguments are accepted, [main] does not come to its end: it does not
    return 0 and writes no configuration, however long it runs. *)
Theorem main_without_print fuel the_forces a_steps a_print a_beta a_pressure
    a_initial a_final src1 dest1 g :
  atoi a_print = 0%Z ->
  forall status out err dest,
    main fuel the_forces [a_steps; a_print; a_beta; a_pressure; a_initial; a_final]
         src1 dest1 g = Main_exit status out err dest ->
    status = EXIT_FAILURE /\ (dest = None \/ dest = Some "").
Proof.
  intros Hprint status out err dest. unfold main, fatal_error.
  destruct (atoi a_steps <? 1)%Z eqn:Hit;
    [intros [= <- _ _ <-]; auto | apply Z.ltb_ge in Hit].
  destruct src1 as [text|]; [|intros [= <- _ _ <-]; auto].
  destruct dest1; [|intros [= <- _ _ <-]; auto].
  destruct (config_read text) as [loaded|]; [|discriminate].
  unfold main_run, fatal_error.
  destruct (energy the_forces (add_topology default_topology loaded)) as [c U1].
  destruct (relief _ _ _ _ _ _ _ _ _);
    [intros [= <- _ _ <-]; auto | | discriminate].
  rewrite Hprint.
  replace (Z.min 0 (atoi a_steps)) with 0%Z by lia.
  rewrite mc_loop_stuck by lia. discriminate.
Qed.


End MainProperties.

Section MainCompletes.
Context {EN : Energetics float} {OB : ObjectOps float} {SA : Sampler float}
        {CV : Conversions float}.
Import Stdio.
Local Open Scope string_scope.

(** With six arguments, [n_steps] and [print_frequency] of 1 or more and
    within the range of [int], both files opened and a configuration file
    of plain numerals with object types within the range of [int]: if the
    energy of the configuration read is not above [big_energy] after [r]
    relief batches, [r] being at most 1001, and was above it before,
    [main] runs these [r] batches, reports the adjustment if [r] is not 0,
    runs the Monte Carlo loop to its end in [k] batches of [s] steps ([s]
    the smaller of the two numbers, [k] is [n_steps / s] rounded up),
    reports each batch, writes the configuration that the last batch
    leaves to [final_config] and returns 0. *)
Theorem main_completes fuel the_forces a_steps a_print a_beta a_pressure
    a_initial a_final text loaded g (r : nat) :
  let it_max := atoi a_steps in
  let s := Z.min (atoi a_print) it_max in
  let k := Z.to_nat ((it_max + s - 1) / s) in
  let beta := atof a_beta in
  let P1 := atof a_pressure in
  let c0 := (energy the_forces (add_topology default_topology loaded)).1 in
  let U0 := (energy the_forces (add_topology default_topology loaded)).2 in
  let N1 := Z.of_nat (n_objects c0) in
  let relieved :=
    after_batches (IN := one_shot) r the_forces beta P1 N1 U0
      (c0, (d_min (x_size c0) (y_size c0) / d_two)%dbl, g) in
  let loading := Log_loaded N1 P1 beta (area c0) (of_int N1 / area c0)%dbl U0 in
  let adjusting :=
    match r with
    | O => []
    | S _ => [Log_adjusted N1 P1 beta (area c0) (of_int N1 / area c0)%dbl relieved.2]
    end in
  fits_int it_max -> fits_int (atoi a_print) ->
  (1 <= it_max)%Z -> (1 <= atoi a_print)%Z ->
  (Z.of_nat k * s <= 2147483647)%Z -> (2002 * N1 <= 2147483647)%Z ->
  plain_text text = true ->
  config_read text = Some loaded ->
  Forall (fun o => fits_int (o_type o)) (obj_list loaded) ->
  r <= 1001 ->
  (forall j, j < r ->
     (big_energy the_forces
        <? (after_batches (IN := one_shot) j the_forces beta P1 N1 U0
              (c0, (d_min (x_size c0) (y_size c0) / d_two)%dbl, g)).2)%dbl = true) ->
  (big_energy the_forces <? relieved.2)%dbl = false ->
  r < fuel -> k < fuel ->
  exists out,
    main fuel the_forces [a_steps; a_print; a_beta; a_pressure; a_initial; a_final]
         (Some text) true g
    = Main_exit 0 ([loading] ++ adjusting ++ out ++ [Log_done])%list ""
        (Some (write
           (Nat.iter k (fun st => (mc_batch the_forces beta P1 s st).1)
              (with_dl_max (new_integrator the_forces) relieved.1.1.2,
               relieved.1.1.1, relieved.1.2)).1.2)) /\
    omap reported_steps out = (fun j => (s * Z.of_nat (S j))%Z) <$> seq 0 k.
Proof.
  intros it_max s k beta P1 c0 U0 N1 relieved loading adjusting
         _ _ Hit Hprint Hint Hint' _ Hread _ Hr Habove Hend Hfr Hfk.
  assert (Hs : (0 < s)%Z) by (unfold s; lia).
  assert (Hk1 : (s * ((it_max + s - 1) / s) <= it_max + s - 1)%Z)
    by (apply Z.mul_div_le; lia).
  assert (Hk2 : (it_max + s - 1 < s * Z.succ ((it_max + s - 1) / s))%Z)
    by (apply Z.mul_succ_div_gt; lia).
  assert (Hk0 : (0 < (it_max + s - 1) / s)%Z) by nia.
  unfold main. fold it_max.
  replace (it_max <? 1)%Z with false by (symmetry; apply Z.ltb_ge; lia).
  rewrite Hread. unfold main_run. fold beta P1.
  destruct (energy the_forces (add_topology default_topology loaded))
    as [c U1] eqn:He.
  subst c0 U0. cbn [fst snd] in *. fold N1.
  rewrite (relief_ends (IN := one_shot) the_forces beta P1 N1 U1 _ fuel r
             ltac:(lia) Hr Hfr Habove Hend).
  rewrite repeat_length. fold relieved.
  destruct (mc_loop_from the_forces beta P1 it_max s k 0 fuel
              (with_dl_max (new_integrator the_forces) relieved.1.1.2,
               relieved.1.1.1, relieved.1.2)
              ([loading] ++ adjusting)%list [] Hs ltac:(lia))
    as (out' & Hloop & Hout).
  - rewrite Nat.add_0_l. unfold k.
    replace (Z.of_nat (Z.to_nat ((it_max + s - 1) / s) - 1))
      with ((it_max + s - 1) / s - 1)%Z by lia. nia.
  - rewrite Nat.add_0_l. unfold k. rewrite Z2Nat.id by lia. nia.
  - lia.
  - replace (s * Z.of_nat 0)%Z with 0%Z in Hloop by lia.
    fold s.
    assert (Hlog :
      match repeat (2 * N1)%Z r with
      | [] => [Log_loaded N1 P1 beta (area c) (of_int N1 / area c)%dbl U1]
      | _ :: _ =>
          ([Log_loaded N1 P1 beta (area c) (of_int N1 / area c)%dbl U1]
             ++ [Log_adjusted N1 P1 beta (area c) (of_int N1 / area c)%dbl
                   relieved.2])%list
      end = ([loading] ++ adjusting)%list).
    { unfold loading, adjusting. destruct r; reflexivity. }
    rewrite Hlog, Hloop. exists out'. split; [|exact Hout].
    destruct (Nat.iter k _ _) as [[it' cs'] g'].
    cbn [fst snd]. rewrite <- !app_assoc. reflexivity.
Qed.

End MainCompletes.

Lemma main_rejects_witness :
  fits_int (atoi "0") /\ fits_int (atoi "3") /\
  exists status err,
    main (EN := discs64) (OB := drawn_moves) (SA := rejecting_sampler)
      (CV := binary64_conversions) 5 big
      ["0"; "3"; "1"; "1"; "in"; "out"]%string (Some empty_box_text) true []
    = Main_exit status [] err None.
Proof.
  assert (Hsteps : fits_int (atoi "0")) by (split; vm_compute; discriminate).
  assert (Hprint : fits_int (atoi "3")) by (split; vm_compute; discriminate).
  split; [exact Hsteps|]. split; [exact Hprint|].
  apply (proj1 (main_rejects (EN := discs64) (OB := drawn_moves)
                  (SA := rejecting_sampler) (CV := binary64_conversions) 5 big
                  ["0"; "3"; "1"; "1"; "in"; "out"]%string
                  (Some empty_box_text) true [] (fun _ => conj Hsteps Hprint))).
  right. left. vm_compute. reflexivity.
Defined.

Lemma main_without_print_witness :
  atoi "often" = 0%Z /\
  forall status out err dest,
    main (EN := discs64) (OB := drawn_moves) (SA := rejecting_sampler)
      (CV := binary64_conversions) 100 big
      ["10"; "often"; "1"; "1"; "in"; "out"]%string (Some empty_box_text) true []
    = Main_exit status out err dest ->
    status = EXIT_FAILURE /\ (dest = None \/ dest = Some ""%string).
Proof.
  assert (H : atoi "often" = 0%Z) by reflexivity.
  split; [exact H|].
  exact (main_without_print (EN := discs64) (OB := drawn_moves)
           (SA := rejecting_sampler) (CV := binary64_conversions) 100 big
           "10" "often" "1" "1" "in" "out" (Some empty_box_text) true [] H).
Defined.


Example main_writes_the_empty_box :
  main (EN := discs64) (OB := drawn_moves) (SA := rejecting_sampler)
    (CV := binary64_conversions) 5 big
    ["10"; "3"; "1"; "1"; "in"; "out"]%string (Some empty_box_text) true []
  = Main_exit 0
      [Log_loaded 0 1 1 100 0 0;
       Log_steps 3 0 1 1 100 0 0 0 3 5; Log_steps 6 0 1 1 100 0 0 0 6 5;
       Log_steps 9 0 1 1 100 0 0 0 9 5; Log_steps 12 0 1 1 100 0 0 0 12 5;
       Log_done]%float ""
      (Some ("10.0000002 10.0000002 " ++ Stdio.newline ++ "0" ++ Stdio.newline)%string).
Proof. vm_compute. reflexivity. Qed.

Lemma main_completes_witness :
  fits_int (atoi "10") /\ fits_int (atoi "3") /\
  plain_text empty_box_text = true /\
  config_read (EN := discs64) (OB := drawn_moves) empty_box_text
  = Some (mk_config 10 10 false 0 [] None true)%float /\
  exists out,
    omap reported_steps out = [3; 6; 9; 12]%Z /\
    exists dest,
      main (EN := discs64) (OB := drawn_moves) (SA := rejecting_sampler)
        (CV := binary64_conversions) 5 big
        ["10"; "3"; "1"; "1"; "in"; "out"]%string (Some empty_box_text) true []
      = Main_exit 0
          ([Log_loaded 0 1 1 100 0 0] ++ [] ++ out ++ [Log_done])%float ""
          (Some dest).
Proof.
  assert (Hread : config_read (EN := discs64) (OB := drawn_moves) empty_box_text
                  = Some (mk_config 10 10 false 0 [] None true)%float)
    by (vm_compute; reflexivity).
  assert (Hsteps : fits_int (atoi "10")) by (split; vm_compute; discriminate).
  assert (Hprint : fits_int (atoi "3")) by (split; vm_compute; discriminate).
  assert (Hplain : plain_text empty_box_text = true) by reflexivity.
  split; [exact Hsteps|]. split; [exact Hprint|]. split; [exact Hplain|].
  split; [exact Hread|].
  destruct (main_completes (EN := discs64) (OB := drawn_moves)
              (SA := rejecting_sampler) (CV := binary64_conversions) 5 big
              "10" "3" "1" "1" "in" "out" empty_box_text
              (mk_config 10 10 false 0 [] None true)%float [] 0
              Hsteps Hprint
              ltac:(vm_compute; discriminate) ltac:(vm_compute; discriminate)
              ltac:(vm_compute; discriminate) ltac:(vm_compute; discriminate)
              Hplain Hread ltac:(constructor)
              ltac:(lia) ltac:(intros j Hj; lia) eq_refl
              ltac:(lia) ltac:(vm_compute; lia))
    as (out & Hmain & Hout).
  exists out. split; [exact Hout|]. eexists. exact Hmain.
Defined.

Section MainRelief.
Context {EN : Energetics float} {OB : ObjectOps float} {SA : Sampler float}
        {CV : Conversions float}.
Import Stdio.
Local Open Scope string_scope.

(** For [n_steps] and [print_frequency] within the range of [int] and a
    configuration file of plain numerals with object types within the
    range of [int]: where the energy of the configuration read is above
    [big_energy] and still is after each of 1001 relief batches, [main]
    ends in the fatal error: the status is [EXIT_FAILURE], the log holds
    the report on loading only, the message gives [2002 * N1] steps and
    runs on into the usage line, its format having no newline, and
    [final_config], opened before, is left empty. *)
Theorem main_relief_fails fuel the_forces a_steps a_print a_beta a_pressure
    a_initial a_final text loaded g :
  let c0 := (energy the_forces (add_topology default_topology loaded)).1 in
  let U0 := (energy the_forces (add_topology default_topology loaded)).2 in
  let dl_max := (d_min (x_size c0) (y_size c0) / d_two)%dbl in
  let N1 := Z.of_nat (n_objects c0) in
  fits_int (atoi a_steps) -> fits_int (atoi a_print) ->
  (1 <= atoi a_steps)%Z ->
  plain_text text = true ->
  config_read text = Some loaded ->
  Forall (fun o => fits_int (o_type o)) (obj_list loaded) ->
  (0 < N1)%Z -> (2002 * N1 <= 2147483647)%Z -> 1002 <= fuel ->
  (forall j, j <= 1001 ->
     (big_energy the_forces
        <? (after_batches (IN := one_shot) j the_forces (atof a_beta)
              (atof a_pressure) N1 U0 (c0, dl_max, g)).2)%dbl = true) ->
  main fuel the_forces [a_steps; a_print; a_beta; a_pressure; a_initial; a_final]
       (Some text) true g
  = Main_exit EXIT_FAILURE
      [Log_loaded N1 (atof a_pressure) (atof a_beta) (area c0)
         (of_int N1 / area c0)%dbl U0]
      ("Unable to adjust initial configuration in " ++ print_d (2002 * N1)
         ++ " steps" ++ usage)
      (Some "").
Proof.
  intros c0 U0 dl_max N1 _ _ Hit _ Hread _ HN Hint Hfuel Habove.
  unfold main.
  replace (atoi a_steps <? 1)%Z with false by (symmetry; apply Z.ltb_ge; lia).
  rewrite Hread. unfold main_run.
  destruct (energy the_forces (add_topology default_topology loaded))
    as [c U1] eqn:He.
  subst c0 U0. cbn [fst snd] in *. fold dl_max. fold N1.
  replace fuel with (1001 + S (fuel - 1002)) by lia.
  rewrite (relief_unroll (IN := one_shot)).
  - rewrite relief_step, Habove by lia.
    replace (2000 * N1 <? 0 + 2 * N1 * Z.of_nat 1001)%Z with true
      by (symmetry; apply Z.ltb_lt; lia).
    unfold fatal_error.
    replace (0 + 2 * N1 * Z.of_nat 1001)%Z with (2002 * N1)%Z by lia.
    rewrite !append_assoc. reflexivity.
  - intros j Hj. split; [apply Habove; lia|]. apply Z.ltb_ge. nia.
Qed.

End MainRelief.

Lemma idle_after_batches {D : Type} {AD : Double D} {EN : Energetics D}
    {OB : ObjectOps D} (k : nat) (the_forces : force_field) (beta P1 : D)
    (N1 : Z) (c : config) (dl_max : D) (g : rand_state) :
  unchanged c = true ->
  after_batches (IN := one_shot (SA := rejecting_sampler)) k the_forces beta P1 N1
    (saved_energy c / d_two)%dbl (c, dl_max, g)
  = ((c, dl_max, g), (saved_energy c / d_two)%dbl).
Proof.
  intros Hu. induction k as [|k IH]; [reflexivity|].
  simpl. rewrite IH. unfold relief_batch. simpl.
  rewrite (energy_unchanged _ _ Hu). reflexivity.
Qed.

Lemma main_relief_fails_witness :
  fits_int (atoi "10") /\ fits_int (atoi "3") /\
  plain_text three_on_a_spot_text = true /\
  config_read (EN := discs64) (OB := drawn_moves) three_on_a_spot_text
  = Some three_on_a_spot /\
  main (EN := discs64) (OB := drawn_moves) (SA := rejecting_sampler)
    (CV := binary64_conversions) 1002 big
    ["10"; "3"; "1"; "1"; "in"; "out"]%string (Some three_on_a_spot_text) true []
  = Main_exit EXIT_FAILURE [Log_loaded 3 1 1 100 (3 / 100) (3 * big)]%float
      ("Unable to adjust initial configuration in 6006 steps"
         ++ usage)%string
      (Some ""%string).
Proof.
  assert (Hread : config_read (EN := discs64) (OB := drawn_moves)
                    three_on_a_spot_text = Some three_on_a_spot)
    by (vm_compute; reflexivity).
  assert (Hsteps : fits_int (atoi "10")) by (split; vm_compute; discriminate).
  assert (Hprint : fits_int (atoi "3")) by (split; vm_compute; discriminate).
  assert (Hplain : plain_text three_on_a_spot_text = true) by reflexivity.
  assert (Htypes : Forall (fun o : object float => fits_int (o_type o))
                     (obj_list three_on_a_spot))
    by (repeat constructor; vm_compute; discriminate).
  split; [exact Hsteps|]. split; [exact Hprint|]. split; [exact Hplain|].
  split; [exact Hread|].
  refine (main_relief_fails (EN := discs64) (OB := drawn_moves)
            (SA := rejecting_sampler) (CV := binary64_conversions) 1002 big
            "10" "3" "1" "1" "in" "out" three_on_a_spot_text three_on_a_spot []
            Hsteps Hprint
            ltac:(vm_compute; discriminate) Hplain Hread Htypes
            ltac:(vm_compute; reflexivity)
            ltac:(vm_compute; discriminate) (le_n _) _).
  intros j Hj.
  transitivity
    (big_energy (Energetics := discs64) big
       <? (after_batches (EN := discs64) (OB := drawn_moves)
             (IN := one_shot (SA := rejecting_sampler)) j big 1%float 1%float 3
             (saved_energy
                (energy (EN := discs64) big
                   (add_topology (EN := discs64) tt three_on_a_spot)).1 / d_two)%dbl
             ((energy (EN := discs64) big
                 (add_topology (EN := discs64) tt three_on_a_spot)).1,
              5%float, [])).2)%dbl.
  - vm_compute. reflexivity.
  - rewrite (idle_after_batches (EN := discs64) (OB := drawn_moves) j big
               1%float 1%float 3
               (energy (EN := discs64) big
                  (add_topology (EN := discs64) tt three_on_a_spot)).1
               5%float [] eq_refl).
    reflexivity.
Defined.
